(** * prepare_windows_build.py: a shallow embedding and its properties

    The script acquires a fixed list of dependency libraries (one zip archive
    per library), extracts the C sources flattened into one directory per
    library, generates headers from [.h.in] templates by token substitution,
    writes [setup.cfg] and [common/config.h], and finally verifies that the
    expected files are in place.

    Modelling conventions.
    - Text and bytes are Rocq strings; the decoding and newline translation
      done by Python's text-mode [open] are not modelled.
    - A path is the list of its components below the file-system root; the
      file system is a finite map from paths to nodes (file or directory).
    - The network ([urllib.request.urlopen]) and the zip decoder
      ([zipfile.ZipFile]) are parameters of the run.
    - A statement completes, leaves through [sys.exit], or lets an
      exception escape; the script catches exceptions only around the
      download.
    - Console output is not modelled, except for the verification report,
      which is kept as a list of structured lines.

    The file has the embedding first, then the vocabulary of the
    properties, then the lemmas, and the properties of the script last. *)

From Stdlib Require Import Ascii String.
From stdpp Require Import gmap strings list.

Local Open Scope stdpp_scope.

(** ** Python string methods *)

Module Str.

(** [s.endswith(suffix)] *)
Fixpoint endswith (s suffix : string) : bool :=
  String.eqb s suffix
  || match s with
     | EmptyString => false
     | String _ s' => endswith s' suffix
     end.

(** [s.split(sep)] for a one-character separator: the components between
    the separators, in order; the result is never empty. *)
Fixpoint split (sep : ascii) (s : string) : list string :=
  match s with
  | EmptyString => [EmptyString]
  | String c s' =>
      if Ascii.eqb c sep then EmptyString :: split sep s'
      else match split sep s' with
           | h :: t => String c h :: t
           | [] => [String c EmptyString]
           end
  end.

(** [s.replace(old, new)] for a non-empty [old]: scan from the left; where
    [old] starts, emit [new] and jump over the occurrence ([skip] counts the
    characters of the occurrence still to be passed). *)
Fixpoint replace_from (old new : string) (skip : nat) (s : string) : string :=
  match s with
  | EmptyString => EmptyString
  | String c s' =>
      match skip with
      | S n => replace_from old new n s'
      | O =>
          if String.prefix old s
          then new +:+ replace_from old new (String.length old - 1) s'
          else String c (replace_from old new 0 s')
      end
  end.

(** With an empty [old], Python puts [new] before every character and at
    the end. *)
Fixpoint replace_empty (new s : string) : string :=
  match s with
  | EmptyString => new
  | String c s' => new +:+ String c (replace_empty new s')
  end.

Definition replace (s old new : string) : string :=
  match old with
  | EmptyString => replace_empty new s
  | String _ _ => replace_from old new 0 s
  end.

(** The character class [[A-Za-z0-9_]]. *)
Definition is_word (c : ascii) : bool :=
  let n := nat_of_ascii c in
  (Nat.leb 65 n && Nat.leb n 90)
  || (Nat.leb 97 n && Nat.leb n 122)
  || (Nat.leb 48 n && Nat.leb n 57)
  || Nat.eqb n 95.

(** Length of the longest run of word characters at the head of [s]. *)
Fixpoint span_word (s : string) : nat :=
  match s with
  | String c s' => if is_word c then S (span_word s') else 0
  | EmptyString => 0
  end.

(** [re.match(r"@[A-Za-z0-9_]+@", s)]: the length of the match at the head
    of [s], if there is one.  The greedy run of word characters must be
    followed by ['@'], which is not a word character, so the match at a
    position is unique. *)
Definition match_placeholder (s : string) : option nat :=
  match s with
  | String c r =>
      let n := span_word r in
      match String.get n r with
      | Some c' =>
          if Ascii.eqb c "@" && Nat.ltb 0 n && Ascii.eqb c' "@"
          then Some (n + 2)
          else None
      | None => None
      end
  | EmptyString => None
  end.

(** [re.sub(r"@[A-Za-z0-9_]+@", repl, s)]: leftmost non-overlapping
    matches are replaced; the scan resumes after each match. *)
Fixpoint sub_from (repl : string) (skip : nat) (s : string) : string :=
  match s with
  | EmptyString => EmptyString
  | String c s' =>
      match skip with
      | S n => sub_from repl n s'
      | O =>
          match match_placeholder s with
          | Some m => repl +:+ sub_from repl (m - 1) s'
          | None => String c (sub_from repl 0 s')
          end
      end
  end.

Definition re_sub_placeholder (repl s : string) : string := sub_from repl 0 s.

End Str.

(** ** The file system

    A node is a regular file with its content or a directory.  The root
    (the empty path) is always a directory. *)

Inductive node : Type :=
  | File (content : string)
  | Dir.

Abbreviation path := (list string).
Abbreviation filesystem := (gmap (list string) node).

(** Python exceptions the script can let escape. *)
Inductive exn : Type := OSError | BadZipFile | KeyError.

Module FS.

Definition node_at (fs : filesystem) (p : path) : option node :=
  match p with
  | [] => Some Dir
  | _ :: _ => fs !! p
  end.

(** [os.path.exists] *)
Definition exists_ (fs : filesystem) (p : path) : bool :=
  match node_at fs p with
  | Some _ => true
  | None => false
  end.

(** [os.path.isdir] *)
Definition isdir (fs : filesystem) (p : path) : bool :=
  match node_at fs p with
  | Some Dir => true
  | _ => false
  end.

(** [child_of d p] is [Some f] when [p] is the entry [f] of directory [d]. *)
Fixpoint child_of (d p : path) : option string :=
  match d, p with
  | [], [f] => Some f
  | x :: d', y :: p' => if String.eqb x y then child_of d' p' else None
  | _, _ => None
  end.

(** [os.listdir]: the names of the entries of [d], in the (arbitrary but
    fixed) order of the map.  Python raises when [d] is not a directory;
    every call in the script is guarded by [os.path.isdir]. *)
Definition listdir (fs : filesystem) (d : path) : list string :=
  omap (λ e, child_of d e.1) (map_to_list fs).

Definition parent (p : path) : path := take (length p - 1) p.

(** [open(p, "w")] or [open(p, "wb")] followed by a write of [content]:
    the parent must be a directory and [p] must not be one. *)
Definition write_file (fs : filesystem) (p : path) (content : string)
  : exn + filesystem :=
  match p with
  | [] => inl OSError
  | _ :: _ =>
      if isdir fs (parent p)
      then match fs !! p with
           | Some Dir => inl OSError
           | _ => inr (<[p := File content]> fs)
           end
      else inl OSError
  end.

(** [open(p, "r")] followed by [read()]. *)
Definition read_file (fs : filesystem) (p : path) : exn + string :=
  match node_at fs p with
  | Some (File content) => inr content
  | _ => inl OSError
  end.

(** [os.makedirs(p, exist_ok=True)]: create [p] and the missing
    directories above it; a regular file in the way is an error. *)
Fixpoint makedirs_from (fs : filesystem) (above rest : path) : exn + filesystem :=
  match rest with
  | [] => inr fs
  | c :: rest' =>
      let q := above ++ [c] in
      match fs !! q with
      | Some Dir => makedirs_from fs q rest'
      | Some (File _) => inl OSError
      | None => makedirs_from (<[q := Dir]> fs) q rest'
      end
  end.

Definition makedirs (fs : filesystem) (p : path) : exn + filesystem :=
  makedirs_from fs [] p.

End FS.

(** ** Zip archives

    A decoded archive is the list of its entries in directory order.
    [namelist] keeps that order; [open] by name finds the last entry of
    that name, as [zipfile] keeps a name-to-entry dictionary filled in
    directory order. *)

Abbreviation archive := (list (string * string)).

Module Zip.

Definition namelist (zf : archive) : list string := zf.*1.

Fixpoint open (zf : archive) (name : string) : option string :=
  match zf with
  | [] => None
  | (n, content) :: zf' =>
      match open zf' name with
      | Some c => Some c
      | None => if String.eqb n name then Some content else None
      end
  end.

End Zip.

(** ** The state of a run and the monad of the script *)

(** One line of the verification report (STEP 5). *)
Inductive report_line : Type :=
  | LibLine (lib : string) (ok : bool) (c_count : nat)
  | PathLine (p : path) (ok : bool).

Record world : Type := World {
  fs : filesystem;
  fetched : list string;       (* the URLs requested so far, in order *)
  report : list report_line    (* the verification lines printed so far *)
}.

Definition set_fs (w : world) (fs' : filesystem) : world :=
  World fs' (fetched w) (report w).

Definition add_fetch (w : world) (url : string) : world :=
  World (fs w) (fetched w ++ [url]) (report w).

Definition add_report (w : world) (l : report_line) : world :=
  World (fs w) (fetched w) (report w ++ [l]).

(** A statement either completes with a value, leaves through [sys.exit],
    or lets an exception escape. *)
Inductive result (A : Type) : Type :=
  | Ok (a : A)
  | Exit (status : nat)
  | Raise (e : exn).
Arguments Ok {A} a.
Arguments Exit {A} status.
Arguments Raise {A} e.

Definition M (A : Type) : Type := world → result A * world.

#[global] Instance M_ret : MRet M := λ A a w, (Ok a, w).

#[global] Instance M_bind : MBind M := λ A B f m w,
  match m w with
  | (Ok a, w') => f a w'
  | (Exit n, w') => (Exit n, w')
  | (Raise e, w') => (Raise e, w')
  end.

Definition sys_exit {A : Type} (status : nat) : M A := λ w, (Exit status, w).

Definition raise {A : Type} (e : exn) : M A := λ w, (Raise e, w).

Definition get_fs : M filesystem := λ w, (Ok (fs w), w).

(** Lift a file-system update that may fail. *)
Definition update_fs (f : filesystem → exn + filesystem) : M unit := λ w,
  match f (fs w) with
  | inr fs' => (Ok tt, set_fs w fs')
  | inl e => (Raise e, w)
  end.

Definition read_text (p : path) : M string := λ w,
  match FS.read_file (fs w) p with
  | inr content => (Ok content, w)
  | inl e => (Raise e, w)
  end.

Definition print_report (l : report_line) : M unit := λ w, (Ok tt, add_report w l).

(** The exit status of the process: an uncaught exception ends the
    interpreter with status 1. *)
Definition exit_status {A : Type} (r : result A) : nat :=
  match r with
  | Ok _ => 0
  | Exit n => n
  | Raise _ => 1
  end.

(** ** The script's constants *)

Definition DEPENDENCY_LIBS : list string :=
  [ "libcerror"; "libcthreads"; "libcdata"; "libclocale"; "libcnotify";
    "libcsplit"; "libuna"; "libcfile"; "libcpath"; "libbfio"; "libfcache";
    "libfdata"; "libfdatetime"; "libfguid"; "libfvalue"; "libfwnt";
    "libfmapi" ].

(** [GITHUB_ZIP_URL.format(lib=lib)] *)
Definition GITHUB_ZIP_URL (lib : string) : string :=
  "https://github.com/libyal/" +:+ lib +:+ "/archive/refs/heads/main.zip".

(** The dictionary [WIN_SUBS] in insertion order, which is the order in
    which Python iterates over it. *)
Definition WIN_SUBS : list (string * string) :=
  [ ("@PACKAGE@", "libpff");
    ("@VERSION@", "20250101");
    ("@HAVE_WIDE_CHARACTER_TYPE@", "1");
    ("@HAVE_MULTI_THREAD_SUPPORT@", "0");
    ("@HAVE_LIBBFIO@", "0");
    ("@HAVE_SYS_TYPES_H@", "0");
    ("@HAVE_INTTYPES_H@", "0");
    ("@HAVE_STDINT_H@", "1");
    ("@HAVE_WCHAR_H@", "1");
    ("@HAVE_SIZE32_T@", "0");
    ("@HAVE_SSIZE32_T@", "0");
    ("@HAVE_SIZE64_T@", "0");
    ("@HAVE_SSIZE64_T@", "0");
    ("@HAVE_OFF64_T@", "0") ].

Definition MINIMAL_SETUP_CFG : string :=
  "[metadata]
name = pypff
version = 20250101
".

Definition CONFIG_H : string :=
  "/* config.h - Windows/MSVC minimal configuration
 * Generated by prepare_windows_build.py v3 */
#ifndef CONFIG_H
#define CONFIG_H

#define WINAPI_USE_PREFIXED_FUNCTIONS   1
#define HAVE_WIDE_CHARACTER_TYPE        1
#define HAVE_WCHAR_H                    1
#define HAVE_STDINT_H                   1
#define HAVE_STRING_H                   1
#define HAVE_MEMORY_H                   1
#define HAVE_STDLIB_H                   1
#define HAVE_SYS_TYPES_H                0
#define HAVE_INTTYPES_H                 0
#define HAVE_UNISTD_H                   0
#define HAVE_OFF64_T                    0
#define HAVE_SIZE32_T                   0
#define HAVE_SSIZE32_T                  0
#define HAVE_SIZE64_T                   0
#define HAVE_SSIZE64_T                  0
#define HAVE_PRINTF_JD                  0
#define HAVE_PRINTF_ZD                  0
#define HAVE_PTHREAD_H                  0
#define HAVE_LOCAL_LIBCERROR            1

#endif /* CONFIG_H */
".

(** ** Helpers that do not touch the network *)

(** Truthiness of a Python string. *)
Definition nonempty (s : string) : bool :=
  match s with
  | EmptyString => false
  | String _ _ => true
  end.

(** [parts[-1]] of a member name. *)
Definition basename (member : string) : string :=
  default EmptyString (last (Str.split "/" member)).

(** The test of [extract_lib_sources] on a member name (lines 103-109). *)
Definition member_wanted (lib member : string) : bool :=
  let parts := Str.split "/" member in
  Nat.leb 3 (length parts)
  && String.eqb (default EmptyString (parts !! 1)) lib
  && nonempty (default EmptyString (last parts))
  && (Str.endswith (default EmptyString (last parts)) ".c"
      || Str.endswith (default EmptyString (last parts)) ".h"
      || Str.endswith (default EmptyString (last parts)) ".h.in"
      || String.eqb (default EmptyString (last parts)) "Makefile.am").

(** The loop of [extract_lib_sources] over [zf.namelist()]. *)
Fixpoint extract_members (zf : archive) (lib : string) (dest_dir : path)
    (members : list string) (extracted : nat) : M nat :=
  match members with
  | [] => mret extracted
  | member :: rest =>
      if member_wanted lib member then
        match Zip.open zf member with
        | Some data =>
            update_fs (λ fs, FS.write_file fs (dest_dir ++ [basename member]) data);;
            extract_members zf lib dest_dir rest (S extracted)
        | None => raise KeyError
        end
      else extract_members zf lib dest_dir rest extracted
  end.

(** [src_path[:-3]]: the last three characters go; in every call the last
    component ends in [.h.in], so they are the [.in] of that component. *)
Definition strip_in (src_path : path) : path :=
  match last src_path with
  | Some f => FS.parent src_path ++ [String.substring 0 (String.length f - 3) f]
  | None => []
  end.

(** [for k, v in subs.items(): content = content.replace(k, v)] *)
Fixpoint apply_subs (subs : list (string * string)) (content : string) : string :=
  match subs with
  | [] => content
  | (k, v) :: rest => apply_subs rest (Str.replace content k v)
  end.

(** The text that [generate_h_from_template] writes for a template text. *)
Definition render (subs : list (string * string)) (content : string) : string :=
  Str.re_sub_placeholder "0" (apply_subs subs content).

Definition generate_h_from_template (src_path : path)
    (subs : list (string * string)) : M path :=
  let dst_path := strip_in src_path in
  content ← read_text src_path;
  update_fs (λ fs, FS.write_file fs dst_path (render subs content));;
  mret dst_path.

(** [any(f.endswith(suffix) for f in os.listdir(d))] *)
Definition any_endswith (fs : filesystem) (d : path) (suffix : string) : bool :=
  existsb (λ f, Str.endswith f suffix) (FS.listdir fs d).

(** [len([f for f in os.listdir(d) if f.endswith(".c")]) if os.path.isdir(d) else 0] *)
Definition c_count (fs : filesystem) (d : path) : nat :=
  if FS.isdir fs d
  then length (List.filter (λ f, Str.endswith f ".c") (FS.listdir fs d))
  else 0.

Definition scan_dirs (root : path) : list path :=
  map (λ lib, root ++ [lib]) (DEPENDENCY_LIBS ++ ["libpff"])
  ++ [ root ++ ["common"]; root ++ ["include"; "libpff"]; root ++ ["include"] ].

Definition expected_paths (root : path) : list path :=
  [ root ++ ["common"; "types.h"];
    root ++ ["common"; "config.h"];
    root ++ ["include"; "libpff"; "types.h"];
    root ++ ["include"; "libpff"; "features.h"];
    root ++ ["include"; "libpff"; "definitions.h"];
    root ++ ["libpff"; "libpff_definitions.h"] ].

(** STEP 2, inner loop: the templates among the names listed in one
    directory. *)
Fixpoint generate_in (scan_dir : path) (names : list string) (generated : nat)
  : M nat :=
  match names with
  | [] => mret generated
  | fname :: rest =>
      if Str.endswith fname ".h.in" then
        generate_h_from_template (scan_dir ++ [fname]) WIN_SUBS;;
        generate_in scan_dir rest (S generated)
      else generate_in scan_dir rest generated
  end.

(** STEP 2, outer loop. *)
Fixpoint generate_all (dirs : list path) (generated : nat) : M nat :=
  match dirs with
  | [] => mret generated
  | scan_dir :: rest =>
      fs0 ← get_fs;
      if FS.isdir fs0 scan_dir then
        g ← generate_in scan_dir (FS.listdir fs0 scan_dir) generated;
        generate_all rest g
      else generate_all rest generated
  end.

(** STEP 3 (lines 218-232). *)
Definition generate_setup_cfg (root : path) : M unit :=
  let setup_cfg_in := root ++ ["setup.cfg.in"] in
  let setup_cfg := root ++ ["setup.cfg"] in
  fs0 ← get_fs;
  if FS.exists_ fs0 setup_cfg_in then
    content ← read_text setup_cfg_in;
    let content := Str.replace content "@VERSION@" "20250101" in
    let content := Str.re_sub_placeholder "0" content in
    update_fs (λ fs, FS.write_file fs setup_cfg content)
  else
    update_fs (λ fs, FS.write_file fs setup_cfg MINIMAL_SETUP_CFG).

(** STEP 4 (lines 240-269). *)
Definition write_config_h (root : path) : M unit :=
  update_fs (λ fs, FS.write_file fs (root ++ ["common"; "config.h"]) CONFIG_H).

(** STEP 5, first loop (lines 281-287). *)
Fixpoint verify_libs (root : path) (libs : list string) (all_ok : bool) : M bool :=
  match libs with
  | [] => mret all_ok
  | lib :: rest =>
      fs0 ← get_fs;
      let count := c_count fs0 (root ++ [lib]) in
      let ok := Nat.ltb 0 count in
      print_report (LibLine lib ok count);;
      verify_libs root rest (if ok then all_ok else false)
  end.

(** STEP 5, second loop (lines 289-300). *)
Fixpoint verify_paths (paths : list path) (all_ok : bool) : M bool :=
  match paths with
  | [] => mret all_ok
  | p :: rest =>
      fs0 ← get_fs;
      let ok := FS.exists_ fs0 p in
      print_report (PathLine p ok);;
      verify_paths rest (if ok then all_ok else false)
  end.

(** STEP 5 (lines 279-315). *)
Definition verification (root : path) : M unit :=
  all_ok ← verify_libs root (DEPENDENCY_LIBS ++ ["libpff"]) true;
  all_ok ← verify_paths (expected_paths root) all_ok;
  if (all_ok : bool) then (mret tt : M unit) else sys_exit 1.

(** ** The part of the script that depends on the outside world *)

Section Script.

(** [urlopen url] is the body of the response, or [None] when the request
    or the read raises. *)
Variable urlopen : string → option string.

(** [ZipFile data] is the decoded archive, or [None] when [zipfile] rejects
    the data. *)
Variable ZipFile : string → option archive.

(** The directory of the script and the current working directory. *)
Variables script_dir cwd : path.

Definition download_zip (url lib : string) : M string := λ w,
  match urlopen url with
  | Some data => (Ok data, add_fetch w url)
  | None => (Ok EmptyString, add_fetch w url)
  end.

Definition extract_lib_sources (zip_data lib : string) (dest_dir : path) : M nat :=
  update_fs (λ fs, FS.makedirs fs dest_dir);;
  match ZipFile zip_data with
  | Some zf => extract_members zf lib dest_dir (Zip.namelist zf) 0
  | None => raise BadZipFile
  end.

(** The body of the loop of STEP 1 (lines 155-173); the value is the list
    [failed] after the iteration. *)
Definition acquire_lib (root : path) (lib : string) (failed : list string)
  : M (list string) :=
  let dest := root ++ [lib] in
  fs0 ← get_fs;
  let complete :=
    if FS.isdir fs0 dest && any_endswith fs0 dest ".c"
    then any_endswith fs0 dest ".h.in"
    else false in
  if complete then (mret failed : M (list string))
  else
    zip_data ← download_zip (GITHUB_ZIP_URL lib) lib;
    if nonempty zip_data then
      n ← extract_lib_sources zip_data lib dest;
      if Nat.eqb n 0 then (mret (failed ++ [lib]) : M (list string)) else mret failed
    else mret (failed ++ [lib]).

(** STEP 1, the loop (lines 153-173). *)
Fixpoint acquire (root : path) (libs : list string) (failed : list string)
  : M (list string) :=
  match libs with
  | [] => mret failed
  | lib :: rest =>
      failed' ← acquire_lib root lib failed;
      acquire root rest failed'
  end.

(** Lines 138-142. *)
Definition find_root : M path :=
  fs0 ← get_fs;
  let root :=
    if FS.exists_ fs0 (script_dir ++ ["setup.py"]) then script_dir else cwd in
  if FS.exists_ fs0 (root ++ ["setup.py"]) then (mret root : M path) else sys_exit 1.

Definition main : M unit :=
  root ← find_root;
  failed ← acquire root DEPENDENCY_LIBS [];
  match failed with
  | [] =>
      generate_all (scan_dirs root) 0;;
      generate_setup_cfg root;;
      write_config_h root;;
      verification root
  | _ :: _ => sys_exit 1
  end.

End Script.

(** ** Vocabulary of the properties *)

Module StrSpec.
Import Str.

(** [s] ends with [suffix]. *)
Definition ends_with (s suffix : string) : Prop := ∃ p, s = p +:+ suffix.

(** [s] starts with [k]. *)
Definition starts_with (s k : string) : Prop := ∃ q, s = k +:+ q.

(** [k] occurs in [s]. *)
Definition occurs (k s : string) : Prop := ∃ p q, s = p +:+ k +:+ q.

Fixpoint all_word (s : string) : bool :=
  match s with
  | EmptyString => true
  | String c s' => is_word c && all_word s'
  end.

(** The texts matched by [@[A-Za-z0-9_]+@]. *)
Definition placeholder (m : string) : Prop :=
  ∃ w, m = String "@" (w +:+ "@") ∧ w ≠ "" ∧ all_word w = true.

(** Some substring of [s] is a placeholder. *)
Definition has_placeholder (s : string) : Prop :=
  ∃ p m q, s = p +:+ m +:+ q ∧ placeholder m.

(** *** Leftmost, non-overlapping replacement of the matches of a pattern *)

Section Leftmost.

(** [pat m]: the text [m] is a match of the pattern. *)
Variable pat : string → Prop.

Definition match_at_head (s : string) : Prop := ∃ m q, pat m ∧ s = m +:+ q.

Definition has_match (s : string) : Prop :=
  ∃ p t, s = p +:+ t ∧ match_at_head t.

(** No match starts inside [p] when [p] is followed by [t]. *)
Definition none_before (p t : string) : Prop :=
  ∀ p1 p2, p = p1 +:+ p2 → p2 ≠ "" → ¬ match_at_head (p2 +:+ t).

(** [replaced_all repl s r]: [r] is [s] with the matches found by a scan
    from the left replaced by [repl], the scan resuming after each match. *)
Inductive replaced_all (repl : string) : string → string → Prop :=
  | replaced_none s :
      ¬ has_match s → replaced_all repl s s
  | replaced_step p m q r :
      pat m → none_before p (m +:+ q) → replaced_all repl q r →
      replaced_all repl (p +:+ m +:+ q) (p +:+ repl +:+ r).

End Leftmost.

(** *** At-signs *)

Definition is_at (c : ascii) : bool := Ascii.eqb c "@".

Definition head_at (s : string) : bool :=
  match s with
  | String c _ => is_at c
  | EmptyString => false
  end.

Fixpoint last_at (s : string) : bool :=
  match s with
  | EmptyString => false
  | String c s' =>
      match s' with
      | EmptyString => is_at c
      | String _ _ => last_at s'
      end
  end.

(** [s] holds an at-sign. *)
Fixpoint has_at (s : string) : bool :=
  match s with
  | EmptyString => false
  | String c s' => is_at c || has_at s'
  end.

(** [s] holds two adjacent at-signs. *)
Fixpoint dbl_at (s : string) : bool :=
  match s with
  | EmptyString => false
  | String c s' => (is_at c && head_at s') || dbl_at s'
  end.

End StrSpec.

(** ** Vocabulary of the properties, continued *)

Import FS StrSpec.

(** The destination holds a [.c] file and a [.h.in] file. *)
Definition COMPLETE (fs : filesystem) (dest : path) : Prop :=
  isdir fs dest = true
  ∧ (∃ f, f ∈ listdir fs dest ∧ ends_with f ".c")
  ∧ (∃ g, g ∈ listdir fs dest ∧ ends_with g ".h.in").

(** Every directory stays a directory and every node stays. *)
Definition grows (fs fs' : filesystem) : Prop :=
  ∀ q, (isdir fs q = true → isdir fs' q = true)
       ∧ (is_Some (fs !! q) → is_Some (fs' !! q)).

(** The rule of the specification, in its words: at least three components, the
    second is the dependency name, the last is not empty and has one of
    the suffixes or is the build-descriptor name. *)
Definition kept_by_rule (lib member : string) : Prop :=
  let parts := Str.split "/" member in
  3 ≤ length parts
  ∧ parts !! 1 = Some lib
  ∧ ∃ f, last parts = Some f ∧ f ≠ ""
         ∧ (ends_with f ".c" ∨ ends_with f ".h" ∨ ends_with f ".h.in"
            ∨ f = "Makefile.am").

(** The table applied entry by entry in its order, each entry replacing
    the occurrences of its token in the text left by the entries before. *)
Inductive table_applied : list (string * string) → string → string → Prop :=
  | table_nil c :
      table_applied [] c c
  | table_cons k v rest c c1 c2 :
      replaced_all (eq k) v c c1 → table_applied rest c1 c2 →
      table_applied ((k, v) :: rest) c c2.

(** The line feed. *)
Definition nl : string := String "010" EmptyString.

(** *** The verification report *)

Definition lib_line (fs : filesystem) (root : path) (lib : string) : report_line :=
  LibLine lib (Nat.ltb 0 (c_count fs (root ++ [lib]))) (c_count fs (root ++ [lib])).

Definition path_line (fs : filesystem) (p : path) : report_line :=
  PathLine p (exists_ fs p).

Definition add_reports (w : world) (ls : list report_line) : world :=
  World (fs w) (fetched w) (report w ++ ls).

(** Every dependency directory has a [.c] file and every expected path
    exists. *)
Definition ready (fs : filesystem) (root : path) : Prop :=
  (∀ lib, lib ∈ DEPENDENCY_LIBS ++ ["libpff"] → 0 < c_count fs (root ++ [lib]))
  ∧ (∀ p, p ∈ expected_paths root → exists_ fs p = true).

(** [n] is the number of the names ending in [.c] that the directory [d]
    lists; a path that is not a directory has none. *)
Definition source_count (fs : filesystem) (d : path) (n : nat) : Prop :=
  (isdir fs d = true
   ∧ ∃ l, NoDup l
          ∧ (∀ f, f ∈ l ↔ f ∈ listdir fs d ∧ ends_with f ".c")
          ∧ length l = n)
  ∨ (isdir fs d = false ∧ n = 0).

(** The line of the report for a library: its name, whether the number
    of its [.c] files is positive, and that number. *)
Definition lib_reported (fs : filesystem) (root : path) (lib : string)
    (l : report_line) : Prop :=
  ∃ n ok, source_count fs (root ++ [lib]) n
          ∧ (ok = true ↔ 0 < n)
          ∧ l = LibLine lib ok n.

(** The lines of the report for the six expected files, in the order
    of the report. *)
Definition artifact_lines (fs : filesystem) (root : path) : list report_line :=
  [ PathLine (root ++ ["common"; "types.h"])
      (exists_ fs (root ++ ["common"; "types.h"]));
    PathLine (root ++ ["common"; "config.h"])
      (exists_ fs (root ++ ["common"; "config.h"]));
    PathLine (root ++ ["include"; "libpff"; "types.h"])
      (exists_ fs (root ++ ["include"; "libpff"; "types.h"]));
    PathLine (root ++ ["include"; "libpff"; "features.h"])
      (exists_ fs (root ++ ["include"; "libpff"; "features.h"]));
    PathLine (root ++ ["include"; "libpff"; "definitions.h"])
      (exists_ fs (root ++ ["include"; "libpff"; "definitions.h"]));
    PathLine (root ++ ["libpff"; "libpff_definitions.h"])
      (exists_ fs (root ++ ["libpff"; "libpff_definitions.h"])) ].

(** Aggregate readiness: the directory of every dependency and of
    [libpff] lists a positive number of names ending in [.c], and each
    of the six expected files exists. *)
Definition all_in_place (fs : filesystem) (root : path) : Prop :=
  (∀ lib, lib ∈ DEPENDENCY_LIBS ++ ["libpff"] →
          ∃ n, source_count fs (root ++ [lib]) n ∧ 0 < n)
  ∧ exists_ fs (root ++ ["common"; "types.h"]) = true
  ∧ exists_ fs (root ++ ["common"; "config.h"]) = true
  ∧ exists_ fs (root ++ ["include"; "libpff"; "types.h"]) = true
  ∧ exists_ fs (root ++ ["include"; "libpff"; "features.h"]) = true
  ∧ exists_ fs (root ++ ["include"; "libpff"; "definitions.h"]) = true
  ∧ exists_ fs (root ++ ["libpff"; "libpff_definitions.h"]) = true.

(** *** Example data *)

Definition example_members : list string :=
  ["x-main/x/a.c"; "x-main/x/sub/b.c"; "x-main/other/c.c"; "x-main/x/d.h.in"].

(** An archive with the four example members, and a world whose only
    node is the project directory [r]. *)
Definition example_zip : archive :=
  [ ("x-main/x/a.c", "int a;"); ("x-main/x/sub/b.c", "int b;");
    ("x-main/other/c.c", "int c;"); ("x-main/x/d.h.in", "#define D @D@") ].

Definition bare_world : world := World {[ ["r"] := Dir ]} [] [].

(** A project in which nothing can be fetched: the root [r] holds
    [setup.py] and nothing else. *)
Definition fresh_world : world :=
  World (<[ ["r"; "setup.py"] := File "" ]> {[ ["r"] := Dir ]}) [] [].

Definition collision_zip : archive :=
  [ ("x-main/x/one/a.c", "first"); ("x-main/x/b.h", "other");
    ("x-main/x/two/a.c", "second") ].

Definition example_template : string :=
  "#define A @A@" +:+ nl +:+ "#define B @B@" +:+ nl.

Definition example_header : string :=
  "#define A 1" +:+ nl +:+ "#define B 0" +:+ nl.

(** A project with one template in [common/]. *)
Definition template_world : world :=
  World (<[ ["r"; "common"; "types.h.in"] := File "#define V @VERSION@ @X@" ]>
           (<[ ["r"; "common"] := Dir ]> {[ ["r"] := Dir ]})) [] [].

(** A project with [setup.py] and [setup.cfg.in]. *)
Definition setup_world : world :=
  World (<[ ["r"; "setup.cfg.in"] := File "version = @VERSION@ @X@" ]>
           (<[ ["r"; "setup.py"] := File "" ]> {[ ["r"] := Dir ]})) [] [].

(** A project whose directory [libcerror] is complete. *)
Definition complete_world : world :=
  World (<[ ["r"; "libcerror"; "libcerror_error.c"] := File "" ]>
           (<[ ["r"; "libcerror"; "libcerror_definitions.h.in"] := File "" ]>
              (<[ ["r"; "libcerror"] := Dir ]> {[ ["r"] := Dir ]}))) [] [].

(** ** Vocabulary of the further properties *)

(** [s] holds the character [c]. *)
Fixpoint mem_char (c : ascii) (s : string) : bool :=
  match s with
  | EmptyString => false
  | String c' s' => Ascii.eqb c' c || mem_char c s'
  end.

(** A project whose directory [common] holds [types.h.in] as a directory. *)
Definition odd_template_world : world :=
  World (<[ ["r"; "common"; "types.h.in"] := Dir ]>
           (<[ ["r"; "common"] := Dir ]> {[ ["r"] := Dir ]})) [] [].

(** A statement that requests nothing from the network. *)
Definition fetches_nothing {A : Type} (m : M A) : Prop :=
  ∀ w, fetched (m w).2 = fetched w.

(** An archive in which nothing is wanted for the library [x]. *)
Definition unwanted_zip : archive :=
  [ ("x-main/README", "read me"); ("x-main/x/", ""); ("a.c", "int a;") ].

(** A project with [setup.py] whose directory [x] does not exist yet. *)
Definition project_world : world :=
  World (<[ ["r"; "setup.py"] := File "print()" ]> {[ ["r"] := Dir ]}) [] [].

(** A project in which every step of the run succeeds without the
    network: every library directory holds a source file and a template,
    and the templates of the expected headers are there. *)
Definition lib_files (root : path) (lib : string) (fs : filesystem) : filesystem :=
  <[root ++ [lib; lib +:+ ".c"] := File "int x;"]>
    (<[root ++ [lib; lib +:+ "_definitions.h.in"] := File "#define V @VERSION@"]>
       (<[root ++ [lib] := Dir]> fs)).

Definition ready_world : world :=
  World
    (foldr (lib_files ["r"])
       (<[ ["r"; "include"; "libpff"; "definitions.h.in"] := File "@PACKAGE@" ]>
          (<[ ["r"; "include"; "libpff"; "features.h.in"] := File "@HAVE_WCHAR_H@" ]>
             (<[ ["r"; "include"; "libpff"; "types.h.in"] := File "@HAVE_SIZE32_T@" ]>
                (<[ ["r"; "include"; "libpff"] := Dir ]>
                   (<[ ["r"; "include"] := Dir ]>
                      (<[ ["r"; "common"; "types.h.in"] := File "@HAVE_STDINT_H@" ]>
                         (<[ ["r"; "common"] := Dir ]>
                            (<[ ["r"; "setup.py"] := File "print()" ]>
                               {[ ["r"] := Dir ]}))))))))
       (DEPENDENCY_LIBS ++ ["libpff"]))
    [] [].

(** The directory [root] and the directories above it are there. *)
Definition anchored (root : path) (fs : filesystem) : Prop :=
  ∀ k, 0 < k ≤ length root → is_Some (fs !! take k root).

(** A statement that removes no node and, when [root] is anchored,
    changes nothing outside [root], however it ends. *)
Definition confined {A : Type} (root : path) (m : M A) : Prop :=
  ∀ w, (∀ q, is_Some (fs w !! q) → is_Some (fs (m w).2 !! q))
       ∧ (anchored root (fs w) →
          ∀ q, ¬ root `prefix_of` q → fs (m w).2 !! q = fs w !! q).

(** A statement that leaves through [sys.exit] only with status 1. *)
Definition exits_with_one {A : Type} (m : M A) : Prop :=
  ∀ w n, (m w).1 = Exit n → n = 1.

(** A file name that [os.path.join] appends to a directory as one
    component on Windows as on POSIX: it holds no colon (a drive letter
    or a stream) and no backslash. *)
Definition plain_name (f : string) : bool :=
  negb (mem_char ":" f) && negb (mem_char "092" f).

(** Every member of the archive that is wanted for [lib] has a plain
    final component. *)
Definition plain_archive (lib : string) (zf : archive) : bool :=
  forallb (λ m, implb (member_wanted lib m) (plain_name (basename m)))
    (Zip.namelist zf).

(** One archive that holds a source file and a template for every
    library of the list, and a member with a drive letter for the
    library [x]. *)
Definition all_libs_zip : archive :=
  flat_map (λ lib, [ ("t/" +:+ lib +:+ "/" +:+ lib +:+ ".c", "int x;");
                     ("t/" +:+ lib +:+ "/" +:+ lib +:+ "_definitions.h.in",
                      "#define V @VERSION@") ])
    DEPENDENCY_LIBS
  ++ [ ("t/x/D:evil.c", "int e;") ].

(** A project [r] whose libraries are still to be fetched, next to a
    directory [c] that holds a file of its own. *)
Definition unfetched_world : world :=
  World
    (<[ ["c"; "notes"] := File "keep" ]>
       (<[ ["c"] := Dir ]>
          (lib_files ["r"] "libpff"
             (<[ ["r"; "include"; "libpff"; "definitions.h.in"] := File "@PACKAGE@" ]>
                (<[ ["r"; "include"; "libpff"; "features.h.in"] := File "@HAVE_WCHAR_H@" ]>
                   (<[ ["r"; "include"; "libpff"; "types.h.in"] := File "@HAVE_SIZE32_T@" ]>
                      (<[ ["r"; "include"; "libpff"] := Dir ]>
                         (<[ ["r"; "include"] := Dir ]>
                            (<[ ["r"; "common"; "types.h.in"] := File "@HAVE_STDINT_H@" ]>
                               (<[ ["r"; "common"] := Dir ]>
                                  (<[ ["r"; "setup.py"] := File "print()" ]>
                                     {[ ["r"] := Dir ]})))))))))))
    [] [].

(** * Facts about the string methods *)

#[local] Arguments String.append : simpl nomatch.

Module StrFacts.
Import Str StrSpec.

Lemma str_app_nil_r (s : string) : s +:+ "" = s.
Proof. induction s as [|c s IH]; simpl; [done | by rewrite IH]. Qed.

Lemma str_app_assoc (s t u : string) : (s +:+ t) +:+ u = s +:+ t +:+ u.
Proof. induction s as [|c s IH]; simpl; [done | by rewrite IH]. Qed.

Lemma str_length_app (s t : string) :
  String.length (s +:+ t) = String.length s + String.length t.
Proof. induction s as [|c s IH]; simpl; [done | by rewrite IH]. Qed.

Lemma str_app_eq_nil (s t : string) : s +:+ t = "" → s = "" ∧ t = "".
Proof. destruct s; simpl; [done | discriminate]. Qed.

Lemma str_app_inv_head (s t u : string) : s +:+ t = s +:+ u → t = u.
Proof. induction s as [|c s IH]; simpl; [done | intros [= H]; auto]. Qed.

Lemma endswith_spec (s suffix : string) :
  endswith s suffix = true ↔ ends_with s suffix.
Proof.
  unfold ends_with. induction s as [|c s IH].
  - change (endswith "" suffix) with (String.eqb "" suffix || false).
    rewrite orb_false_r, String.eqb_eq. split.
    + intros <-. by exists "".
    + intros [p Hp]. symmetry in Hp. by apply str_app_eq_nil in Hp as [_ ->].
  - change (endswith (String c s) suffix)
      with (String.eqb (String c s) suffix || endswith s suffix).
    rewrite orb_true_iff, String.eqb_eq, IH. split.
    + intros [<- | [p ->]]; [by exists "" | by exists (String c p)].
    + intros [[|c' p] Hp]; simpl in Hp; [by left | right].
      injection Hp as _ ->. by exists p.
Qed.

Lemma prefix_spec (k s : string) :
  String.prefix k s = true ↔ starts_with s k.
Proof.
  unfold starts_with. revert s. induction k as [|c k IH]; intros s.
  - destruct s; simpl; split; eauto.
  - destruct s as [|c' s]; simpl.
    + split; [done | intros [q [=]]].
    + destruct (ascii_dec c c') as [<- | Hne].
      * rewrite IH. split; intros [q Hq]; exists q; congruence.
      * split; [done | intros [q [= ? ?]]; done].
Qed.


Lemma str_app_eq_app (p1 x p2 y : string) :
  p1 +:+ x = p2 +:+ y →
  (∃ d, p2 = p1 +:+ d ∧ x = d +:+ y) ∨ (∃ d, p1 = p2 +:+ d ∧ y = d +:+ x).
Proof.
  revert p2. induction p1 as [|c p1 IH]; intros [|c' p2] Heq; simpl in Heq.
  - left. by exists "".
  - left. by exists (String c' p2).
  - right. by exists (String c p1).
  - injection Heq as -> Heq.
    destruct (IH p2 Heq) as [(d & -> & ->) | (d & -> & ->)];
      [left | right]; by exists d.
Qed.

Lemma str_app_inv_length (m1 q1 m2 q2 : string) :
  String.length m1 = String.length m2 → m1 +:+ q1 = m2 +:+ q2 → m1 = m2.
Proof.
  revert m2. induction m1 as [|c m1 IH]; intros [|c' m2] Hlen Heq;
    simpl in *; try done.
  injection Heq as -> Heq. f_equal. apply IH; [lia | done].
Qed.

(** *** [str.split] *)

Lemma split_nonempty (sep : ascii) (s : string) : split sep s ≠ [].
Proof.
  destruct s as [|c s]; simpl; [done |].
  destruct (Ascii.eqb c sep); [done |]. by destruct (split sep s).
Qed.

(** Joining the components with the separator gives the text back. *)
Lemma split_concat (sep : ascii) (s : string) :
  String.concat (String sep "") (split sep s) = s.
Proof.
  induction s as [|c s IH]; [done |]. cbn [split].
  pose proof (split_nonempty sep s) as Hne.
  destruct (Ascii.eqb_spec c sep) as [-> | Hc].
  - destruct (split sep s) as [|h t]; [done |].
    change (String.concat (String sep "") ("" :: h :: t))
      with (String sep (String.concat (String sep "") (h :: t))).
    by rewrite IH.
  - destruct (split sep s) as [|h t]; [done |].
    rewrite <- IH. by destruct t.
Qed.

(** No component holds the separator. *)
Lemma split_no_sep (sep : ascii) (s : string) :
  Forall (λ part, ∀ p q, part ≠ p +:+ String sep q) (split sep s).
Proof.
  induction s as [|c s IH]; cbn [split].
  - constructor; [| constructor]. by intros [|? ?] q.
  - pose proof (split_nonempty sep s) as Hne.
    destruct (Ascii.eqb_spec c sep) as [-> | Hc].
    + constructor; [by intros [|? ?] q | done].
    + destruct (split sep s) as [|h t]; [done |].
      apply Forall_cons in IH as [Hh Ht]. constructor; [| done].
      intros [|c' p] q; simpl; [congruence |].
      intros [= -> ->]. by apply (Hh p q).
Qed.

(** *** Leftmost, non-overlapping replacement *)

Section Leftmost.

Variable pat : string → Prop.

Lemma has_match_cons (c : ascii) (s : string) :
  has_match pat (String c s) ↔ match_at_head pat (String c s) ∨ has_match pat s.
Proof.
  split.
  - intros ([|c' p] & t & Hs & Ht); simpl in Hs.
    + left. by subst.
    + right. injection Hs as -> ->. by exists p, t.
  - intros [H | (p & t & -> & Ht)].
    + by exists "", (String c s).
    + by exists (String c p), t.
Qed.

Lemma none_before_nil (t : string) : none_before pat "" t.
Proof.
  intros p1 p2 Hp Hne. symmetry in Hp. by apply str_app_eq_nil in Hp as [_ ->].
Qed.

Lemma none_before_cons (c : ascii) (p t : string) :
  ¬ match_at_head pat (String c (p +:+ t)) → none_before pat p t →
  none_before pat (String c p) t.
Proof.
  intros Hc Hp [|c' p1] p2 Heq Hne; simpl in Heq.
  - by subst.
  - injection Heq as -> ->. by apply (Hp p1 p2).
Qed.

Lemma replaced_all_cons (repl : string) (c : ascii) (s r : string) :
  ¬ match_at_head pat (String c s) → replaced_all pat repl s r →
  replaced_all pat repl (String c s) (String c r).
Proof.
  intros Hc Hr. destruct Hr as [s Hs | p m q r Hm Hp Hr].
  - apply (replaced_none pat). rewrite has_match_cons. tauto.
  - apply (replaced_step pat repl (String c p) m q r); [done | | done].
    by apply none_before_cons.
Qed.

(** Any scanner that copies a character where no match starts and
    emits [repl] and resumes after a match produces [replaced_all]. *)
Variable repl : string.
Variable scan : string → string.
Hypothesis pat_nonempty : ∀ m, pat m → m ≠ "".
Hypothesis head_dec : ∀ s, match_at_head pat s ∨ ¬ match_at_head pat s.
Hypothesis scan_nil : scan "" = "".
Hypothesis scan_match : ∀ m q, pat m → scan (m +:+ q) = repl +:+ scan q.
Hypothesis scan_copy : ∀ c s,
  ¬ match_at_head pat (String c s) → scan (String c s) = String c (scan s).

Lemma no_match_nil : ¬ has_match pat "".
Proof.
  intros (p & t & Hs & m & q & Hm & ->). symmetry in Hs.
  apply str_app_eq_nil in Hs as [_ Hs]. apply str_app_eq_nil in Hs as [-> _].
  by apply (pat_nonempty "").
Qed.

Lemma scan_replaced_all (s : string) : replaced_all pat repl s (scan s).
Proof.
  remember (String.length s) as n eqn:Hn.
  revert s Hn. induction (lt_wf n) as [n _ IH]. intros s ->.
  destruct s as [|c s].
  - rewrite scan_nil. apply (replaced_none pat), no_match_nil.
  - destruct (head_dec (String c s)) as [(m & q & Hm & Hs) | Hno].
    + rewrite Hs, (scan_match m q Hm).
      apply (replaced_step pat repl "" m q (scan q)); [done | apply none_before_nil |].
      apply (IH (String.length q)); [| done].
      rewrite Hs, str_length_app. specialize (pat_nonempty m Hm).
      destruct m; [done | simpl; lia].
    + rewrite (scan_copy c s Hno). apply replaced_all_cons; [done |].
      apply (IH (String.length s)); [simpl; lia | done].
Qed.

(** When at most one match starts at a position, the result of the
    replacement is determined. *)
Hypothesis pat_unique : ∀ m1 m2 q1 q2,
  pat m1 → pat m2 → m1 +:+ q1 = m2 +:+ q2 → m1 = m2.

Lemma replaced_all_functional (s r1 r2 : string) :
  replaced_all pat repl s r1 → replaced_all pat repl s r2 → r1 = r2.
Proof.
  intros H1. revert r2.
  induction H1 as [s Hno | p m q r Hm Hp Hq IH]; intros r2 H2.
  - inversion H2 as [s' Hno' | p' m' q' r' Hm' Hp' Hq' Heq]; [done |].
    subst. exfalso. apply Hno. exists p', (m' +:+ q'). split; [done |].
    by exists m', q'.
  - inversion H2 as [s' Hno' | p' m' q' r' Hm' Hp' Hq' Heq Hr].
    + subst. exfalso. apply Hno'. exists p, (m +:+ q). split; [done |].
      by exists m, q.
    + assert (p' = p ∧ m' +:+ q' = m +:+ q) as [-> Hmq].
      { destruct (str_app_eq_app _ _ _ _ Heq) as [(d & -> & Hd) | (d & -> & Hd)].
        - destruct d as [|c d]; [by rewrite str_app_nil_r |].
          exfalso. apply (Hp p' (String c d)); [done | done |].
          rewrite <- Hd. by exists m', q'.
        - destruct d as [|c d]; [by rewrite str_app_nil_r |].
          exfalso. apply (Hp' p (String c d)); [done | done |].
          rewrite <- Hd. by exists m, q. }
      assert (m' = m) as -> by (by apply (pat_unique m' m q' q)).
      apply str_app_inv_head in Hmq as ->. by rewrite (IH r').
Qed.

End Leftmost.

(** *** [str.replace] *)

Lemma has_match_eq (k s : string) : has_match (eq k) s ↔ occurs k s.
Proof.
  split.
  - intros (p & t & -> & m & q & <- & ->). by exists p, q.
  - intros (p & q & ->). exists p, (k +:+ q). split; [done |]. by exists k, q.
Qed.

Lemma match_at_head_eq (k s : string) : match_at_head (eq k) s ↔ starts_with s k.
Proof.
  split.
  - intros (m & q & <- & ->). by exists q.
  - intros (q & ->). by exists k, q.
Qed.

Lemma replace_from_skip (old new p q : string) :
  replace_from old new (String.length p) (p +:+ q) = replace_from old new 0 q.
Proof. induction p as [|c p IH]; simpl; done. Qed.

Lemma replace_nil (old new : string) : old ≠ "" → replace "" old new = "".
Proof. by destruct old. Qed.

Lemma replace_match (old new q : string) :
  old ≠ "" → replace (old +:+ q) old new = new +:+ replace q old new.
Proof.
  destruct old as [|a k]; [done | intros _].
  unfold replace. change (String a k +:+ q) with (String a (k +:+ q)).
  cbn [replace_from].
  assert (String.prefix (String a k) (String a (k +:+ q)) = true) as ->.
  { apply prefix_spec. by exists q. }
  f_equal. cbn [String.length]. rewrite Nat.sub_1_r. cbn [Nat.pred].
  apply replace_from_skip.
Qed.

Lemma replace_copy (old new : string) (c : ascii) (s : string) :
  old ≠ "" → ¬ starts_with (String c s) old →
  replace (String c s) old new = String c (replace s old new).
Proof.
  destruct old as [|a k]; [done | intros _ Hno].
  unfold replace. cbn [replace_from].
  destruct (String.prefix (String a k) (String c s)) eqn:Hp; [| done].
  apply prefix_spec in Hp. done.
Qed.

(** [s.replace(old, new)] replaces the occurrences of [old] found by a scan
    from the left, each by [new], and nothing else. *)
Lemma replace_spec (old new s : string) :
  old ≠ "" → replaced_all (eq old) new s (replace s old new).
Proof.
  intros Hne.
  apply (scan_replaced_all (eq old) new (λ t, replace t old new)).
  - by intros m <-.
  - intros t. rewrite match_at_head_eq, <- prefix_spec.
    destruct (String.prefix old t); [by left | by right].
  - by apply replace_nil.
  - intros m q <-. by apply replace_match.
  - intros c t Hno. apply replace_copy; [done |]. by rewrite <- match_at_head_eq.
Qed.

(** And [replaced_all] has no other result. *)
Lemma replace_unique (old new s r : string) :
  old ≠ "" → replaced_all (eq old) new s r → r = replace s old new.
Proof.
  intros Hne Hr.
  apply (replaced_all_functional (eq old) new) with (s := s);
    [| done | by apply replace_spec].
  by intros m1 m2 q1 q2 <- <-.
Qed.

(** A token that does not occur leaves the text as it is. *)
Lemma replace_absent (old new s : string) :
  ¬ occurs old s → replace s old new = s.
Proof.
  intros Hno.
  assert (old ≠ "") as Hne.
  { intros ->. apply Hno. by exists "", s. }
  induction s as [|c s IH].
  - by apply replace_nil.
  - rewrite replace_copy; [| done |].
    + f_equal. apply IH. intros (p & q & ->). apply Hno. by exists (String c p), q.
    + intros (q & Hq). apply Hno. exists "", q. done.
Qed.

(** *** [re.sub] of the placeholder pattern *)

Lemma has_match_placeholder (s : string) :
  has_match placeholder s ↔ has_placeholder s.
Proof.
  split.
  - intros (p & t & -> & m & q & Hm & ->). by exists p, m, q.
  - intros (p & m & q & -> & Hm). exists p, (m +:+ q). split; [done |]. by exists m, q.
Qed.

Lemma span_word_app (w rest : string) :
  all_word w = true → span_word rest = 0 →
  span_word (w +:+ rest) = String.length w.
Proof.
  intros Hw Hr. induction w as [|c w IH]; simpl in *; [done |].
  apply andb_prop in Hw as [-> Hw]. by rewrite IH.
Qed.

Lemma get_app_length (w rest : string) :
  String.get (String.length w) (w +:+ rest) = String.get 0 rest.
Proof. induction w as [|c w IH]; simpl; done. Qed.

(** The text splits after its leading run of word characters. *)
Lemma span_word_split (r : string) :
  ∃ w rest, r = w +:+ rest ∧ all_word w = true
            ∧ String.length w = span_word r.
Proof.
  induction r as [|c r (w & rest & -> & Hw & Hl)]; simpl.
  - by exists "", "".
  - destruct (is_word c) eqn:Hc.
    + exists (String c w), rest. simpl. rewrite Hc, Hw, Hl. done.
    + by exists "", (String c (w +:+ rest)).
Qed.

Lemma match_placeholder_sound (s : string) (n : nat) :
  match_placeholder s = Some n →
  ∃ m q, placeholder m ∧ s = m +:+ q ∧ String.length m = n.
Proof.
  destruct s as [|c r]; [done |]. unfold match_placeholder.
  destruct (span_word_split r) as (w & rest & -> & Hw & Hl).
  rewrite <- Hl, get_app_length.
  destruct rest as [|c' rest]; [done |]. cbn [String.get].
  destruct (Ascii.eqb c "@") eqn:Hc; [| done].
  destruct (Nat.ltb 0 (String.length w)) eqn:Hlen; [| done].
  destruct (Ascii.eqb c' "@") eqn:Hc'; [| done].
  apply Ascii.eqb_eq in Hc as ->. apply Ascii.eqb_eq in Hc' as ->.
  apply Nat.ltb_lt in Hlen. simpl. intros [= <-].
  exists (String "@" (w +:+ "@")), rest. split; [| split].
  - exists w. split; [done |]. split; [| done]. by destruct w; [simpl in Hlen; lia |].
  - simpl. by rewrite str_app_assoc.
  - simpl. rewrite str_length_app. simpl. lia.
Qed.

Lemma match_placeholder_complete (m q : string) :
  placeholder m → match_placeholder (m +:+ q) = Some (String.length m).
Proof.
  intros (w & -> & Hne & Hw). simpl. rewrite str_app_assoc.
  unfold match_placeholder.
  rewrite (span_word_app w ("@" +:+ q) Hw eq_refl), get_app_length.
  simpl. destruct w as [|c w]; [done |]. simpl.
  rewrite str_length_app. simpl. do 2 f_equal. lia.
Qed.

Lemma match_at_head_placeholder (s : string) :
  match_at_head placeholder s ↔ is_Some (match_placeholder s).
Proof.
  split.
  - intros (m & q & Hm & ->). rewrite match_placeholder_complete; eauto.
  - intros [n Hn]. apply match_placeholder_sound in Hn as (m & q & Hm & -> & _).
    by exists m, q.
Qed.

Lemma sub_from_skip (repl p q : string) :
  sub_from repl (String.length p) (p +:+ q) = sub_from repl 0 q.
Proof. induction p as [|c p IH]; simpl; done. Qed.

Lemma placeholder_nonempty (m : string) : placeholder m → m ≠ "".
Proof. by intros (w & -> & _). Qed.

Lemma re_sub_match (repl m q : string) :
  placeholder m →
  re_sub_placeholder repl (m +:+ q) = repl +:+ re_sub_placeholder repl q.
Proof.
  intros Hm. unfold re_sub_placeholder.
  pose proof (match_placeholder_complete m q Hm) as Hmatch.
  destruct m as [|c m]; [by apply placeholder_nonempty in Hm |].
  change (String c m +:+ q) with (String c (m +:+ q)) in *.
  cbn [sub_from]. rewrite Hmatch. f_equal.
  cbn [String.length]. rewrite Nat.sub_1_r. cbn [Nat.pred].
  apply sub_from_skip.
Qed.

Lemma re_sub_copy (repl : string) (c : ascii) (s : string) :
  match_placeholder (String c s) = None →
  re_sub_placeholder repl (String c s) = String c (re_sub_placeholder repl s).
Proof. intros Hno. unfold re_sub_placeholder. cbn [sub_from]. by rewrite Hno. Qed.

(** [re.sub] replaces the placeholders found by a scan from the left. *)
Lemma re_sub_spec (repl s : string) :
  replaced_all placeholder repl s (re_sub_placeholder repl s).
Proof.
  apply (scan_replaced_all placeholder repl (re_sub_placeholder repl)).
  - apply placeholder_nonempty.
  - intros t. rewrite match_at_head_placeholder.
    destruct (match_placeholder t); [left; eauto | right; by intros [? ?]].
  - done.
  - intros m q. apply re_sub_match.
  - intros c t Hno. apply re_sub_copy.
    rewrite match_at_head_placeholder in Hno.
    destruct (match_placeholder (String c t)); [exfalso; eauto | done].
Qed.

Lemma placeholder_unique (m1 m2 q1 q2 : string) :
  placeholder m1 → placeholder m2 → m1 +:+ q1 = m2 +:+ q2 → m1 = m2.
Proof.
  intros H1 H2 Heq. apply (str_app_inv_length m1 q1 m2 q2); [| done].
  apply (match_placeholder_complete m1 q1) in H1.
  apply (match_placeholder_complete m2 q2) in H2. congruence.
Qed.

Lemma re_sub_unique (repl s r : string) :
  replaced_all placeholder repl s r → r = re_sub_placeholder repl s.
Proof.
  intros Hr.
  apply (replaced_all_functional placeholder repl) with (s := s);
    [| done | apply re_sub_spec].
  apply placeholder_unique.
Qed.

(** Matches that share an at-sign: the scan takes the first and resumes
    after it. *)
Example re_sub_overlap : re_sub_placeholder "0" "@A@B@" = "0B@".
Proof. reflexivity. Qed.

Example replace_overlap : replace "aaa" "aa" "b" = "ba".
Proof. reflexivity. Qed.

(** *** Adjacent at-signs *)

Lemma has_at_spec (s : string) : has_at s = true ↔ occurs "@" s.
Proof.
  induction s as [|c s IH]; simpl.
  - split; [done | intros ([|? ?] & q & [=])].
  - rewrite orb_true_iff, IH. unfold is_at. rewrite Ascii.eqb_eq. split.
    + intros [-> | (p & q & ->)]; [by exists "", s | by exists (String c p), q].
    + intros ([|c' p] & q & Hs); simpl in Hs; injection Hs as -> ->; [by left |].
      right. by exists p, q.
Qed.

Lemma dbl_at_spec (s : string) : dbl_at s = true ↔ occurs "@@" s.
Proof.
  induction s as [|c s IH]; simpl.
  - split; [done | intros ([|? ?] & q & [=])].
  - rewrite orb_true_iff, andb_true_iff, IH. unfold is_at. split.
    + intros [[Hc Hs] | (p & q & ->)]; [| by exists (String c p), q].
      destruct s as [|c' s]; [done |]. simpl in Hs. unfold is_at in Hs.
      apply Ascii.eqb_eq in Hc as ->. apply Ascii.eqb_eq in Hs as ->.
      by exists "", s.
    + intros ([|c' p] & q & Hs); simpl in Hs; injection Hs as -> ->.
      * by left.
      * right. by exists p, q.
Qed.

Lemma head_at_app (a b : string) :
  head_at (a +:+ b) = match a with EmptyString => head_at b | _ => head_at a end.
Proof. by destruct a. Qed.

Lemma dbl_at_app (a b : string) :
  dbl_at (a +:+ b) = dbl_at a || dbl_at b || (last_at a && head_at b).
Proof.
  induction a as [|c a IH]; [simpl; by rewrite orb_false_r |].
  change (String c a +:+ b) with (String c (a +:+ b)).
  cbn [dbl_at last_at]. rewrite IH, head_at_app.
  destruct a as [|c' a].
  - simpl. destruct (is_at c), (dbl_at b), (head_at b); done.
  - destruct (is_at c), (head_at (String c' a)), (dbl_at (String c' a)),
      (dbl_at b), (last_at (String c' a)), (head_at b); done.
Qed.

Lemma has_at_false_head (s : string) : has_at s = false → head_at s = false.
Proof. destruct s; simpl; [done |]. by intros [-> _]%orb_false_elim. Qed.

Lemma has_at_false_last (s : string) : has_at s = false → last_at s = false.
Proof.
  induction s as [|c s IH]; [done |]. simpl.
  intros [Hc Hs]%orb_false_elim. destruct s; [done | by apply IH].
Qed.

Lemma has_at_false_dbl (s : string) : has_at s = false → dbl_at s = false.
Proof.
  induction s as [|c s IH]; [done |]. simpl.
  intros [-> Hs]%orb_false_elim. by rewrite IH.
Qed.

(** Putting a non-empty text without at-sign between two texts makes no
    new pair of adjacent at-signs. *)
Lemma dbl_at_insert (p v r : string) :
  v ≠ "" → has_at v = false → dbl_at p = false → dbl_at r = false →
  dbl_at (p +:+ v +:+ r) = false.
Proof.
  intros Hne Hv Hp Hr. rewrite !dbl_at_app, !head_at_app, Hp, Hr.
  rewrite (has_at_false_dbl v), (has_at_false_last v) by done.
  destruct v as [|a v]; [done |].
  rewrite (has_at_false_head (String a v)) by done.
  by rewrite andb_false_r.
Qed.

Lemma replaced_eq_dbl_at (old new s r : string) :
  new ≠ "" → has_at new = false →
  replaced_all (eq old) new s r → dbl_at s = false → dbl_at r = false.
Proof.
  intros Hne Hnew Hr. induction Hr as [s _ | p m q r _ _ _ IH]; [done |].
  intros Hs. rewrite !dbl_at_app in Hs.
  apply orb_false_elim in Hs as [[Hp Hq]%orb_false_elim _].
  apply orb_false_elim in Hq as [[_ Hq]%orb_false_elim _].
  apply dbl_at_insert; auto.
Qed.

Lemma replace_empty_head (new s : string) :
  new ≠ "" → has_at new = false → head_at (replace_empty new s) = false.
Proof.
  intros Hne Hnew. destruct s; simpl; [by apply has_at_false_head |].
  rewrite head_at_app. destruct new; [done | by apply has_at_false_head].
Qed.

Lemma replace_empty_dbl_at (new s : string) :
  new ≠ "" → has_at new = false → dbl_at (replace_empty new s) = false.
Proof.
  intros Hne Hnew. induction s as [|c s IH]; simpl.
  - by apply has_at_false_dbl.
  - rewrite dbl_at_app. simpl.
    rewrite (has_at_false_dbl new), (has_at_false_last new), IH,
      replace_empty_head by done.
    by rewrite andb_false_r.
Qed.

(** [replace] with a non-empty value without at-sign keeps a text free of
    adjacent at-signs. *)
Lemma replace_dbl_at (s old new : string) :
  new ≠ "" → has_at new = false →
  dbl_at s = false → dbl_at (replace s old new) = false.
Proof.
  intros Hne Hnew Hs. destruct old as [|a k] eqn:Hold.
  - by apply replace_empty_dbl_at.
  - rewrite <- Hold. apply (replaced_eq_dbl_at old new s); [done | done | | done].
    apply replace_spec. by subst.
Qed.

(** *** No placeholder is left when no two at-signs are adjacent *)

Lemma match_placeholder_not_at (c : ascii) (s : string) :
  is_at c = false → match_placeholder (String c s) = None.
Proof.
  unfold is_at, match_placeholder. intros ->.
  by destruct (String.get (span_word s) s).
Qed.

Lemma span_word_le (s : string) : span_word s ≤ String.length s.
Proof. induction s as [|c s IH]; simpl; [done |]. destruct (is_word c); lia. Qed.

Lemma span_word_short (p x : string) :
  span_word p < String.length p →
  span_word (p +:+ x) = span_word p
  ∧ String.get (span_word p) (p +:+ x) = String.get (span_word p) p.
Proof.
  induction p as [|c p IH]; simpl; [lia |].
  destruct (is_word c); [| done]. intros Hlt.
  destruct IH as [-> ->]; [lia | done].
Qed.

Lemma match_placeholder_short (c : ascii) (p x : string) :
  span_word p < String.length p →
  match_placeholder (String c (p +:+ x)) = match_placeholder (String c p).
Proof.
  intros Hlt. unfold match_placeholder.
  by destruct (span_word_short p x Hlt) as [-> ->].
Qed.

Lemma span_word_full (p : string) :
  span_word p = String.length p → all_word p = true.
Proof.
  induction p as [|c p IH]; simpl; [done |].
  destruct (is_word c); [| done]. intros [= H]. by apply IH.
Qed.

Lemma no_match_at_free (v r : string) :
  has_at v = false → ¬ has_match placeholder r →
  ¬ has_match placeholder (v +:+ r).
Proof.
  intros Hv Hr. induction v as [|c v IH]; [done |].
  simpl in Hv. apply orb_false_elim in Hv as [Hc Hv].
  change (String c v +:+ r) with (String c (v +:+ r)).
  rewrite has_match_cons, match_at_head_placeholder.
  rewrite match_placeholder_not_at by done.
  intros [[? [=]] | H]. by apply IH.
Qed.

Lemma replaced_placeholder_step (repl p m q r : string) :
  has_at repl = false → placeholder m →
  none_before placeholder p (m +:+ q) →
  dbl_at (p +:+ m +:+ q) = false →
  ¬ has_match placeholder r →
  ¬ has_match placeholder (p +:+ repl +:+ r).
Proof.
  intros Hrepl Hm Hp Hdbl Hr. induction p as [|c p IH].
  - by apply (no_match_at_free repl r).
  - change (String c p +:+ repl +:+ r) with (String c (p +:+ repl +:+ r)).
    change (String c p +:+ m +:+ q) with (String c (p +:+ m +:+ q)) in Hdbl.
    cbn [dbl_at] in Hdbl. apply orb_false_elim in Hdbl as [Hc Hdbl].
    rewrite has_match_cons. intros [Hhead | Htail].
    + assert (match_placeholder (String c (p +:+ m +:+ q)) = None) as Hnone.
      { destruct (match_placeholder (String c (p +:+ m +:+ q))) eqn:E; [| done].
        exfalso. apply (Hp "" (String c p)); [done | done |].
        apply match_at_head_placeholder.
        change (String c p +:+ m +:+ q) with (String c (p +:+ m +:+ q)). eauto. }
      apply match_at_head_placeholder in Hhead as [n Hn].
      destruct (is_at c) eqn:Hat;
        [| by rewrite match_placeholder_not_at in Hn].
      destruct (decide (span_word p < String.length p)) as [Hlt | Hge].
      * rewrite match_placeholder_short in Hn by done.
        rewrite match_placeholder_short in Hnone by done. congruence.
      * pose proof (span_word_le p) as Hle.
        assert (all_word p = true) as Hw by (apply span_word_full; lia).
        destruct Hm as (w & -> & Hwne & Hww).
        destruct p as [|c' p].
        -- done.
        -- assert (placeholder (String c (String c' p +:+ "@"))) as Hph.
           { exists (String c' p). unfold is_at in Hat.
             apply Ascii.eqb_eq in Hat as ->. done. }
           pose proof (match_placeholder_complete _
                         ((w +:+ "@") +:+ q) Hph) as Hsome.
           replace (String c (String c' p +:+ "@") +:+ (w +:+ "@") +:+ q)
             with (String c (String c' p +:+ String "@" (w +:+ "@") +:+ q))
             in Hsome; [congruence |].
           simpl. by rewrite !str_app_assoc.
    + revert Htail. apply IH; [| done].
      intros p1 p2 Heq Hne. apply (Hp (String c p1) p2); [by subst | done].
Qed.

Lemma replaced_placeholder_none (repl s r : string) :
  has_at repl = false →
  replaced_all placeholder repl s r → dbl_at s = false →
  ¬ has_match placeholder r.
Proof.
  intros Hrepl Hr. induction Hr as [s Hno | p m q r Hm Hp _ IH]; [done |].
  intros Hs. apply replaced_placeholder_step with (m := m) (q := q); try done.
  apply IH. rewrite !dbl_at_app in Hs.
  apply orb_false_elim in Hs as [[_ Hs]%orb_false_elim _].
  by apply orb_false_elim in Hs as [[_ Hs]%orb_false_elim _].
Qed.

(** When the text holds no two adjacent at-signs and the replacement holds
    no at-sign, the result of [re.sub] holds no placeholder. *)
Lemma re_sub_no_placeholder (repl s : string) :
  has_at repl = false → dbl_at s = false →
  ¬ has_placeholder (re_sub_placeholder repl s).
Proof.
  intros Hrepl Hs. rewrite <- has_match_placeholder.
  apply (replaced_placeholder_none repl s); [done | apply re_sub_spec | done].
Qed.

End StrFacts.

(** * Facts about the file system *)

Module FSFacts.
Import FS.

Lemma child_of_spec (d p : path) (f : string) :
  child_of d p = Some f ↔ p = d ++ [f].
Proof.
  revert p. induction d as [|x d IH]; intros [|y p]; simpl.
  - done.
  - destruct p; [split; congruence | done].
  - split; [done |]. intros H. by destruct d.
  - destruct (String.eqb_spec x y) as [-> | Hne].
    + rewrite IH. split; congruence.
    + split; [done | congruence].
Qed.

Lemma listdir_spec (fs : filesystem) (d : path) (f : string) :
  f ∈ listdir fs d ↔ is_Some (fs !! (d ++ [f])).
Proof.
  unfold listdir. rewrite list_elem_of_omap. split.
  - intros ([p x] & Hin & Hc). apply elem_of_map_to_list in Hin.
    apply child_of_spec in Hc. simpl in Hc. subst. eauto.
  - intros [x Hx]. exists (d ++ [f], x). split.
    + by apply elem_of_map_to_list.
    + by apply child_of_spec.
Qed.

Lemma NoDup_omap_inj {A B : Type} (f : A → option B) (l : list A) :
  (∀ x y z, x ∈ l → y ∈ l → f x = Some z → f y = Some z → x = y) →
  NoDup l → NoDup (omap f l).
Proof.
  intros Hinj Hl. induction Hl as [|x l Hx Hl IH]; simpl; [constructor |].
  assert (NoDup (omap f l)) as IH'.
  { apply IH. intros y1 y2 z H1 H2. apply Hinj; by right. }
  destruct (f x) as [z|] eqn:Hz; [| done].
  constructor; [| done]. rewrite list_elem_of_omap. intros (y & Hy & Hfy).
  rewrite (Hinj x y z) in Hx; [done | by left | by right | done | done].
Qed.

(** A directory lists each name once. *)
Lemma NoDup_listdir (fs : filesystem) (d : path) : NoDup (listdir fs d).
Proof.
  unfold listdir. apply NoDup_omap_inj; [| apply NoDup_map_to_list].
  intros [p x] [q y] f Hp%elem_of_map_to_list Hq%elem_of_map_to_list.
  simpl. intros Hcp%child_of_spec Hcq%child_of_spec. subst. congruence.
Qed.

Lemma parent_snoc (d : path) (f : string) : parent (d ++ [f]) = d.
Proof.
  unfold parent. rewrite length_app. simpl.
  replace (length d + 1 - 1) with (length d) by lia.
  by rewrite take_app_length.
Qed.

Lemma snoc_not_nil (d : path) (f : string) : d ++ [f] ≠ [].
Proof. by destruct d. Qed.

Lemma node_at_snoc (fs : filesystem) (d : path) (f : string) :
  node_at fs (d ++ [f]) = fs !! (d ++ [f]).
Proof. unfold node_at. by destruct d. Qed.

Lemma write_file_inr (fs fs' : filesystem) (p : path) (c : string) :
  write_file fs p c = inr fs' →
  fs' = <[p := File c]> fs ∧ isdir fs (parent p) = true ∧ fs !! p ≠ Some Dir.
Proof.
  unfold write_file. destruct p as [|x p]; [done |].
  destruct (isdir fs (parent (x :: p))) eqn:Hd; [| done].
  destruct (fs !! (x :: p)) as [[c'|]|] eqn:Hp; [| done |];
    intros [= <-]; by repeat split.
Qed.

Lemma write_file_ok (fs : filesystem) (d : path) (f c : string) :
  isdir fs d = true → fs !! (d ++ [f]) ≠ Some Dir →
  write_file fs (d ++ [f]) c = inr (<[d ++ [f] := File c]> fs).
Proof.
  intros Hd Hf. unfold write_file. pose proof (snoc_not_nil d f) as Hne.
  destruct (d ++ [f]) as [|x p] eqn:Hp; [done |].
  rewrite <- Hp in *. rewrite parent_snoc, Hd.
  destruct (fs !! (d ++ [f])) as [[c'|]|]; congruence.
Qed.

(** Writing a regular file changes no answer of [os.path.isdir]. *)
Lemma isdir_insert_file (fs : filesystem) (p q : path) (c : string) :
  fs !! p ≠ Some Dir → isdir (<[p := File c]> fs) q = isdir fs q.
Proof.
  intros Hp. unfold isdir, node_at. destruct q as [|y q]; [done |].
  destruct (decide (p = y :: q)) as [-> | Hne].
  - rewrite lookup_insert_eq. by destruct (fs !! (y :: q)) as [[c'|]|].
  - by rewrite lookup_insert_ne.
Qed.

Lemma exists_insert (fs : filesystem) (p q : path) (x : node) :
  exists_ (<[p := x]> fs) q = bool_decide (p = q) || exists_ fs q.
Proof.
  unfold exists_, node_at. destruct q as [|y q]; [by rewrite orb_true_r |].
  case_bool_decide as Hpq.
  - subst. by rewrite lookup_insert_eq.
  - by rewrite lookup_insert_ne.
Qed.

Lemma listdir_insert (fs : filesystem) (p d : path) (x : node) (f : string) :
  f ∈ listdir (<[p := x]> fs) d ↔ p = d ++ [f] ∨ f ∈ listdir fs d.
Proof.
  rewrite !listdir_spec. destruct (decide (p = d ++ [f])) as [-> | Hne].
  - rewrite lookup_insert_eq. split; eauto.
  - rewrite lookup_insert_ne by done. split; [by right | by intros [? | ?]].
Qed.

(** What [os.makedirs] leaves: the nodes that were there are unchanged,
    nothing changes below the new directory, and the directory exists. *)
Lemma makedirs_from_inr (fs fs' : filesystem) (above rest : path) :
  makedirs_from fs above rest = inr fs' →
  (∀ q x, fs !! q = Some x → fs' !! q = Some x)
  ∧ (∀ q, length (above ++ rest) < length q → fs' !! q = fs !! q)
  ∧ (isdir fs above = true → isdir fs' (above ++ rest) = true).
Proof.
  revert fs above. induction rest as [|c rest IH]; intros fs above; simpl.
  - intros [= <-]. by rewrite app_nil_r.
  - replace (above ++ c :: rest) with ((above ++ [c]) ++ rest)
      by (by rewrite <- app_assoc).
    destruct (fs !! (above ++ [c])) as [[c'|]|] eqn:Hq; [done | |].
    + intros (Ha & Hb & Hc)%IH. split; [done |]. split; [done |].
      intros _. apply Hc. unfold isdir. by rewrite node_at_snoc, Hq.
    + intros (Ha & Hb & Hc)%IH. split; [| split].
      * intros q x Hx. apply Ha. rewrite lookup_insert_ne; [done |].
        intros <-. congruence.
      * intros q Hlen. rewrite Hb by done. rewrite lookup_insert_ne; [done |].
        intros <-. rewrite !length_app in Hlen. simpl in Hlen. lia.
      * intros _. apply Hc. unfold isdir.
        by rewrite node_at_snoc, lookup_insert_eq.
Qed.

Lemma makedirs_inr (fs fs' : filesystem) (p : path) :
  makedirs fs p = inr fs' →
  (∀ q x, fs !! q = Some x → fs' !! q = Some x)
  ∧ (∀ q, length p < length q → fs' !! q = fs !! q)
  ∧ isdir fs' p = true.
Proof.
  intros (Ha & Hb & Hc)%makedirs_from_inr. split; [done |]. split; [done |].
  by apply Hc.
Qed.

(** [os.makedirs] on a directory that exists changes nothing. *)
Lemma makedirs_from_exists (fs : filesystem) (above rest : path) :
  (∀ k, 0 < k ≤ length rest → fs !! (above ++ take k rest) = Some Dir) →
  makedirs_from fs above rest = inr fs.
Proof.
  revert above. induction rest as [|c rest IH]; intros above Hall; simpl; [done |].
  pose proof (Hall 1 ltac:(simpl; lia)) as H1.
  change (take 1 (c :: rest)) with [c] in H1. rewrite H1.
  apply IH. intros k Hk. rewrite <- app_assoc. apply (Hall (S k)). simpl. lia.
Qed.

End FSFacts.

(** * Facts about the extraction *)

Module ExtractFacts.
Import FS FSFacts StrSpec StrFacts.

Lemma bind_ok {A B : Type} (m : M A) (f : A → M B) (w w' : world) (a : A) :
  m w = (Ok a, w') → (m ≫= f) w = f a w'.
Proof. unfold mbind, M_bind. by intros ->. Qed.

Lemma bind_inv_ok {A B : Type} (m : M A) (f : A → M B) (w w' : world) (b : B) :
  (m ≫= f) w = (Ok b, w') → ∃ a w1, m w = (Ok a, w1) ∧ f a w1 = (Ok b, w').
Proof.
  unfold mbind, M_bind. destruct (m w) as [[a | n | e] w1]; [eauto | done | done].
Qed.

Lemma update_fs_inv (f : filesystem → exn + filesystem) (w w' : world) (u : unit) :
  update_fs f w = (Ok u, w') → ∃ fs', f (fs w) = inr fs' ∧ w' = set_fs w fs'.
Proof.
  unfold update_fs. destruct (f (fs w)) as [e | fs']; [done |].
  intros [= <-]. eauto.
Qed.

Lemma zip_open_namelist (zf : archive) (name : string) :
  name ∈ Zip.namelist zf → is_Some (Zip.open zf name).
Proof.
  induction zf as [|[n c] zf IH]; simpl; [by intros ?%elem_of_nil |].
  intros [-> | Hin]%elem_of_cons.
  - destruct (Zip.open zf n); [eauto |]. rewrite String.eqb_refl. eauto.
  - destruct (IH Hin) as [c' ->]. eauto.
Qed.

Section Extract.

Variable zf : archive.
Variable lib : string.
Variable dest : path.

Lemma extract_members_cons_inv (m : string) (rest : list string)
    (n n' : nat) (w w' : world) :
  extract_members zf lib dest (m :: rest) n w = (Ok n', w') →
  (member_wanted lib m = false
   ∧ extract_members zf lib dest rest n w = (Ok n', w'))
  ∨ (member_wanted lib m = true
     ∧ ∃ c, Zip.open zf m = Some c
            ∧ isdir (fs w) dest = true
            ∧ fs w !! (dest ++ [basename m]) ≠ Some Dir
            ∧ extract_members zf lib dest rest (S n)
                (set_fs w (<[dest ++ [basename m] := File c]> (fs w)))
              = (Ok n', w')).
Proof.
  cbn [extract_members]. destruct (member_wanted lib m); [| by left].
  destruct (Zip.open zf m) as [c|]; [| done].
  intros (u & w1 & (fs' & Hw & ->)%update_fs_inv & Hrest)%bind_inv_ok.
  apply write_file_inr in Hw as (-> & Hd & Hf). rewrite parent_snoc in Hd.
  right. split; [done |]. exists c. done.
Qed.

(** What a completed run of the loop leaves. *)
Lemma extract_members_inv (members : list string) (n n' : nat) (w w' : world) :
  extract_members zf lib dest members n w = (Ok n', w') →
  fetched w' = fetched w ∧ report w' = report w
  ∧ n' = n + length (List.filter (member_wanted lib) members)
  ∧ (∀ q, isdir (fs w') q = isdir (fs w) q)
  ∧ (∀ q, (∀ m, m ∈ members → member_wanted lib m = true →
             q ≠ dest ++ [basename m]) →
          fs w' !! q = fs w !! q)
  ∧ (∀ m, m ∈ members → member_wanted lib m = true →
          ∃ c, fs w' !! (dest ++ [basename m]) = Some (File c)).
Proof.
  revert n w. induction members as [|m rest IH]; intros n w.
  - intros [= <- <-]. repeat split; try done.
    by intros m ?%elem_of_nil.
  - intros [[Hm Hrest] | (Hm & c & Hc & Hd & Hf & Hrest)]%extract_members_cons_inv.
    + apply IH in Hrest as (H1 & H2 & H3 & H4 & H5 & H6).
      split; [done |]. split; [done |]. split; [by simpl; rewrite Hm |].
      split; [done |]. split.
      * intros q Hq. apply H5. intros m' Hin. apply Hq. by right.
      * intros m' [-> | Hin]%elem_of_cons Hm'; [congruence | by apply H6].
    + apply IH in Hrest as (H1 & H2 & H3 & H4 & H5 & H6). simpl in *.
      split; [done |]. split; [done |]. split; [rewrite Hm; simpl; lia |].
      split; [| split].
      * intros q. rewrite H4. by apply isdir_insert_file.
      * intros q Hq. rewrite H5.
        -- rewrite lookup_insert_ne; [done |]. intros <-.
           apply (Hq m); [by left | done | done].
        -- intros m' Hin. apply Hq. by right.
      * intros m' [-> | Hin]%elem_of_cons Hm'; [| by apply H6].
        destruct (decide (Exists (λ m', member_wanted lib m' = true
                                        ∧ basename m' = basename m) rest))
          as [(m' & Hin & Hw & Hb)%Exists_exists | Hnone].
        -- rewrite <- Hb. by apply H6.
        -- exists c. rewrite H5; [by rewrite lookup_insert_eq |].
           intros m' Hin Hw Heq%app_inv_head. injection Heq as Heq.
           apply Hnone, Exists_exists. eauto.
Qed.

(** The last wanted member of a name decides the content of the file. *)
Lemma extract_members_last (l l3 : list string) (m c : string)
    (n n' : nat) (w w' : world) :
  extract_members zf lib dest (l ++ m :: l3) n w = (Ok n', w') →
  member_wanted lib m = true → Zip.open zf m = Some c →
  (∀ m', m' ∈ l3 → member_wanted lib m' = true → basename m' ≠ basename m) →
  fs w' !! (dest ++ [basename m]) = Some (File c).
Proof.
  intros Hrun Hm Hc Hl3. revert n w Hrun.
  induction l as [|x l IH]; intros n w; simpl.
  - intros [[Hno _] | (_ & c' & Hc' & _ & _ & Hrest)]%extract_members_cons_inv;
      [congruence |].
    apply extract_members_inv in Hrest as (_ & _ & _ & _ & Hframe & _).
    rewrite Hframe; simpl.
    + rewrite lookup_insert_eq. congruence.
    + intros m' Hin Hw Heq%app_inv_head. injection Heq as Heq.
      by apply (Hl3 m').
  - intros [[_ Hrest] | (_ & c' & _ & _ & _ & Hrest)]%extract_members_cons_inv;
      by apply IH in Hrest.
Qed.

(** The loop completes when the destination is a directory, no target is
    a directory and every member can be opened. *)
Lemma extract_members_total (members : list string) (n : nat) (w : world) :
  isdir (fs w) dest = true →
  (∀ m, m ∈ members → member_wanted lib m = true →
        fs w !! (dest ++ [basename m]) ≠ Some Dir ∧ is_Some (Zip.open zf m)) →
  ∃ n' w', extract_members zf lib dest members n w = (Ok n', w').
Proof.
  revert n w. induction members as [|m rest IH]; intros n w Hd Hall.
  - by exists n, w.
  - cbn [extract_members]. destruct (member_wanted lib m) eqn:Hm.
    + destruct (Hall m) as [Hf [c Hc]]; [by left | done |]. rewrite Hc.
      erewrite bind_ok; last first.
      { unfold update_fs. by rewrite write_file_ok. }
      apply IH; simpl.
      * by rewrite isdir_insert_file.
      * intros m' Hin Hm'. destruct (Hall m') as [Hf' Ho]; [by right | done |].
        split; [| done].
        destruct (decide (dest ++ [basename m] = dest ++ [basename m']))
          as [<- | Hne].
        -- by rewrite lookup_insert_eq.
        -- by rewrite lookup_insert_ne.
    + apply IH; [done |]. intros m' Hin. apply Hall. by right.
Qed.

End Extract.

Section ExtractLib.

Variable ZipFile : string → option archive.

Lemma extract_lib_sources_inv (zip_data lib : string) (dest : path)
    (n : nat) (w w' : world) :
  extract_lib_sources ZipFile zip_data lib dest w = (Ok n, w') →
  ∃ fs1 zf,
    makedirs (fs w) dest = inr fs1 ∧ ZipFile zip_data = Some zf
    ∧ extract_members zf lib dest (Zip.namelist zf) 0 (set_fs w fs1) = (Ok n, w').
Proof.
  unfold extract_lib_sources.
  intros (u & w1 & (fs1 & Hmk & ->)%update_fs_inv & Hrest)%bind_inv_ok.
  destruct (ZipFile zip_data) as [zf|]; [| done]. eauto.
Qed.

(** After a completed extraction the destination lists what it listed
    before and the final components of the wanted members. *)
Lemma extract_lib_sources_listdir (zip_data lib : string) (dest : path)
    (zf : archive) (n : nat) (w w' : world) :
  ZipFile zip_data = Some zf →
  extract_lib_sources ZipFile zip_data lib dest w = (Ok n, w') →
  n = length (List.filter (member_wanted lib) (Zip.namelist zf))
  ∧ ∀ f, f ∈ listdir (fs w') dest
         ↔ f ∈ listdir (fs w) dest
           ∨ ∃ m, m ∈ Zip.namelist zf ∧ member_wanted lib m = true
                  ∧ basename m = f.
Proof.
  intros Hzf (fs1 & zf' & Hmk & Hzf' & Hrun)%extract_lib_sources_inv.
  assert (zf' = zf) as -> by congruence.
  apply makedirs_inr in Hmk as (_ & Hbelow & _).
  apply extract_members_inv in Hrun as (_ & _ & Hn & _ & Hframe & Hwritten).
  split; [done |]. intros f. rewrite !listdir_spec.
  rewrite <- (Hbelow (dest ++ [f])) by (rewrite length_app; simpl; lia).
  destruct (decide (Exists (λ m, member_wanted lib m = true ∧ basename m = f)
                      (Zip.namelist zf)))
    as [(m & Hin & Hw & <-)%Exists_exists | Hnone].
  - destruct (Hwritten m Hin Hw) as [c ->]. split; [| eauto]. intros _. eauto.
  - rewrite Hframe; simpl.
    + split; [by left |]. intros [? | (m & Hin & Hw & Hb)]; [done |].
      exfalso. apply Hnone, Exists_exists. eauto.
    + intros m Hin Hw Heq%app_inv_head. injection Heq as Heq.
      apply Hnone, Exists_exists. eauto.
Qed.

(** The extraction completes when the destination can be created and
    holds no directory. *)
Lemma extract_lib_sources_total (zip_data lib : string) (dest : path)
    (zf : archive) (fs1 : filesystem) (w : world) :
  ZipFile zip_data = Some zf →
  makedirs (fs w) dest = inr fs1 →
  (∀ f, fs w !! (dest ++ [f]) ≠ Some Dir) →
  ∃ n w', extract_lib_sources ZipFile zip_data lib dest w = (Ok n, w').
Proof.
  intros Hzf Hmk Hfiles. unfold extract_lib_sources.
  erewrite bind_ok; last first.
  { unfold update_fs. by rewrite Hmk. }
  rewrite Hzf. apply makedirs_inr in Hmk as (_ & Hbelow & Hdir).
  apply extract_members_total; [done |]. intros m Hin _. simpl. split.
  - rewrite Hbelow by (rewrite length_app; simpl; lia). apply Hfiles.
  - by apply zip_open_namelist.
Qed.

End ExtractLib.

End ExtractFacts.

(** * Facts about the acquisition *)

Module AcquireFacts.
Import FSFacts StrFacts ExtractFacts.

Lemma any_endswith_spec (fs : filesystem) (d : path) (suffix : string) :
  any_endswith fs d suffix = true
  ↔ ∃ f, f ∈ listdir fs d ∧ ends_with f suffix.
Proof.
  unfold any_endswith. rewrite existsb_exists.
  split; intros (f & Hin & Hf); exists f.
  - by rewrite list_elem_of_In, <- endswith_spec.
  - by rewrite <- list_elem_of_In, endswith_spec.
Qed.

(** The test of lines 156-159 decides [COMPLETE]. *)
Lemma complete_test_spec (fs : filesystem) (dest : path) :
  (if isdir fs dest && any_endswith fs dest ".c"
   then any_endswith fs dest ".h.in" else false) = true
  ↔ COMPLETE fs dest.
Proof.
  unfold COMPLETE. rewrite <- !any_endswith_spec.
  destruct (isdir fs dest), (any_endswith fs dest ".c"),
    (any_endswith fs dest ".h.in"); simpl; intuition congruence.
Qed.

Lemma extract_members_fetched (zf : archive) (lib : string) (dest : path)
    (members : list string) (n : nat) (w : world) :
  fetched (extract_members zf lib dest members n w).2 = fetched w.
Proof.
  revert n w. induction members as [|m rest IH]; intros n w; [done |].
  cbn [extract_members]. destruct (member_wanted lib m); [| apply IH].
  destruct (Zip.open zf m) as [c|]; [| done].
  unfold mbind, M_bind, update_fs.
  destruct (write_file (fs w) (dest ++ [basename m]) c) as [e | fs']; [done |].
  specialize (IH (S n) (set_fs w fs')).
  destruct (extract_members zf lib dest rest (S n) (set_fs w fs'))
    as [[a | k | e] w']; done.
Qed.

Section Acquire.

Variable urlopen : string → option string.
Variable ZipFile : string → option archive.

Lemma extract_lib_sources_fetched (zip_data lib : string) (dest : path) (w : world) :
  fetched (extract_lib_sources ZipFile zip_data lib dest w).2 = fetched w.
Proof.
  unfold extract_lib_sources, mbind, M_bind, update_fs.
  destruct (makedirs (fs w) dest) as [e | fs1]; [done |].
  destruct (ZipFile zip_data) as [zf|]; [| done].
  apply (extract_members_fetched zf lib dest _ 0 (set_fs w fs1)).
Qed.

(** A complete destination: the iteration does nothing. *)
Lemma acquire_lib_complete (root : path) (lib : string) (failed : list string)
    (w : world) :
  COMPLETE (fs w) (root ++ [lib]) →
  acquire_lib urlopen ZipFile root lib failed w = (Ok failed, w).
Proof.
  intros Hc%complete_test_spec. unfold acquire_lib, mbind, M_bind, get_fs.
  by rewrite Hc.
Qed.

(** Otherwise the iteration requests the archive of the library, once. *)
Lemma acquire_lib_incomplete (root : path) (lib : string) (failed : list string)
    (w : world) :
  ¬ COMPLETE (fs w) (root ++ [lib]) →
  fetched (acquire_lib urlopen ZipFile root lib failed w).2
  = fetched w ++ [GITHUB_ZIP_URL lib].
Proof.
  rewrite <- complete_test_spec. intros Hc%not_true_is_false.
  unfold acquire_lib. unfold mbind at 1. unfold M_bind, get_fs.
  rewrite Hc. unfold mbind at 1. unfold M_bind, download_zip.
  set (w1 := add_fetch w (GITHUB_ZIP_URL lib)).
  assert (∀ data,
            fetched ((if nonempty data
                      then n ← extract_lib_sources ZipFile data lib (root ++ [lib]);
                           if Nat.eqb n 0
                           then (mret (failed ++ [lib]) : M (list string))
                           else mret failed
                      else mret (failed ++ [lib])) w1).2
            = fetched w1) as Hrest.
  { intros data. destruct (nonempty data); [| done].
    unfold mbind, M_bind.
    pose proof (extract_lib_sources_fetched data lib (root ++ [lib]) w1) as Hf.
    destruct (extract_lib_sources ZipFile data lib (root ++ [lib]) w1)
      as [[n | k | e] w2]; [| done | done].
    by destruct (Nat.eqb n 0). }
  destruct (urlopen (GITHUB_ZIP_URL lib)) as [data|]; by rewrite Hrest.
Qed.

Lemma acquire_all_complete (root : path) (libs failed : list string) (w : world) :
  (∀ lib, lib ∈ libs → COMPLETE (fs w) (root ++ [lib])) →
  acquire urlopen ZipFile root libs failed w = (Ok failed, w).
Proof.
  induction libs as [|lib rest IH]; intros Hall; [done |].
  cbn [acquire]. erewrite bind_ok; last first.
  { apply acquire_lib_complete, Hall. by left. }
  apply IH. intros lib' Hin. apply Hall. by right.
Qed.

End Acquire.

(** *** The acquisition never removes anything *)

Lemma grows_refl (fs : filesystem) : grows fs fs.
Proof. by intros q. Qed.

Lemma grows_trans (fs1 fs2 fs3 : filesystem) :
  grows fs1 fs2 → grows fs2 fs3 → grows fs1 fs3.
Proof.
  intros H12 H23 q. destruct (H12 q) as [? ?], (H23 q) as [? ?]. split; auto.
Qed.

Lemma COMPLETE_grows (fs fs' : filesystem) (d : path) :
  grows fs fs' → COMPLETE fs d → COMPLETE fs' d.
Proof.
  intros Hg (Hd & (f & Hf & Hfc) & (g & Hg' & Hgh)).
  split; [by apply Hg |]. split.
  - exists f. split; [| done]. apply listdir_spec, Hg. by apply listdir_spec.
  - exists g. split; [| done]. apply listdir_spec, Hg. by apply listdir_spec.
Qed.

Lemma write_file_grows (fs fs' : filesystem) (p : path) (c : string) :
  write_file fs p c = inr fs' → grows fs fs'.
Proof.
  intros (-> & _ & Hp)%write_file_inr q. split.
  - by rewrite isdir_insert_file.
  - destruct (decide (p = q)) as [-> | Hne].
    + rewrite lookup_insert_eq. eauto.
    + by rewrite lookup_insert_ne.
Qed.

Lemma makedirs_grows (fs fs' : filesystem) (p : path) :
  makedirs fs p = inr fs' → grows fs fs'.
Proof.
  intros (Hkeep & _ & _)%makedirs_inr q. split.
  - unfold isdir, node_at. destruct q as [|x q]; [done |].
    destruct (fs !! (x :: q)) as [[c|]|] eqn:Hq; [done | | done].
    by rewrite (Hkeep _ _ Hq).
  - intros [x Hx]. rewrite (Hkeep _ _ Hx). eauto.
Qed.

Lemma extract_members_grows (zf : archive) (lib : string) (dest : path)
    (members : list string) (n : nat) (w : world) :
  grows (fs w) (fs (extract_members zf lib dest members n w).2).
Proof.
  revert n w. induction members as [|m rest IH]; intros n w;
    [apply grows_refl |].
  cbn [extract_members]. destruct (member_wanted lib m); [| apply IH].
  destruct (Zip.open zf m) as [c|]; [| apply grows_refl].
  unfold mbind, M_bind, update_fs.
  destruct (write_file (fs w) (dest ++ [basename m]) c) as [e | fs'] eqn:Hw;
    [apply grows_refl |].
  specialize (IH (S n) (set_fs w fs')).
  apply write_file_grows in Hw.
  destruct (extract_members zf lib dest rest (S n) (set_fs w fs'))
    as [[a | k | e] w']; by apply (grows_trans _ fs').
Qed.

Lemma str_app_inv_tail (s s' t : string) : s +:+ t = s' +:+ t → s = s'.
Proof.
  revert s'. induction s as [|c s IH]; intros [|c' s'] Heq; simpl in Heq.
  - done.
  - apply (f_equal String.length) in Heq. simpl in Heq.
    rewrite str_length_app in Heq. lia.
  - apply (f_equal String.length) in Heq. simpl in Heq.
    rewrite str_length_app in Heq. lia.
  - injection Heq as -> Heq. by rewrite (IH s').
Qed.

Lemma GITHUB_ZIP_URL_inj (lib lib' : string) :
  GITHUB_ZIP_URL lib = GITHUB_ZIP_URL lib' → lib = lib'.
Proof.
  unfold GITHUB_ZIP_URL. intros H%str_app_inv_head. by apply str_app_inv_tail in H.
Qed.

Section AcquireGrows.

Variable urlopen : string → option string.
Variable ZipFile : string → option archive.

Lemma extract_lib_sources_grows (zip_data lib : string) (dest : path) (w : world) :
  grows (fs w) (fs (extract_lib_sources ZipFile zip_data lib dest w).2).
Proof.
  unfold extract_lib_sources, mbind, M_bind, update_fs.
  destruct (makedirs (fs w) dest) as [e | fs1] eqn:Hmk; [apply grows_refl |].
  apply makedirs_grows in Hmk.
  destruct (ZipFile zip_data) as [zf|]; [| done].
  apply (grows_trans _ fs1); [done |].
  apply (extract_members_grows zf lib dest _ 0 (set_fs w fs1)).
Qed.

Lemma acquire_lib_grows (root : path) (lib : string) (failed : list string)
    (w : world) :
  grows (fs w) (fs (acquire_lib urlopen ZipFile root lib failed w).2).
Proof.
  unfold acquire_lib. unfold mbind at 1. unfold M_bind, get_fs.
  destruct (if isdir (fs w) (root ++ [lib])
                 && any_endswith (fs w) (root ++ [lib]) ".c"
            then any_endswith (fs w) (root ++ [lib]) ".h.in" else false);
    [apply grows_refl |].
  unfold mbind at 1. unfold M_bind, download_zip.
  set (w1 := add_fetch w (GITHUB_ZIP_URL lib)).
  assert (∀ data,
            grows (fs w1)
              (fs ((if nonempty data
                    then n ← extract_lib_sources ZipFile data lib (root ++ [lib]);
                         if Nat.eqb n 0
                         then (mret (failed ++ [lib]) : M (list string))
                         else mret failed
                    else mret (failed ++ [lib])) w1).2)) as Hrest.
  { intros data. destruct (nonempty data); [| apply grows_refl].
    unfold mbind, M_bind.
    pose proof (extract_lib_sources_grows data lib (root ++ [lib]) w1) as Hg.
    destruct (extract_lib_sources ZipFile data lib (root ++ [lib]) w1)
      as [[n | k | e] w2]; [| done | done].
    by destruct (Nat.eqb n 0). }
  destruct (urlopen (GITHUB_ZIP_URL lib)) as [data|]; apply Hrest.
Qed.

(** A library whose destination is complete when the loop starts is not
    requested by the loop, whatever happens to the other libraries. *)
Lemma acquire_complete_not_fetched (root : path) (libs failed : list string)
    (lib : string) (w : world) :
  COMPLETE (fs w) (root ++ [lib]) →
  ∃ new, fetched (acquire urlopen ZipFile root libs failed w).2 = fetched w ++ new
         ∧ GITHUB_ZIP_URL lib ∉ new.
Proof.
  revert failed w. induction libs as [|l rest IH]; intros failed w Hc.
  - exists []. split; [by rewrite app_nil_r | apply not_elem_of_nil].
  - cbn [acquire]. unfold mbind, M_bind.
    pose proof (acquire_lib_grows root l failed w) as Hg.
    assert (∃ new1,
              fetched (acquire_lib urlopen ZipFile root l failed w).2
              = fetched w ++ new1 ∧ GITHUB_ZIP_URL lib ∉ new1)
      as (new1 & Hnew1 & Hnot1).
    { destruct (if isdir (fs w) (root ++ [l])
                     && any_endswith (fs w) (root ++ [l]) ".c"
                then any_endswith (fs w) (root ++ [l]) ".h.in" else false)
        eqn:Htest.
      - apply complete_test_spec in Htest.
        rewrite (acquire_lib_complete urlopen ZipFile root l failed w Htest).
        exists []. split; [by rewrite app_nil_r | apply not_elem_of_nil].
      - exists [GITHUB_ZIP_URL l]. split.
        + apply acquire_lib_incomplete. rewrite <- complete_test_spec. congruence.
        + intros ->%list_elem_of_singleton%GITHUB_ZIP_URL_inj.
          apply complete_test_spec in Hc. congruence. }
    destruct (acquire_lib urlopen ZipFile root l failed w) as [[failed' | k | e] w1];
      simpl in *; [| by exists new1 | by exists new1].
    destruct (IH failed' w1) as (new2 & Hnew2 & Hnot2);
      [by apply (COMPLETE_grows (fs w)) |].
    exists (new1 ++ new2). split.
    + by rewrite Hnew2, Hnew1, app_assoc.
    + rewrite elem_of_app. tauto.
Qed.

End AcquireGrows.

End AcquireFacts.

(** * Facts about the run as a whole *)

Module MainFacts.
Import FSFacts StrFacts ExtractFacts AcquireFacts.

Section Steps.

Variable urlopen : string → option string.
Variable ZipFile : string → option archive.

(** The request fails or brings nothing: the library is recorded. *)
Lemma acquire_lib_fetch_error (root : path) (lib : string)
    (failed : list string) (w : world) :
  ¬ COMPLETE (fs w) (root ++ [lib]) →
  urlopen (GITHUB_ZIP_URL lib) = None
  ∨ urlopen (GITHUB_ZIP_URL lib) = Some "" →
  acquire_lib urlopen ZipFile root lib failed w
  = (Ok (failed ++ [lib]), add_fetch w (GITHUB_ZIP_URL lib)).
Proof.
  rewrite <- complete_test_spec. intros Hc%not_true_is_false Hurl.
  unfold acquire_lib. unfold mbind at 1. unfold M_bind, get_fs.
  rewrite Hc. unfold mbind at 1. unfold M_bind, download_zip.
  by destruct Hurl as [-> | ->].
Qed.

(** The extraction writes nothing: the library is recorded. *)
Lemma acquire_lib_nothing_extracted (root : path) (lib data : string)
    (failed : list string) (w w1 : world) :
  ¬ COMPLETE (fs w) (root ++ [lib]) →
  urlopen (GITHUB_ZIP_URL lib) = Some data → data ≠ "" →
  extract_lib_sources ZipFile data lib (root ++ [lib])
    (add_fetch w (GITHUB_ZIP_URL lib)) = (Ok 0, w1) →
  acquire_lib urlopen ZipFile root lib failed w = (Ok (failed ++ [lib]), w1).
Proof.
  rewrite <- complete_test_spec. intros Hc%not_true_is_false Hurl Hne Hex.
  unfold acquire_lib. unfold mbind at 1. unfold M_bind, get_fs.
  rewrite Hc. unfold mbind at 1. unfold M_bind, download_zip. rewrite Hurl.
  destruct data; [done |]. simpl. unfold mbind, M_bind. by rewrite Hex.
Qed.

Lemma acquire_lib_failed_prefix (root : path) (lib : string)
    (failed failed' : list string) (w w' : world) :
  acquire_lib urlopen ZipFile root lib failed w = (Ok failed', w') →
  failed `prefix_of` failed'.
Proof.
  unfold acquire_lib. unfold mbind at 1. unfold M_bind, get_fs.
  destruct (if isdir (fs w) (root ++ [lib])
                 && any_endswith (fs w) (root ++ [lib]) ".c"
            then any_endswith (fs w) (root ++ [lib]) ".h.in" else false).
  { by intros [= <- _]. }
  unfold mbind at 1. unfold M_bind.
  destruct (download_zip urlopen (GITHUB_ZIP_URL lib) lib w)
    as [[data | k | e] w1]; [| done | done].
  destruct (nonempty data).
  - unfold mbind, M_bind.
    destruct (extract_lib_sources ZipFile data lib (root ++ [lib]) w1)
      as [[n | k | e] w2]; [| done | done].
    destruct (Nat.eqb n 0); intros [= <- _]; [by apply prefix_app_r | done].
  - intros [= <- _]. by apply prefix_app_r.
Qed.

(** A library once recorded stays recorded to the end of the loop. *)
Lemma acquire_failed_prefix (root : path) (libs failed failed' : list string)
    (w w' : world) :
  acquire urlopen ZipFile root libs failed w = (Ok failed', w') →
  failed `prefix_of` failed'.
Proof.
  revert failed w. induction libs as [|lib rest IH]; intros failed w.
  - by intros [= <- _].
  - cbn [acquire].
    intros (f1 & w1 & H1%acquire_lib_failed_prefix & Hrest%IH)%bind_inv_ok.
    by etrans.
Qed.

End Steps.

Lemma find_root_inv (script_dir cwd root : path) (w w' : world) :
  find_root script_dir cwd w = (Ok root, w') →
  w' = w ∧ exists_ (fs w) (root ++ ["setup.py"]) = true.
Proof.
  unfold find_root, mbind, M_bind, get_fs.
  destruct (exists_ (fs w) (script_dir ++ ["setup.py"])) eqn:Hs.
  - rewrite Hs. by intros [= <- <-].
  - destruct (exists_ (fs w) (cwd ++ ["setup.py"])) eqn:Hc; [| done].
    by intros [= <- <-].
Qed.

(** *** The verification *)

Lemma verify_libs_spec (root : path) (libs : list string) (b : bool) (w : world) :
  verify_libs root libs b w
  = (Ok (b && forallb (λ lib, Nat.ltb 0 (c_count (fs w) (root ++ [lib]))) libs),
     add_reports w (map (lib_line (fs w) root) libs)).
Proof.
  revert b w. induction libs as [|lib rest IH]; intros b [f u r].
  - unfold add_reports. simpl. by rewrite andb_true_r, app_nil_r.
  - cbn [verify_libs]. unfold mbind, M_bind, get_fs, print_report, add_report.
    rewrite IH. unfold add_reports. simpl. rewrite <- app_assoc. simpl.
    f_equal. destruct (Nat.ltb 0 (c_count f (root ++ [lib]))), b; done.
Qed.

Lemma verify_paths_spec (paths : list path) (b : bool) (w : world) :
  verify_paths paths b w
  = (Ok (b && forallb (exists_ (fs w)) paths),
     add_reports w (map (path_line (fs w)) paths)).
Proof.
  revert b w. induction paths as [|p rest IH]; intros b [f u r].
  - unfold add_reports. simpl. by rewrite andb_true_r, app_nil_r.
  - cbn [verify_paths]. unfold mbind, M_bind, get_fs, print_report, add_report.
    rewrite IH. unfold add_reports. simpl. rewrite <- app_assoc. simpl.
    f_equal. destruct (exists_ f p), b; done.
Qed.

Lemma verification_spec (root : path) (w : world) :
  verification root w
  = (if forallb (λ lib, Nat.ltb 0 (c_count (fs w) (root ++ [lib])))
          (DEPENDENCY_LIBS ++ ["libpff"])
        && forallb (exists_ (fs w)) (expected_paths root)
     then Ok () else Exit 1,
     add_reports w
       (map (lib_line (fs w) root) (DEPENDENCY_LIBS ++ ["libpff"])
        ++ map (path_line (fs w)) (expected_paths root))).
Proof.
  unfold verification. unfold mbind at 1. unfold M_bind at 1.
  rewrite verify_libs_spec. unfold mbind at 1. unfold M_bind at 1.
  rewrite verify_paths_spec. unfold add_reports.
  cbn [fs fetched report andb]. rewrite <- app_assoc.
  by destruct (forallb _ _ && forallb _ _).
Qed.

Lemma ready_spec (fs : filesystem) (root : path) :
  forallb (λ lib, Nat.ltb 0 (c_count fs (root ++ [lib])))
    (DEPENDENCY_LIBS ++ ["libpff"])
  && forallb (exists_ fs) (expected_paths root) = true
  ↔ ready fs root.
Proof.
  unfold ready. rewrite andb_true_iff, !forallb_forall.
  setoid_rewrite <- list_elem_of_In. setoid_rewrite Nat.ltb_lt. done.
Qed.

(** The count of STEP 5 is the number of the names ending in [.c]. *)
Lemma source_count_c_count (fs : filesystem) (d : path) :
  source_count fs d (c_count fs d).
Proof.
  unfold source_count, c_count. destruct (isdir fs d); [left | by right].
  split; [done |]. exists (List.filter (λ f, Str.endswith f ".c") (listdir fs d)).
  split; [apply NoDup_ListNoDup, List.NoDup_filter, NoDup_ListNoDup, NoDup_listdir |].
  split; [| done].
  intros f. rewrite list_elem_of_In, filter_In, <- list_elem_of_In.
  by rewrite endswith_spec.
Qed.

Lemma source_count_unique (fs : filesystem) (d : path) (n m : nat) :
  source_count fs d n → source_count fs d m → n = m.
Proof.
  intros [(Hd & l & Hl & Hin & <-) | (Hd & ->)]
         [(Hd' & l' & Hl' & Hin' & <-) | (Hd' & ->)]; try congruence.
  apply Permutation_length, NoDup_Permutation; [done | done |].
  intros f. by rewrite Hin, Hin'.
Qed.

Lemma source_count_positive (fs : filesystem) (d : path) :
  0 < c_count fs d ↔ ∃ n, source_count fs d n ∧ 0 < n.
Proof.
  split.
  - intros Hpos. exists (c_count fs d). split; [apply source_count_c_count | done].
  - intros (n & Hn & Hpos).
    by rewrite (source_count_unique fs d _ n (source_count_c_count fs d) Hn).
Qed.

Lemma lib_lines_reported (fs : filesystem) (root : path) (libs : list string) :
  Forall2 (lib_reported fs root) libs (map (lib_line fs root) libs).
Proof.
  induction libs as [|lib rest IH]; [constructor |].
  cbn [map]. constructor; [| exact IH].
  exists (c_count fs (root ++ [lib])), (Nat.ltb 0 (c_count fs (root ++ [lib]))).
  split; [apply source_count_c_count |]. split; [apply Nat.ltb_lt | done].
Qed.

Lemma artifact_lines_spec (fs : filesystem) (root : path) :
  map (path_line fs) (expected_paths root) = artifact_lines fs root.
Proof. reflexivity. Qed.

Lemma ready_in_place (fs : filesystem) (root : path) :
  ready fs root ↔ all_in_place fs root.
Proof.
  unfold ready, all_in_place.
  assert ((∀ p, p ∈ expected_paths root → exists_ fs p = true)
          ↔ Forall (λ p, exists_ fs p = true) (expected_paths root)) as ->
    by (by rewrite Forall_forall).
  unfold expected_paths. rewrite !Forall_cons, Forall_nil.
  setoid_rewrite source_count_positive. tauto.
Qed.

End MainFacts.

(** * Facts about the generation *)

Module TemplateFacts.
Import FSFacts StrFacts ExtractFacts.

Lemma strip_in_snoc (d : path) (f : string) :
  strip_in (d ++ [f]) = d ++ [String.substring 0 (String.length f - 3) f].
Proof. unfold strip_in. by rewrite last_snoc, parent_snoc. Qed.

Lemma apply_subs_app (t1 t2 : list (string * string)) (content : string) :
  apply_subs (t1 ++ t2) content = apply_subs t2 (apply_subs t1 content).
Proof.
  revert content. induction t1 as [|[k v] t1 IH]; intros content; simpl; done.
Qed.

(** The loop over the table meets [table_applied]. *)
Lemma apply_subs_spec (subs : list (string * string)) (content : string) :
  Forall (λ kv, kv.1 ≠ "") subs →
  table_applied subs content (apply_subs subs content).
Proof.
  intros Hk. revert content.
  induction Hk as [|[k v] rest Hne _ IH]; intros content; simpl.
  - constructor.
  - apply (table_cons k v rest content (Str.replace content k v)); [| apply IH].
    by apply replace_spec.
Qed.

Lemma apply_subs_unique (subs : list (string * string)) (content r : string) :
  Forall (λ kv, kv.1 ≠ "") subs →
  table_applied subs content r → r = apply_subs subs content.
Proof.
  intros Hk Hr. induction Hr as [c | k v rest c c1 c2 H1 _ IH]; [done |].
  apply Forall_cons in Hk as [Hne Hk]. simpl in *.
  apply replace_unique in H1 as ->; [| done]. by apply IH.
Qed.

Lemma not_occurs_at (v : string) : has_at v = false ↔ ¬ occurs "@" v.
Proof. rewrite <- has_at_spec. by destruct (has_at v). Qed.

Lemma not_occurs_dbl_at (s : string) : dbl_at s = false ↔ ¬ occurs "@@" s.
Proof. rewrite <- dbl_at_spec. by destruct (dbl_at s). Qed.

Lemma apply_subs_dbl_at (subs : list (string * string)) (content : string) :
  Forall (λ kv, kv.2 ≠ "" ∧ ¬ occurs "@" kv.2) subs →
  dbl_at content = false → dbl_at (apply_subs subs content) = false.
Proof.
  intros Hv. revert content.
  induction Hv as [|[k v] rest [Hne Hat] _ IH]; intros content Hc; simpl; [done |].
  apply IH, replace_dbl_at; [done | by apply not_occurs_at | done].
Qed.

(** The values of the script's table are not empty and hold no at-sign. *)
Lemma WIN_SUBS_values :
  Forall (λ kv : string * string, kv.2 ≠ "" ∧ ¬ occurs "@" kv.2) WIN_SUBS.
Proof.
  unfold WIN_SUBS.
  repeat (constructor; [split; [discriminate | by apply not_occurs_at] |]).
  constructor.
Qed.

Lemma WIN_SUBS_keys : Forall (λ kv : string * string, kv.1 ≠ "") WIN_SUBS.
Proof.
  unfold WIN_SUBS. repeat (constructor; [discriminate |]). constructor.
Qed.

(** What [generate_h_from_template] does to a template that can be read
    and a header that can be written. *)
Lemma generate_h_from_template_ok (d : path) (f t : string)
    (subs : list (string * string)) (w : world) :
  fs w !! (d ++ [f]) = Some (File t) →
  isdir (fs w) d = true →
  fs w !! strip_in (d ++ [f]) ≠ Some Dir →
  generate_h_from_template (d ++ [f]) subs w
  = (Ok (strip_in (d ++ [f])),
     set_fs w (<[strip_in (d ++ [f]) := File (render subs t)]> (fs w))).
Proof.
  intros Hsrc Hd Hdst. unfold generate_h_from_template.
  erewrite bind_ok; last first.
  { unfold read_text, FS.read_file. by rewrite node_at_snoc, Hsrc. }
  erewrite bind_ok; last first.
  { unfold update_fs. rewrite strip_in_snoc in *. by rewrite write_file_ok. }
  by rewrite strip_in_snoc.
Qed.

(** What STEP 3 does when the project root is a directory and neither
    [setup.cfg] nor [setup.cfg.in] is one. *)
Lemma generate_setup_cfg_ok (root : path) (w : world) :
  isdir (fs w) root = true →
  fs w !! (root ++ ["setup.cfg"]) ≠ Some Dir →
  fs w !! (root ++ ["setup.cfg.in"]) ≠ Some Dir →
  generate_setup_cfg root w
  = (Ok (),
     set_fs w
       (<[root ++ ["setup.cfg"] :=
            File match fs w !! (root ++ ["setup.cfg.in"]) with
                 | Some (File t) =>
                     Str.re_sub_placeholder "0"
                       (Str.replace t "@VERSION@" "20250101")
                 | _ => MINIMAL_SETUP_CFG
                 end]> (fs w))).
Proof.
  intros Hroot Hcfg Hin. unfold generate_setup_cfg.
  unfold mbind at 1. unfold M_bind at 1, get_fs at 1.
  unfold FS.exists_. rewrite node_at_snoc.
  destruct (fs w !! (root ++ ["setup.cfg.in"])) as [[t|]|] eqn:Ht; [| done |].
  - erewrite bind_ok; last first.
    { unfold read_text, FS.read_file. by rewrite node_at_snoc, Ht. }
    unfold update_fs. by rewrite write_file_ok.
  - unfold update_fs. by rewrite write_file_ok.
Qed.

(** What a completed STEP 3 has done. *)
Lemma generate_setup_cfg_inv (root : path) (w w' : world) :
  generate_setup_cfg root w = (Ok (), w') →
  fs w !! (root ++ ["setup.cfg.in"]) ≠ Some Dir
  ∧ w' = set_fs w
           (<[root ++ ["setup.cfg"] :=
                File match fs w !! (root ++ ["setup.cfg.in"]) with
                     | Some (File t) =>
                         Str.re_sub_placeholder "0"
                           (Str.replace t "@VERSION@" "20250101")
                     | _ => MINIMAL_SETUP_CFG
                     end]> (fs w)).
Proof.
  unfold generate_setup_cfg.
  unfold mbind at 1. unfold M_bind at 1, get_fs at 1.
  unfold FS.exists_. rewrite node_at_snoc.
  destruct (fs w !! (root ++ ["setup.cfg.in"])) as [[t|]|] eqn:Ht.
  - erewrite bind_ok; last first.
    { unfold read_text, FS.read_file. by rewrite node_at_snoc, Ht. }
    intros (fs' & (-> & _)%write_file_inr & ->)%update_fs_inv. done.
  - unfold mbind, M_bind, read_text, FS.read_file.
    by rewrite node_at_snoc, Ht.
  - intros (fs' & (-> & _)%write_file_inr & ->)%update_fs_inv. done.
Qed.

End TemplateFacts.

(** * The properties of the script *)

Import FSFacts StrFacts ExtractFacts AcquireFacts MainFacts TemplateFacts.

(** C1. An iteration of the acquisition requests no archive exactly when
    the destination is a directory that holds a [.c] file and a [.h.in]
    file; hence a run on a project whose destinations are all in that
    state, such as a second run after a first one left them so, requests
    nothing and changes nothing. *)
Theorem acquire_skips_iff_complete :
  (∀ urlopen ZipFile root lib failed w,
     fetched (acquire_lib urlopen ZipFile root lib failed w).2 = fetched w
     ↔ COMPLETE (fs w) (root ++ [lib]))
  ∧ (∀ urlopen ZipFile root libs failed w,
       (∀ lib, lib ∈ libs → COMPLETE (fs w) (root ++ [lib])) →
       acquire urlopen ZipFile root libs failed w = (Ok failed, w))
  ∧ (∀ urlopen1 ZipFile1 urlopen2 ZipFile2 root libs w0 r1 w1,
       acquire urlopen1 ZipFile1 root libs [] w0 = (r1, w1) →
       (∀ lib, lib ∈ libs → COMPLETE (fs w1) (root ++ [lib])) →
       fetched (acquire urlopen2 ZipFile2 root libs [] w1).2 = fetched w1)
  ∧ (∀ urlopen1 ZipFile1 urlopen2 ZipFile2 root libs lib w0 r1 w1,
       acquire urlopen1 ZipFile1 root libs [] w0 = (r1, w1) →
       COMPLETE (fs w1) (root ++ [lib]) →
       ∃ new, fetched (acquire urlopen2 ZipFile2 root libs [] w1).2
              = fetched w1 ++ new
              ∧ GITHUB_ZIP_URL lib ∉ new).
Proof.
  split; [| split; [| split]].
  - intros urlopen ZipFile root lib failed w. split.
    + intros Hsame. apply complete_test_spec.
      apply not_false_iff_true. intros Hn.
      rewrite acquire_lib_incomplete in Hsame
        by (rewrite <- complete_test_spec; congruence).
      apply (f_equal length) in Hsame. rewrite length_app in Hsame.
      simpl in Hsame. lia.
    + intros Hc. by rewrite acquire_lib_complete.
  - intros urlopen ZipFile root libs failed w. apply acquire_all_complete.
  - intros urlopen1 ZipFile1 urlopen2 ZipFile2 root libs w0 r1 w1 _ Hall.
    by rewrite acquire_all_complete.
  - intros urlopen1 ZipFile1 urlopen2 ZipFile2 root libs lib w0 r1 w1 _.
    apply acquire_complete_not_fetched.
Qed.

Lemma member_wanted_rule (lib member : string) :
  member_wanted lib member = true ↔ kept_by_rule lib member.
Proof.
  unfold member_wanted, kept_by_rule.
  generalize (Str.split "/" member) as parts. intros parts.
  rewrite !andb_true_iff, !orb_true_iff, Nat.leb_le, !String.eqb_eq,
    !endswith_spec.
  split.
  - intros [[[Hlen H1] Hne] Hsuf]. split; [done |].
    destruct (parts !! 1) as [x|] eqn:Hx;
      [| apply lookup_ge_None in Hx; lia].
    simpl in H1. subst x. split; [done |].
    destruct (last parts) as [f|] eqn:Hf;
      [| apply last_None in Hf; subst; simpl in Hlen; lia].
    simpl in *. exists f. split; [done |]. split; [by destruct f | tauto].
  - intros (Hlen & H1 & f & Hf & Hne & Hsuf). rewrite H1, Hf. simpl.
    split; [| tauto]. split; [done |]. by destruct f.
Qed.

Lemma acquire_skips_iff_complete_witness :
  acquire (λ _, None) (λ _, None) ["r"] ["libcerror"] [] complete_world
  = (Ok [], complete_world).
Proof.
  apply (proj1 (proj2 acquire_skips_iff_complete)).
  intros lib ->%list_elem_of_singleton.
  apply complete_test_spec. reflexivity.
Defined.

(** C2. A member is extracted exactly when its path has at least three
    components, the second is the dependency name and the last is
    non-empty and ends in [.c], [.h] or [.h.in] or is [Makefile.am]; a
    completed extraction counts the wanted members and adds their final
    components to the destination; for dependency [x] the four example
    members, extracted into a destination that holds nothing, give the
    count 3 and the three files [a.c], [b.c] and [d.h.in]. *)
Theorem extraction_filter :
  (∀ lib member, member_wanted lib member = true ↔ kept_by_rule lib member)
  ∧ (∀ ZipFile zip_data lib dest zf n w w',
       ZipFile zip_data = Some zf →
       extract_lib_sources ZipFile zip_data lib dest w = (Ok n, w') →
       n = length (List.filter (member_wanted lib) (Zip.namelist zf))
       ∧ ∀ f, f ∈ listdir (fs w') dest
              ↔ f ∈ listdir (fs w) dest
                ∨ ∃ m, m ∈ Zip.namelist zf ∧ member_wanted lib m = true
                       ∧ basename m = f)
  ∧ (∀ ZipFile zip_data dest zf fs1 w,
       ZipFile zip_data = Some zf →
       Zip.namelist zf = example_members →
       listdir (fs w) dest = [] →
       makedirs (fs w) dest = inr fs1 →
       ∃ w', extract_lib_sources ZipFile zip_data "x" dest w = (Ok 3, w')
             ∧ listdir (fs w') dest ≡ₚ ["a.c"; "b.c"; "d.h.in"]).
Proof.
  split; [apply member_wanted_rule |]. split.
  - intros ZipFile zip_data lib dest zf n w w'.
    apply extract_lib_sources_listdir.
  - intros ZipFile zip_data dest zf fs1 w Hzf Hnames Hempty Hmk.
    destruct (extract_lib_sources_total ZipFile zip_data "x" dest zf fs1 w)
      as (n & w' & Hrun); [done | done | |].
    { intros f Hf. assert (f ∈ listdir (fs w) dest) as Hin
        by (apply listdir_spec; by rewrite Hf).
      rewrite Hempty in Hin. by apply elem_of_nil in Hin. }
    destruct (extract_lib_sources_listdir _ _ _ _ _ _ _ _ Hzf Hrun)
      as [Hn Hlist].
    rewrite Hnames in Hn. change (n = 3) in Hn. subst n.
    exists w'. split; [done |].
    apply NoDup_Permutation.
    + apply NoDup_listdir.
    + by apply (bool_decide_unpack _).
    + intros f. rewrite Hlist, Hempty, Hnames. unfold example_members.
      rewrite !elem_of_cons. split.
      * intros [?%elem_of_nil | (m & Hm & Hw & <-)]; [done |].
        rewrite !elem_of_cons in Hm.
        destruct Hm as [-> | [-> | [-> | [-> | ?%elem_of_nil]]]];
          try done; vm_compute; tauto.
      * intros [-> | [-> | [-> | ?%elem_of_nil]]]; [| | | done]; right.
        -- exists "x-main/x/a.c". rewrite !elem_of_cons. by vm_compute; tauto.
        -- exists "x-main/x/sub/b.c". rewrite !elem_of_cons. by vm_compute; tauto.
        -- exists "x-main/x/d.h.in". rewrite !elem_of_cons. by vm_compute; tauto.
Qed.

Lemma extraction_filter_witness :
  ∃ w', extract_lib_sources (λ _, Some example_zip) "zip" "x" ["r"; "x"] bare_world
        = (Ok 3, w')
        ∧ listdir (fs w') ["r"; "x"] ≡ₚ ["a.c"; "b.c"; "d.h.in"].
Proof.
  destruct (proj2 (proj2 extraction_filter) (λ _, Some example_zip) "zip"
              ["r"; "x"] example_zip
              (<[ ["r"; "x"] := Dir ]> (fs bare_world)) bare_world)
    as (w' & Hrun & Hlist);
    [reflexivity | reflexivity | reflexivity | reflexivity |].
  exists w'. by split.
Defined.

(** C8. When two wanted members have the same final component and the
    destination can be created and holds no directory, the extraction
    completes and leaves one file of that name, and its content is the
    content of the member that comes later in the archive. *)
Theorem collision_last_wins
    (ZipFile : string → option archive) (zip_data lib : string) (dest : path)
    (zf : archive) (l1 l2 l3 : list string) (m1 m2 c2 : string)
    (fs1 : filesystem) (w : world) :
  ZipFile zip_data = Some zf →
  Zip.namelist zf = l1 ++ m1 :: l2 ++ m2 :: l3 →
  member_wanted lib m1 = true → member_wanted lib m2 = true →
  m1 ≠ m2 → basename m1 = basename m2 →
  (∀ m, m ∈ l3 → member_wanted lib m = true → basename m ≠ basename m2) →
  Zip.open zf m2 = Some c2 →
  makedirs (fs w) dest = inr fs1 →
  (∀ f, fs w !! (dest ++ [f]) ≠ Some Dir) →
  ∃ n w',
    extract_lib_sources ZipFile zip_data lib dest w = (Ok n, w')
    ∧ fs w' !! (dest ++ [basename m1]) = Some (File c2)
    ∧ basename m1 ∈ listdir (fs w') dest
    ∧ NoDup (listdir (fs w') dest).
Proof.
  intros Hzf Hnames Hm1 Hm2 Hdiff Hsame Hlast Hc2 Hmk Hfiles.
  destruct (extract_lib_sources_total ZipFile zip_data lib dest zf fs1 w)
    as (n & w' & Hrun); [done | done | done |].
  exists n, w'. split; [done |].
  assert (fs w' !! (dest ++ [basename m1]) = Some (File c2)) as Hfile.
  { apply extract_lib_sources_inv in Hrun as (fs2 & zf' & _ & Hzf' & Hrun).
    assert (zf' = zf) as -> by congruence.
    rewrite Hnames in Hrun. rewrite Hsame.
    replace (l1 ++ m1 :: l2 ++ m2 :: l3) with ((l1 ++ m1 :: l2) ++ m2 :: l3)
      in Hrun by (by rewrite <- app_assoc).
    by apply (extract_members_last zf lib dest _ _ _ _ _ _ _ _ Hrun). }
  split; [done |]. split; [| apply NoDup_listdir].
  apply listdir_spec. by rewrite Hfile.
Qed.

Lemma collision_last_wins_witness :
  ∃ n w', extract_lib_sources (λ _, Some collision_zip) "zip" "x" ["r"; "x"]
            bare_world = (Ok n, w')
          ∧ fs w' !! ["r"; "x"; "a.c"] = Some (File "second")
          ∧ "a.c" ∈ listdir (fs w') ["r"; "x"]
          ∧ NoDup (listdir (fs w') ["r"; "x"]).
Proof.
  apply (collision_last_wins (λ _, Some collision_zip) "zip" "x" ["r"; "x"]
           collision_zip [] ["x-main/x/b.h"] [] "x-main/x/one/a.c"
           "x-main/x/two/a.c" "second"
           (<[ ["r"; "x"] := Dir ]> (fs bare_world)) bare_world);
    [reflexivity | reflexivity | reflexivity | reflexivity | discriminate
    | reflexivity | by intros m ?%elem_of_nil | reflexivity | reflexivity |].
  intros f. destruct (decide (["r"; "x"] ++ [f] = ["r"])) as [Heq | Hne].
  - discriminate Heq.
  - unfold bare_world. cbn [fs]. by rewrite lookup_singleton_ne.
Defined.

(** C6. A request that fails, or an extraction that writes no file,
    records the library and the loop goes on with the next one; a
    recorded library stays recorded; and when the loop ends with a
    library recorded, the run exits with status 1 in the state the loop
    left, before anything is generated. *)
Theorem failures_collected_then_exit :
  (∀ urlopen ZipFile root lib rest failed w,
     ¬ COMPLETE (fs w) (root ++ [lib]) →
     urlopen (GITHUB_ZIP_URL lib) = None
     ∨ urlopen (GITHUB_ZIP_URL lib) = Some "" →
     acquire urlopen ZipFile root (lib :: rest) failed w
     = acquire urlopen ZipFile root rest (failed ++ [lib])
         (add_fetch w (GITHUB_ZIP_URL lib)))
  ∧ (∀ urlopen ZipFile root lib rest failed data w w1,
       ¬ COMPLETE (fs w) (root ++ [lib]) →
       urlopen (GITHUB_ZIP_URL lib) = Some data → data ≠ "" →
       extract_lib_sources ZipFile data lib (root ++ [lib])
         (add_fetch w (GITHUB_ZIP_URL lib)) = (Ok 0, w1) →
       acquire urlopen ZipFile root (lib :: rest) failed w
       = acquire urlopen ZipFile root rest (failed ++ [lib]) w1)
  ∧ (∀ urlopen ZipFile root libs failed failed' w w',
       acquire urlopen ZipFile root libs failed w = (Ok failed', w') →
       failed `prefix_of` failed')
  ∧ (∀ urlopen ZipFile script_dir cwd root failed w w1,
       find_root script_dir cwd w = (Ok root, w) →
       acquire urlopen ZipFile root DEPENDENCY_LIBS [] w = (Ok failed, w1) →
       failed ≠ [] →
       main urlopen ZipFile script_dir cwd w = (Exit 1, w1)
       ∧ exit_status (main urlopen ZipFile script_dir cwd w).1 ≠ 0).
Proof.
  split; [| split; [| split]].
  - intros urlopen ZipFile root lib rest failed w Hc Hurl. cbn [acquire].
    apply bind_ok. by apply acquire_lib_fetch_error.
  - intros urlopen ZipFile root lib rest failed data w w1 Hc Hurl Hne Hex.
    cbn [acquire]. apply bind_ok.
    by apply (acquire_lib_nothing_extracted _ _ _ _ data).
  - intros urlopen ZipFile root libs failed failed' w w'.
    apply acquire_failed_prefix.
  - intros urlopen ZipFile script_dir cwd root failed w w1 Hroot Hacq Hne.
    assert (main urlopen ZipFile script_dir cwd w = (Exit 1, w1)) as Hmain.
    { unfold main. rewrite (bind_ok _ _ _ _ _ Hroot).
      rewrite (bind_ok _ _ _ _ _ Hacq). by destruct failed. }
    split; [done |]. by rewrite Hmain.
Qed.

Lemma failures_collected_then_exit_witness :
  main (λ _, None) (λ _, None) ["r"] ["c"] fresh_world
  = (Exit 1, World (fs fresh_world) (map GITHUB_ZIP_URL DEPENDENCY_LIBS) []).
Proof.
  apply (proj2 (proj2 (proj2 failures_collected_then_exit))
           (λ _, None) (λ _, None) ["r"] ["c"] ["r"] DEPENDENCY_LIBS
           fresh_world
           (World (fs fresh_world) (map GITHUB_ZIP_URL DEPENDENCY_LIBS) []));
    [reflexivity | vm_compute; reflexivity | discriminate].
Defined.

(** C9. When neither the directory of the script nor the working
    directory has an entry [setup.py], the run exits with status 1 and
    has requested nothing and written nothing. *)
Theorem no_setup_py_exits
    (urlopen : string → option string) (ZipFile : string → option archive)
    (script_dir cwd : path) (w : world) :
  exists_ (fs w) (script_dir ++ ["setup.py"]) = false →
  exists_ (fs w) (cwd ++ ["setup.py"]) = false →
  main urlopen ZipFile script_dir cwd w = (Exit 1, w).
Proof.
  intros Hs Hc. unfold main, find_root.
  unfold mbind at 1. unfold M_bind at 1. unfold mbind at 1.
  unfold M_bind at 1. unfold get_fs at 1. by rewrite Hs, Hc.
Qed.

Lemma no_setup_py_exits_witness :
  main (λ _, Some "zip") (λ _, Some []) ["s"] ["c"] bare_world
  = (Exit 1, bare_world).
Proof.
  apply (no_setup_py_exits (λ _, Some "zip") (λ _, Some []) ["s"] ["c"]
           bare_world); reflexivity.
Defined.

(** C7. The verification prints one line for every dependency directory,
    [libpff] included, with the number of the names ending in [.c] that
    the directory lists and whether that number is positive, and one
    line for each of the six expected files, whatever the outcome of the
    earlier lines; it changes no file; it completes when every directory
    lists a positive number of such names and every expected file exists,
    and exits with status 1 otherwise, so the status is not zero exactly
    when something is missing. *)
Theorem verification_all_checks (root : path) (w : world) :
  fs (verification root w).2 = fs w
  ∧ (∃ lib_lines,
       Forall2 (lib_reported (fs w) root) (DEPENDENCY_LIBS ++ ["libpff"])
         lib_lines
       ∧ report (verification root w).2
         = report w ++ lib_lines ++ artifact_lines (fs w) root)
  ∧ (∀ d n m, source_count (fs w) d n → source_count (fs w) d m → n = m)
  ∧ ((verification root w).1 = Ok () ↔ all_in_place (fs w) root)
  ∧ ((verification root w).1 = Exit 1 ↔ ¬ all_in_place (fs w) root)
  ∧ (exit_status (verification root w).1 ≠ 0 ↔ ¬ all_in_place (fs w) root).
Proof.
  rewrite verification_spec. cbn [fst snd add_reports fs report].
  split; [reflexivity |]. split.
  { exists (map (lib_line (fs w) root) (DEPENDENCY_LIBS ++ ["libpff"])).
    split; [apply lib_lines_reported |]. by rewrite artifact_lines_spec. }
  split; [intros d n m; apply source_count_unique |].
  pose proof (ready_spec (fs w) root) as Hready.
  rewrite ready_in_place in Hready.
  destruct (forallb _ _ && forallb _ _).
  - pose proof (proj1 Hready eq_refl) as Hr.
    split; [by split |]. split; split; intros H; try discriminate H.
    + by destruct H.
    + by destruct H.
    + by destruct H.
  - assert (¬ all_in_place (fs w) root) as Hn.
    { intros Hr. apply Hready in Hr. discriminate Hr. }
    split; [by split |].
    split; split; intros _; [exact Hn | reflexivity | exact Hn |].
    cbn [exit_status]. lia.
Qed.

(** C3. The text written for a template is the one text obtained by
    applying the entries of the table in their order, each one replacing
    the occurrences of its token found by a scan from the left as exact
    text, and then replacing the placeholders found by a scan from the
    left by [0]; a token that does not occur changes nothing; a template
    that can be read is written, so substituted, next to itself; and the
    template [#define A @A@], [#define B @B@] with the table [(@A@, 1)]
    gives [#define A 1], [#define B 0]. *)
Theorem template_substitution :
  (∀ subs content r,
     Forall (λ kv, kv.1 ≠ "") subs →
     (∃ mid, table_applied subs content mid
             ∧ replaced_all placeholder "0" mid r)
     ↔ r = render subs content)
  ∧ (∀ k v content, ¬ occurs k content → Str.replace content k v = content)
  ∧ (∀ d f t subs w,
       fs w !! (d ++ [f]) = Some (File t) →
       isdir (fs w) d = true →
       fs w !! strip_in (d ++ [f]) ≠ Some Dir →
       generate_h_from_template (d ++ [f]) subs w
       = (Ok (strip_in (d ++ [f])),
          set_fs w (<[strip_in (d ++ [f]) := File (render subs t)]> (fs w))))
  ∧ render [("@A@", "1")] example_template = example_header.
Proof.
  split; [| split; [| split]].
  - intros subs content r Hk. split.
    + intros (mid & Hmid & Hr). apply apply_subs_unique in Hmid as ->; [| done].
      by apply re_sub_unique.
    + intros ->. exists (apply_subs subs content). split.
      * by apply apply_subs_spec.
      * apply re_sub_spec.
  - intros k v content. apply replace_absent.
  - apply generate_h_from_template_ok.
  - reflexivity.
Qed.

Lemma template_substitution_witness :
  generate_h_from_template ["r"; "common"; "types.h.in"] WIN_SUBS template_world
  = (Ok ["r"; "common"; "types.h"],
     set_fs template_world
       (<[ ["r"; "common"; "types.h"] := File "#define V 20250101 0" ]>
          (fs template_world))).
Proof.
  apply (proj1 (proj2 (proj2 template_substitution)) ["r"; "common"]
           "types.h.in" "#define V @VERSION@ @X@" WIN_SUBS template_world);
    [reflexivity | reflexivity | discriminate].
Defined.

(** C4, as the script behaves. The entries are applied one after the
    other, each once and each to the text the entries before it left: a
    later entry does rewrite the value an earlier entry produced, so the
    table [(@A@, @B@); (@B@, 2)] turns [@A@] into [2]; an entry is not
    applied again to its own value or to the value of a later entry, so
    the table [(@B@, 2); (@A@, @B@)] turns [@A@] into [@B@]. *)
Theorem table_entries_applied_in_sequence :
  (∀ t1 t2 content,
     apply_subs (t1 ++ t2) content = apply_subs t2 (apply_subs t1 content))
  ∧ (∀ k v, k ≠ "" → apply_subs [(k, v)] k = v)
  ∧ apply_subs [("@A@", "@B@"); ("@B@", "2")] "@A@" = "2"
  ∧ apply_subs [("@B@", "2"); ("@A@", "@B@")] "@A@" = "@B@".
Proof.
  split; [apply apply_subs_app |]. split; [| by split].
  intros k v Hne. simpl.
  rewrite <- (str_app_nil_r k) at 1. rewrite replace_match by done.
  by rewrite replace_nil, str_app_nil_r.
Qed.

Lemma table_entries_applied_in_sequence_witness :
  apply_subs [("@A@", "@A@@A@")] "@A@" = "@A@@A@".
Proof.
  apply (proj1 (proj2 table_entries_applied_in_sequence) "@A@" "@A@@A@").
  discriminate.
Defined.

(** C4 as stated fails: after the table pass the text is [2], not [@B@]. *)
Lemma later_entry_rewrites_earlier_value :
  apply_subs [("@A@", "@B@"); ("@B@", "2")] "@A@" = "2"
  ∧ apply_subs [("@A@", "@B@"); ("@B@", "2")] "@A@" ≠ "@B@".
Proof. split; [reflexivity | discriminate]. Qed.

(** C5, as the script behaves. When the template holds no two adjacent
    at-signs and no value of the table is empty or holds an at-sign, as
    in the script's table, the generated text holds no placeholder. *)
Theorem no_placeholder_left
    (subs : list (string * string)) (content : string) :
  Forall (λ kv, kv.2 ≠ "" ∧ ¬ occurs "@" kv.2) subs →
  ¬ occurs "@@" content →
  ¬ has_placeholder (render subs content).
Proof.
  intros Hv Hc. unfold render. apply re_sub_no_placeholder; [done |].
  apply apply_subs_dbl_at; [done |]. by apply not_occurs_dbl_at.
Qed.

Lemma no_placeholder_left_witness :
  render WIN_SUBS "#define V @VERSION@ @X@" = "#define V 20250101 0"
  ∧ ¬ has_placeholder (render WIN_SUBS "#define V @VERSION@ @X@").
Proof.
  split; [reflexivity |].
  apply (no_placeholder_left WIN_SUBS "#define V @VERSION@ @X@").
  - apply WIN_SUBS_values.
  - by apply not_occurs_dbl_at.
Defined.

(** C5 as stated fails: the scan replaces the inner placeholder of
    [@@A@@] and leaves [@0@], which is a placeholder. *)
Lemma placeholder_left_after_generation :
  render WIN_SUBS "@@A@@" = "@0@" ∧ has_placeholder (render WIN_SUBS "@@A@@").
Proof.
  split; [reflexivity |].
  exists "", "@0@", "". split; [reflexivity |]. by exists "0".
Qed.

(** C10. A completed STEP 3 leaves a file [setup.cfg] in the project
    root and changes nothing else; with a file [setup.cfg.in] its content
    is that text with the occurrences of [@VERSION@] replaced by
    [20250101] and then the placeholders replaced by [0]; without
    [setup.cfg.in] the content is the three fixed lines.  The step
    completes when the root is a directory and neither [setup.cfg] nor
    [setup.cfg.in] is a directory. *)
Theorem setup_cfg_generated (root : path) (w : world) :
  (∀ w',
     generate_setup_cfg root w = (Ok (), w') →
     ∃ content,
       fs w' !! (root ++ ["setup.cfg"]) = Some (File content)
       ∧ (∀ q, q ≠ root ++ ["setup.cfg"] → fs w' !! q = fs w !! q)
       ∧ match fs w !! (root ++ ["setup.cfg.in"]) with
         | Some (File t) =>
             content = Str.re_sub_placeholder "0"
                         (Str.replace t "@VERSION@" "20250101")
             ∧ ∃ mid, replaced_all (eq "@VERSION@") "20250101" t mid
                      ∧ replaced_all placeholder "0" mid content
         | Some Dir => False
         | None =>
             content = "[metadata]" +:+ nl +:+ "name = pypff" +:+ nl
                       +:+ "version = 20250101" +:+ nl
         end)
  ∧ (isdir (fs w) root = true →
     fs w !! (root ++ ["setup.cfg"]) ≠ Some Dir →
     fs w !! (root ++ ["setup.cfg.in"]) ≠ Some Dir →
     ∃ w', generate_setup_cfg root w = (Ok (), w')).
Proof.
  split.
  - intros w' [Hin ->]%generate_setup_cfg_inv. eexists.
    simpl. split; [by rewrite lookup_insert_eq |]. split.
    + intros q Hq. by rewrite lookup_insert_ne.
    + destruct (fs w !! (root ++ ["setup.cfg.in"])) as [[t|]|]; [| done | done].
      split; [done |]. eexists. split; [| apply re_sub_spec].
      by apply replace_spec.
  - intros Hroot Hcfg Hin. eexists. by apply generate_setup_cfg_ok.
Qed.

Lemma setup_cfg_generated_witness :
  ∃ w', generate_setup_cfg ["r"] setup_world = (Ok (), w')
        ∧ fs w' !! ["r"; "setup.cfg"] = Some (File "version = 20250101 0").
Proof.
  destruct (proj2 (setup_cfg_generated ["r"] setup_world)) as [w' Hrun];
    [reflexivity | discriminate | discriminate |].
  destruct (proj1 (setup_cfg_generated ["r"] setup_world) w' Hrun)
    as (content & Hfile & _ & Hcontent & _).
  exists w'. split; [exact Hrun |]. rewrite Hcontent in Hfile. exact Hfile.
Defined.

(** * Further facts *)

Module MoreStrFacts.
Import Str StrSpec StrFacts.

(** A component without separator, followed by a separator, is split off. *)
Lemma split_cons_part (sep : ascii) (x rest : string) :
  ¬ occurs (String sep "") x →
  split sep (x +:+ String sep rest) = x :: split sep rest.
Proof.
  intros Hx. induction x as [|c x IH].
  - simpl. by rewrite Ascii.eqb_refl.
  - change (String c x +:+ String sep rest) with (String c (x +:+ String sep rest)).
    cbn [split]. destruct (Ascii.eqb_spec c sep) as [-> | Hc].
    + exfalso. apply Hx. by exists "", x.
    + rewrite IH; [done |]. intros (p & q & ->). apply Hx.
      by exists (String c p), q.
Qed.

Lemma split_one_part (sep : ascii) (x : string) :
  ¬ occurs (String sep "") x → split sep x = [x].
Proof.
  intros Hx. induction x as [|c x IH]; [done |].
  cbn [split]. destruct (Ascii.eqb_spec c sep) as [-> | Hc].
  - exfalso. apply Hx. by exists "", x.
  - rewrite IH; [done |]. intros (p & q & ->). apply Hx.
    by exists (String c p), q.
Qed.

(** Splitting the join of components without separator gives them back. *)
Lemma split_of_concat (sep : ascii) (parts : list string) :
  parts ≠ [] → Forall (λ part, ¬ occurs (String sep "") part) parts →
  split sep (String.concat (String sep "") parts) = parts.
Proof.
  intros Hne Hall. induction Hall as [|x rest Hx Hrest IH]; [done |].
  destruct rest as [|y rest]; [by apply split_one_part |].
  change (String.concat (String sep "") (x :: y :: rest))
    with (x +:+ String sep (String.concat (String sep "") (y :: rest))).
  rewrite split_cons_part by done. by rewrite IH.
Qed.

(** A text that ends with the separator has an empty last component. *)
Lemma split_trailing_sep (sep : ascii) (p : string) :
  ∃ h init, split sep (p +:+ String sep "") = h :: init ++ [""].
Proof.
  induction p as [|c p (h & init & IH)].
  - exists "", []. simpl. by rewrite Ascii.eqb_refl.
  - change (String c p +:+ String sep "") with (String c (p +:+ String sep "")).
    cbn [split]. rewrite IH. destruct (Ascii.eqb c sep).
    + by exists "", (h :: init).
    + by exists (String c h), init.
Qed.

Lemma substring_app_length (s t : string) :
  String.substring 0 (String.length s) (s +:+ t) = s.
Proof.
  induction s as [|c s IH]; simpl; [by destruct t | by rewrite IH].
Qed.

(** Cutting the last three characters off a template name. *)
Lemma strip_template_name (p : string) :
  String.substring 0 (String.length (p +:+ ".h.in") - 3) (p +:+ ".h.in")
  = p +:+ ".h".
Proof.
  replace (p +:+ ".h.in") with ((p +:+ ".h") +:+ ".in")
    by (by rewrite str_app_assoc).
  rewrite str_length_app. simpl.
  replace (String.length (p +:+ ".h") + 3 - 3)
    with (String.length (p +:+ ".h")) by lia.
  apply substring_app_length.
Qed.

(** A header name is not a template name. *)
Lemma header_not_template (p : string) : endswith (p +:+ ".h") ".h.in" = false.
Proof.
  apply not_true_is_false. intros (q & Hq)%endswith_spec.
  destruct (str_app_eq_app _ _ _ _ Hq) as [(d & _ & Hd) | (d & _ & Hd)].
  - apply (f_equal String.length) in Hd. rewrite str_length_app in Hd.
    simpl in Hd. lia.
  - destruct d as [|c1 [|c2 [|c3 [|c4 d]]]]; try discriminate Hd.
    apply (f_equal String.length) in Hd. rewrite str_length_app in Hd.
    simpl in Hd. lia.
Qed.

Lemma not_occurs_char (c : ascii) (s : string) :
  mem_char c s = false → ¬ occurs (String c "") s.
Proof.
  induction s as [|c' s IH]; simpl.
  - by intros _ ([|? ?] & q & ?).
  - intros [Hc Hs]%orb_false_elim ([|c'' p] & q & Heq); simpl in Heq.
    + injection Heq as -> _. by rewrite Ascii.eqb_refl in Hc.
    + injection Heq as -> ->. apply (IH Hs). by exists p, q.
Qed.

(** A name that ends in [.h.in] ends neither in [.c] nor in [.h]. *)
Lemma template_suffix_only (f : string) :
  ends_with f ".h.in" → endswith f ".c" = false ∧ endswith f ".h" = false.
Proof.
  intros (p & ->).
  assert (∀ suf q, String.length suf = 2 → suf ≠ "in" →
                   p +:+ ".h.in" ≠ q +:+ suf) as Hno.
  { intros suf q Hlen Hsuf Heq.
    destruct (str_app_eq_app _ _ _ _ Heq) as [(d & _ & Hd) | (d & _ & Hd)].
    - destruct d as [|c1 [|c2 [|c3 [|c4 d]]]]; simpl in Hd.
      + subst suf. discriminate Hlen.
      + injection Hd as _ Hd. subst suf. discriminate Hlen.
      + injection Hd as _ _ Hd. subst suf. discriminate Hlen.
      + injection Hd as _ _ _ Hd. by subst suf.
      + apply (f_equal String.length) in Hd. simpl in Hd.
        rewrite str_length_app in Hd. lia.
    - apply (f_equal String.length) in Hd. rewrite str_length_app in Hd.
      simpl in Hd. lia. }
  split; apply not_true_is_false; intros (q & Hq)%endswith_spec;
    by apply (Hno _ q) in Hq.
Qed.

Lemma occurs_trans (a k s : string) : occurs a k → occurs k s → occurs a s.
Proof.
  intros (p1 & q1 & ->) (p2 & q2 & ->). exists (p2 +:+ p1), (q1 +:+ q2).
  by rewrite !str_app_assoc.
Qed.

Lemma placeholder_has_at (m : string) : placeholder m → occurs "@" m.
Proof. intros (w & -> & _). by exists "", (w +:+ "@"). Qed.

(** A text without placeholder is left as it is by [re.sub]. *)
Lemma re_sub_no_match (repl s : string) :
  ¬ has_placeholder s → re_sub_placeholder repl s = s.
Proof.
  intros Hno. symmetry. apply re_sub_unique, replaced_none.
  by rewrite has_match_placeholder.
Qed.

End MoreStrFacts.

Module GenerateFacts.
Import FS FSFacts Str StrSpec StrFacts ExtractFacts AcquireFacts TemplateFacts
  MoreStrFacts.

Lemma strip_in_template (d : path) (f : string) :
  endswith f ".h.in" = true →
  ∃ p, f = p +:+ ".h.in" ∧ strip_in (d ++ [f]) = d ++ [p +:+ ".h"].
Proof.
  intros (p & ->)%endswith_spec. exists p. split; [done |].
  by rewrite strip_in_snoc, strip_template_name.
Qed.

Lemma header_ne_template (d : path) (f f' : string) :
  endswith f ".h.in" = true → endswith f' ".h.in" = true →
  strip_in (d ++ [f]) ≠ d ++ [f'].
Proof.
  intros (p & -> & ->)%(strip_in_template d) Hf' Heq%app_inv_head.
  injection Heq as <-. by rewrite header_not_template in Hf'.
Qed.

Lemma strip_in_inj (d : path) (f f' : string) :
  endswith f ".h.in" = true → endswith f' ".h.in" = true →
  strip_in (d ++ [f]) = strip_in (d ++ [f']) → f = f'.
Proof.
  intros (p & -> & ->)%(strip_in_template d) (p' & -> & ->)%(strip_in_template d).
  intros Heq%app_inv_head. injection Heq as Heq.
  by apply str_app_inv_tail in Heq as ->.
Qed.

(** The inner loop of STEP 2 over a list of distinct names: it completes
    when the templates are regular files and no header is a directory,
    counts the templates, writes every header and changes nothing else. *)
Lemma generate_in_ok (d : path) (names : list string) (g : nat) (w : world) :
  isdir (fs w) d = true → NoDup names →
  (∀ f, f ∈ names → endswith f ".h.in" = true →
        ∃ t, fs w !! (d ++ [f]) = Some (File t)) →
  (∀ f, f ∈ names → endswith f ".h.in" = true →
        fs w !! strip_in (d ++ [f]) ≠ Some Dir) →
  ∃ w',
    generate_in d names g w
    = (Ok (g + length (List.filter (λ f, endswith f ".h.in") names)), w')
    ∧ fetched w' = fetched w ∧ report w' = report w
    ∧ (∀ f t, f ∈ names → endswith f ".h.in" = true →
              fs w !! (d ++ [f]) = Some (File t) →
              fs w' !! strip_in (d ++ [f]) = Some (File (render WIN_SUBS t)))
    ∧ (∀ q, (∀ f, f ∈ names → endswith f ".h.in" = true →
                  q ≠ strip_in (d ++ [f])) →
            fs w' !! q = fs w !! q).
Proof.
  intros Hd Hnd. revert g w Hd.
  induction Hnd as [|f rest Hf Hnd IH]; intros g w Hd Hsrc Hdst.
  - exists w. simpl. rewrite Nat.add_0_r. repeat split; try done.
    by intros f t ?%elem_of_nil.
  - cbn [generate_in List.filter]. destruct (endswith f ".h.in") eqn:Hend.
    + destruct (Hsrc f) as [t Ht]; [by left | done |].
      assert (fs w !! strip_in (d ++ [f]) ≠ Some Dir) as Hdstf
        by (apply Hdst; [by left | done]).
      set (fs1 := <[strip_in (d ++ [f]) := File (render WIN_SUBS t)]> (fs w)).
      erewrite bind_ok; last by apply generate_h_from_template_ok.
      fold fs1.
      destruct (IH (S g) (set_fs w fs1)) as (w' & Hrun & Hfe & Hre & Hpost & Hframe).
      * simpl. unfold fs1. by rewrite isdir_insert_file.
      * intros f' Hin Hend'. destruct (Hsrc f') as [t' Ht']; [by right | done |].
        exists t'. simpl. unfold fs1. rewrite lookup_insert_ne; [done |].
        by apply header_ne_template.
      * intros f' Hin Hend'. simpl. unfold fs1.
        destruct (decide (strip_in (d ++ [f]) = strip_in (d ++ [f']))) as [<- | Hne].
        -- by rewrite lookup_insert_eq.
        -- rewrite lookup_insert_ne by done. apply Hdst; [by right | done].
      * exists w'. rewrite Hrun. simpl length.
        split; [do 2 f_equal; lia |]. split; [done |]. split; [done |]. split.
        -- intros f' t' [-> | Hin]%elem_of_cons Hend' Ht'.
           ++ rewrite Hframe; simpl.
              ** unfold fs1. rewrite lookup_insert_eq. congruence.
              ** intros f'' Hin Hend'' Heq%strip_in_inj; [| done | done].
                 by subst.
           ++ apply Hpost; [done | done |]. simpl. unfold fs1.
              rewrite lookup_insert_ne; [done |]. by apply header_ne_template.
        -- intros q Hq. rewrite Hframe; simpl.
           ++ unfold fs1. rewrite lookup_insert_ne; [done |].
              intros <-. by apply (Hq f); [left | |].
           ++ intros f' Hin. apply Hq. by right.
    + destruct (IH g w) as (w' & Hrun & Hfe & Hre & Hpost & Hframe); [done | | |].
      * intros f' Hin. apply Hsrc. by right.
      * intros f' Hin. apply Hdst. by right.
      * exists w'. split; [done |]. split; [done |]. split; [done |]. split.
        -- intros f' t' [-> | Hin]%elem_of_cons Hend' Ht'; [congruence |].
           by apply Hpost.
        -- intros q Hq. apply Hframe. intros f' Hin. apply Hq. by right.
Qed.

(** The count of STEP 5 is positive exactly when the directory exists
    and lists a name that ends in [.c]. *)
Lemma c_count_positive (fs : filesystem) (d : path) :
  0 < c_count fs d
  ↔ isdir fs d = true ∧ ∃ f, f ∈ listdir fs d ∧ ends_with f ".c".
Proof.
  unfold c_count. destruct (isdir fs d); [| split; [lia | by intros [? _]]].
  split.
  - intros Hpos. split; [done |].
    destruct (List.filter (λ f, endswith f ".c") (listdir fs d)) as [|f l] eqn:Hf;
      [simpl in Hpos; lia |].
    assert (In f (List.filter (λ f, endswith f ".c") (listdir fs d))) as Hin
      by (rewrite Hf; by left).
    apply filter_In in Hin as [Hin Hc]. exists f.
    split; [by apply list_elem_of_In | by apply endswith_spec].
  - intros [_ (f & Hin & Hc)].
    assert (In f (List.filter (λ f, endswith f ".c") (listdir fs d))) as Hf.
    { apply filter_In. split; [by apply list_elem_of_In | by apply endswith_spec]. }
    destruct (List.filter _ _); [done | simpl; lia].
Qed.

Lemma world_eq (w w' : world) :
  fs w' = fs w → fetched w' = fetched w → report w' = report w → w' = w.
Proof. destruct w, w'. simpl. by intros -> -> ->. Qed.

Lemma isdir_lookup_eq (fs fs' : filesystem) (d : path) :
  fs' !! d = fs !! d → isdir fs' d = isdir fs d.
Proof. unfold isdir, node_at. destruct d; [done | by intros ->]. Qed.

Lemma snoc_ne_self (d : path) (f : string) : d ≠ d ++ [f].
Proof.
  intros Heq%(f_equal length). rewrite length_app in Heq. simpl in Heq. lia.
Qed.

(** The inner loop of STEP 2 on the listing of a directory. *)
Lemma generate_in_listdir (d : path) (g : nat) (w : world) :
  isdir (fs w) d = true →
  (∀ f, endswith f ".h.in" = true → fs w !! (d ++ [f]) ≠ Some Dir) →
  (∀ f, endswith f ".h.in" = true → is_Some (fs w !! (d ++ [f])) →
        fs w !! strip_in (d ++ [f]) ≠ Some Dir) →
  ∃ w',
    generate_in d (listdir (fs w) d) g w
    = (Ok (g + length (List.filter (λ f, endswith f ".h.in")
                         (listdir (fs w) d))), w')
    ∧ fetched w' = fetched w ∧ report w' = report w
    ∧ (∀ f t, endswith f ".h.in" = true →
              fs w !! (d ++ [f]) = Some (File t) →
              fs w' !! strip_in (d ++ [f]) = Some (File (render WIN_SUBS t)))
    ∧ (∀ q, (∀ f, endswith f ".h.in" = true → is_Some (fs w !! (d ++ [f])) →
                  q ≠ strip_in (d ++ [f])) →
            fs w' !! q = fs w !! q).
Proof.
  intros Hd Hsrc Hdst.
  destruct (generate_in_ok d (listdir (fs w) d) g w)
    as (w' & Hrun & Hfe & Hre & Hpost & Hframe).
  - done.
  - apply NoDup_listdir.
  - intros f [x Hx]%listdir_spec Hend.
    destruct x as [t|]; [by exists t | by destruct (Hsrc f Hend)].
  - intros f Hin%listdir_spec Hend. by apply Hdst.
  - exists w'. split; [done |]. split; [done |]. split; [done |]. split.
    + intros f t Hend Ht. apply Hpost; [| done | done].
      apply listdir_spec. by rewrite Ht.
    + intros q Hq. apply Hframe. intros f Hin%listdir_spec Hend. by apply Hq.
Qed.

Lemma write_file_no_parent (fs : filesystem) (d : path) (f c : string) :
  isdir fs d = false → write_file fs (d ++ [f]) c = inl OSError.
Proof.
  intros Hd. unfold write_file. pose proof (snoc_not_nil d f) as Hne.
  destruct (d ++ [f]) as [|x p] eqn:Hp; [done |].
  rewrite <- Hp. by rewrite parent_snoc, Hd.
Qed.

(** Running the inner loop of STEP 2 again, on the new listing, leaves the
    world as the first run left it. *)
Lemma generate_in_again (d : path) (g g' : nat) (w : world) :
  isdir (fs w) d = true →
  (∀ f, endswith f ".h.in" = true → fs w !! (d ++ [f]) ≠ Some Dir) →
  (∀ f, endswith f ".h.in" = true → is_Some (fs w !! (d ++ [f])) →
        fs w !! strip_in (d ++ [f]) ≠ Some Dir) →
  ∃ n n' w',
    generate_in d (listdir (fs w) d) g w = (Ok n, w')
    ∧ generate_in d (listdir (fs w') d) g' w' = (Ok n', w').
Proof.
  intros Hd Hsrc Hdst.
  destruct (generate_in_listdir d g w Hd Hsrc Hdst)
    as (w' & Hrun & Hfe & Hre & Hpost & Hframe).
  assert (∀ f, endswith f ".h.in" = true →
               fs w' !! (d ++ [f]) = fs w !! (d ++ [f])) as Hkeep.
  { intros f Hend. apply Hframe. intros f' Hend' _ Heq.
    by apply (header_ne_template d f' f). }
  assert (∀ f, endswith f ".h.in" = true → is_Some (fs w' !! (d ++ [f])) →
               ∃ t, fs w !! (d ++ [f]) = Some (File t)
                    ∧ fs w' !! strip_in (d ++ [f])
                      = Some (File (render WIN_SUBS t))) as Hdone.
  { intros f Hend [x Hx]. rewrite Hkeep in Hx by done.
    destruct x as [t|]; [| by destruct (Hsrc f Hend)].
    exists t. split; [done |]. by apply Hpost. }
  destruct (generate_in_listdir d g' w') as (w2 & Hrun2 & Hfe2 & Hre2 & Hpost2 & Hframe2).
  - rewrite <- Hd. apply isdir_lookup_eq, Hframe.
    intros f Hend _ Heq. rewrite strip_in_snoc in Heq.
    by apply snoc_ne_self in Heq.
  - intros f Hend. rewrite Hkeep by done. by apply Hsrc.
  - intros f Hend Hsome. destruct (Hdone f Hend Hsome) as (t & _ & ->). done.
  - eexists _, _, w'. split; [exact Hrun |]. rewrite Hrun2. f_equal.
    apply world_eq; [| congruence | congruence].
    apply map_eq. intros q.
    destruct (decide (Exists (λ f, endswith f ".h.in" = true
                                   ∧ q = strip_in (d ++ [f]))
                        (listdir (fs w') d)))
      as [(f & Hin%listdir_spec & Hend & ->)%Exists_exists | Hnone].
    + destruct (Hdone f Hend Hin) as (t & Ht & Hh). rewrite Hh.
      apply Hpost2; [done |]. by rewrite Hkeep.
    + apply Hframe2. intros f Hend Hsome ->. apply Hnone, Exists_exists.
      exists f. split; [by apply listdir_spec | done].
Qed.

End GenerateFacts.

Module RunFacts.
Import FS FSFacts Str StrSpec StrFacts ExtractFacts AcquireFacts MainFacts
  TemplateFacts MoreStrFacts GenerateFacts.

(** *** Statements that request nothing *)

Lemma fetches_nothing_bind {A B : Type} (m : M A) (f : A → M B) :
  fetches_nothing m → (∀ a, fetches_nothing (f a)) →
  fetches_nothing (m ≫= f).
Proof.
  intros Hm Hf w. unfold mbind, M_bind. specialize (Hm w).
  destruct (m w) as [[a | n | e] w1]; simpl in *; [| done | done].
  by rewrite Hf.
Qed.

Lemma fetches_nothing_ret {A : Type} (a : A) : fetches_nothing (mret a : M A).
Proof. done. Qed.

Lemma fetches_nothing_exit {A : Type} (n : nat) : fetches_nothing (@sys_exit A n).
Proof. done. Qed.

Lemma fetches_nothing_get_fs : fetches_nothing get_fs.
Proof. done. Qed.

Lemma fetches_nothing_update_fs (f : filesystem → exn + filesystem) :
  fetches_nothing (update_fs f).
Proof. intros w. unfold update_fs. by destruct (f (fs w)). Qed.

Lemma fetches_nothing_read_text (p : path) : fetches_nothing (read_text p).
Proof. intros w. unfold read_text. by destruct (read_file (fs w) p). Qed.

Lemma fetches_nothing_print (l : report_line) : fetches_nothing (print_report l).
Proof. done. Qed.

Lemma fetches_nothing_generate_h (src : path) (subs : list (string * string)) :
  fetches_nothing (generate_h_from_template src subs).
Proof.
  unfold generate_h_from_template.
  apply fetches_nothing_bind; [apply fetches_nothing_read_text |]. intros t.
  apply fetches_nothing_bind; [apply fetches_nothing_update_fs |]. intros _.
  apply fetches_nothing_ret.
Qed.

Lemma fetches_nothing_generate_in (d : path) (names : list string) (g : nat) :
  fetches_nothing (generate_in d names g).
Proof.
  revert g. induction names as [|f rest IH]; intros g; cbn [generate_in].
  - apply fetches_nothing_ret.
  - destruct (endswith f ".h.in"); [| apply IH].
    apply fetches_nothing_bind; [apply fetches_nothing_generate_h |].
    intros _. apply IH.
Qed.

Lemma fetches_nothing_generate_all (dirs : list path) (g : nat) :
  fetches_nothing (generate_all dirs g).
Proof.
  revert g. induction dirs as [|d rest IH]; intros g; cbn [generate_all].
  - apply fetches_nothing_ret.
  - apply fetches_nothing_bind; [apply fetches_nothing_get_fs |]. intros fs0.
    destruct (isdir fs0 d); [| apply IH].
    apply fetches_nothing_bind; [apply fetches_nothing_generate_in |].
    intros g'. apply IH.
Qed.

Lemma fetches_nothing_setup_cfg (root : path) :
  fetches_nothing (generate_setup_cfg root).
Proof.
  unfold generate_setup_cfg.
  apply fetches_nothing_bind; [apply fetches_nothing_get_fs |]. intros fs0.
  destruct (exists_ fs0 (root ++ ["setup.cfg.in"])).
  - apply fetches_nothing_bind; [apply fetches_nothing_read_text |]. intros t.
    apply fetches_nothing_update_fs.
  - apply fetches_nothing_update_fs.
Qed.

Lemma fetches_nothing_verification (root : path) :
  fetches_nothing (verification root).
Proof. intros w. by rewrite verification_spec. Qed.

Section Run.

Variable urlopen : string → option string.
Variable ZipFile : string → option archive.

(** The loop of STEP 1 requests the archives of some of the libraries, in
    the order of the list, each at most once, and nothing else. *)
Lemma acquire_fetched (root : path) (libs failed : list string) (w : world) :
  ∃ l, l `sublist_of` libs
       ∧ fetched (acquire urlopen ZipFile root libs failed w).2
         = fetched w ++ map GITHUB_ZIP_URL l.
Proof.
  revert failed w. induction libs as [|lib rest IH]; intros failed w.
  - exists []. split; [done |]. simpl. by rewrite app_nil_r.
  - cbn [acquire]. unfold mbind, M_bind.
    destruct (if isdir (fs w) (root ++ [lib])
                   && any_endswith (fs w) (root ++ [lib]) ".c"
              then any_endswith (fs w) (root ++ [lib]) ".h.in" else false)
      eqn:Htest.
    + apply complete_test_spec in Htest.
      rewrite (acquire_lib_complete urlopen ZipFile root lib failed w Htest).
      destruct (IH failed w) as (l & Hl & Hf). exists l.
      split; [by apply sublist_cons | done].
    + assert (fetched (acquire_lib urlopen ZipFile root lib failed w).2
              = fetched w ++ [GITHUB_ZIP_URL lib]) as Hone.
      { apply acquire_lib_incomplete. rewrite <- complete_test_spec. congruence. }
      destruct (acquire_lib urlopen ZipFile root lib failed w)
        as [[failed' | k | e] w1]; simpl in Hone.
      * destruct (IH failed' w1) as (l & Hl & Hf). exists (lib :: l).
        split; [by apply sublist_skip |].
        rewrite Hf, Hone, <- app_assoc. done.
      * exists [lib]. split; [| done]. apply sublist_skip, sublist_nil_l.
      * exists [lib]. split; [| done]. apply sublist_skip, sublist_nil_l.
Qed.

(** The whole run requests no more than the loop of STEP 1. *)
Lemma main_fetched (script_dir cwd : path) (w : world) :
  ∃ l, l `sublist_of` DEPENDENCY_LIBS
       ∧ fetched (main urlopen ZipFile script_dir cwd w).2
         = fetched w ++ map GITHUB_ZIP_URL l.
Proof.
  unfold main. unfold mbind at 1. unfold M_bind at 1.
  destruct (find_root script_dir cwd w) as [[root | k | e] w0] eqn:Hroot.
  - apply find_root_inv in Hroot as [-> _].
    unfold mbind at 1. unfold M_bind at 1.
    destruct (acquire_fetched root DEPENDENCY_LIBS [] w) as (l & Hl & Hf).
    exists l. split; [done |].
    destruct (acquire urlopen ZipFile root DEPENDENCY_LIBS [] w)
      as [[failed | k | e] w1]; simpl in Hf; [| done | done].
    destruct failed; [| done]. rewrite <- Hf.
    apply (fetches_nothing_bind (generate_all (scan_dirs root) 0));
      [apply fetches_nothing_generate_all |]. intros _.
    apply fetches_nothing_bind; [apply fetches_nothing_setup_cfg |]. intros _.
    apply fetches_nothing_bind; [apply fetches_nothing_update_fs |]. intros _.
    apply fetches_nothing_verification.
  - exists []. split; [apply sublist_nil_l |]. simpl. rewrite app_nil_r.
    revert Hroot. unfold find_root, mbind, M_bind, get_fs.
    destruct (exists_ (fs w) (script_dir ++ ["setup.py"])) eqn:Hs.
    + by rewrite Hs.
    + destruct (exists_ (fs w) (cwd ++ ["setup.py"])); [done | by intros [= _ <-]].
  - exfalso. revert Hroot. unfold find_root, mbind, M_bind, get_fs.
    destruct (exists_ (fs w) (script_dir ++ ["setup.py"])) eqn:Hs.
    + by rewrite Hs.
    + by destruct (exists_ (fs w) (cwd ++ ["setup.py"])).
Qed.

(** An iteration records the library only after it has requested it. *)
Lemma acquire_lib_failed_inv (root : path) (lib : string)
    (failed failed' : list string) (w w' : world) :
  acquire_lib urlopen ZipFile root lib failed w = (Ok failed', w') →
  failed' = failed
  ∨ (failed' = failed ++ [lib] ∧ GITHUB_ZIP_URL lib ∈ fetched w').
Proof.
  intros Hrun.
  destruct (if isdir (fs w) (root ++ [lib])
                 && any_endswith (fs w) (root ++ [lib]) ".c"
            then any_endswith (fs w) (root ++ [lib]) ".h.in" else false)
    eqn:Htest.
  - apply complete_test_spec in Htest.
    rewrite acquire_lib_complete in Hrun by done. left. congruence.
  - assert (GITHUB_ZIP_URL lib ∈ fetched w') as Hin.
    { pose proof (acquire_lib_incomplete urlopen ZipFile root lib failed w) as Hf.
      rewrite Hrun in Hf. simpl in Hf. rewrite Hf.
      - apply elem_of_app. right. by left.
      - rewrite <- complete_test_spec. congruence. }
    revert Hrun. unfold acquire_lib. unfold mbind at 1. unfold M_bind, get_fs.
    rewrite Htest. unfold mbind at 1. unfold M_bind.
    destruct (download_zip urlopen (GITHUB_ZIP_URL lib) lib w)
      as [[data | k | e] w1]; [| done | done].
    destruct (nonempty data).
    + unfold mbind, M_bind.
      destruct (extract_lib_sources ZipFile data lib (root ++ [lib]) w1)
        as [[n | k | e] w2]; [| done | done].
      destruct (Nat.eqb n 0); intros [= <- _]; [by right | by left].
    + intros [= <- _]. by right.
Qed.

Lemma acquire_failed_inv (root : path) (libs failed failed' : list string)
    (w w' : world) :
  acquire urlopen ZipFile root libs failed w = (Ok failed', w') →
  ∃ more, failed' = failed ++ more ∧ more `sublist_of` libs
          ∧ ∀ lib, lib ∈ more → GITHUB_ZIP_URL lib ∈ fetched w'.
Proof.
  revert failed w. induction libs as [|lib rest IH]; intros failed w.
  - intros [= <- _]. exists []. split; [by rewrite app_nil_r |].
    split; [done |]. by intros lib ?%elem_of_nil.
  - cbn [acquire]. intros (f1 & w1 & H1 & Hrest)%bind_inv_ok.
    destruct (acquire_fetched root rest f1 w1) as (l & _ & Hf).
    rewrite Hrest in Hf. simpl in Hf.
    apply IH in Hrest as (more & -> & Hsub & Hall).
    apply acquire_lib_failed_inv in H1 as [-> | [-> Hin]].
    + exists more. split; [done |]. split; [by apply sublist_cons | done].
    + exists (lib :: more). split; [by rewrite <- app_assoc |].
      split; [by apply sublist_skip |].
      intros lib' [-> | Hin']%elem_of_cons; [| by apply Hall].
      rewrite Hf. apply elem_of_app. by left.
Qed.

(** An archive that [zipfile] rejects: the exception leaves the loop. *)
Lemma acquire_bad_zip (root : path) (lib data : string)
    (rest failed : list string) (fs1 : filesystem) (w : world) :
  ¬ COMPLETE (fs w) (root ++ [lib]) →
  urlopen (GITHUB_ZIP_URL lib) = Some data → data ≠ "" →
  ZipFile data = None →
  makedirs (fs w) (root ++ [lib]) = inr fs1 →
  acquire urlopen ZipFile root (lib :: rest) failed w
  = (Raise BadZipFile, set_fs (add_fetch w (GITHUB_ZIP_URL lib)) fs1).
Proof.
  rewrite <- complete_test_spec. intros Hc%not_true_is_false Hurl Hne Hzf Hmk.
  cbn [acquire]. unfold mbind at 1. unfold M_bind at 1.
  unfold acquire_lib. unfold mbind at 1. unfold M_bind at 1, get_fs at 1.
  rewrite Hc. unfold mbind at 1. unfold M_bind at 1, download_zip at 1.
  rewrite Hurl. destruct data; [done |]. cbn [nonempty].
  unfold mbind at 1. unfold M_bind at 1. unfold extract_lib_sources.
  unfold mbind at 1. unfold M_bind at 1. unfold update_fs. cbn [fs add_fetch].
  by rewrite Hmk, Hzf.
Qed.

End Run.

(** *** More on the extraction *)

Lemma extract_members_none_wanted (zf : archive) (lib : string) (dest : path)
    (members : list string) (n : nat) (w : world) :
  (∀ m, m ∈ members → member_wanted lib m = false) →
  extract_members zf lib dest members n w = (Ok n, w).
Proof.
  revert n. induction members as [|m rest IH]; intros n Hall; [done |].
  cbn [extract_members]. rewrite (Hall m) by by left.
  apply IH. intros m' Hin. apply Hall. by right.
Qed.

(** Outside the entries of the destination the loop changes nothing,
    however it ends. *)
Lemma extract_members_frame (zf : archive) (lib : string) (dest : path)
    (members : list string) (n : nat) (w : world) (q : path) :
  (∀ f, q ≠ dest ++ [f]) →
  fs (extract_members zf lib dest members n w).2 !! q = fs w !! q.
Proof.
  intros Hq. revert n w. induction members as [|m rest IH]; intros n w; [done |].
  cbn [extract_members]. destruct (member_wanted lib m); [| apply IH].
  destruct (Zip.open zf m) as [c|]; [| done].
  unfold mbind, M_bind, update_fs.
  destruct (write_file (fs w) (dest ++ [basename m]) c) as [e | fs'] eqn:Hw;
    [done |].
  apply write_file_inr in Hw as (-> & _ & _).
  specialize (IH (S n) (set_fs w (<[dest ++ [basename m] := File c]> (fs w)))).
  destruct (extract_members zf lib dest rest (S n) _) as [[a | k | e] w'];
    simpl in *; rewrite IH; by rewrite lookup_insert_ne.
Qed.

Lemma extract_members_report (zf : archive) (lib : string) (dest : path)
    (members : list string) (n : nat) (w : world) :
  report (extract_members zf lib dest members n w).2 = report w.
Proof.
  revert n w. induction members as [|m rest IH]; intros n w; [done |].
  cbn [extract_members]. destruct (member_wanted lib m); [| apply IH].
  destruct (Zip.open zf m) as [c|]; [| done].
  unfold mbind, M_bind, update_fs.
  destruct (write_file (fs w) (dest ++ [basename m]) c) as [e | fs']; [done |].
  specialize (IH (S n) (set_fs w fs')).
  destruct (extract_members zf lib dest rest (S n) (set_fs w fs'))
    as [[a | k | e] w']; done.
Qed.

(** [os.makedirs] changes nothing but the directory and its ancestors. *)
Lemma makedirs_from_frame (fs fs' : filesystem) (above rest q : path) :
  makedirs_from fs above rest = inr fs' →
  (∀ k, 0 < k → q ≠ above ++ take k rest) → fs' !! q = fs !! q.
Proof.
  revert fs above. induction rest as [|c rest IH]; intros fs above; simpl.
  - by intros [= <-].
  - intros Hmk Hq.
    assert (∀ k, 0 < k → q ≠ (above ++ [c]) ++ take k rest) as Hq'.
    { intros k _. rewrite <- app_assoc. apply (Hq (S k)). lia. }
    assert (q ≠ above ++ [c]) as Hqc.
    { specialize (Hq 1 ltac:(lia)). simpl in Hq. by rewrite take_0 in Hq. }
    destruct (fs !! (above ++ [c])) as [[c'|]|] eqn:Hc; [done | |].
    + by apply (IH fs (above ++ [c])).
    + rewrite (IH _ (above ++ [c]) Hmk Hq'). by rewrite lookup_insert_ne.
Qed.

Lemma makedirs_frame (fs fs' : filesystem) (p q : path) :
  makedirs fs p = inr fs' → ¬ q `prefix_of` p → fs' !! q = fs !! q.
Proof.
  intros Hmk Hq. apply (makedirs_from_frame fs fs' [] p q Hmk).
  intros k _ ->. apply Hq. simpl. apply prefix_take.
Qed.

Lemma extract_lib_sources_report (ZipFile : string → option archive)
    (zip_data lib : string) (dest : path) (w : world) :
  report (extract_lib_sources ZipFile zip_data lib dest w).2 = report w.
Proof.
  unfold extract_lib_sources, mbind, M_bind, update_fs.
  destruct (makedirs (fs w) dest) as [e | fs1]; [done |].
  destruct (ZipFile zip_data) as [zf|]; [| done].
  apply (extract_members_report zf lib dest _ 0 (set_fs w fs1)).
Qed.

Lemma extract_lib_sources_frame (ZipFile : string → option archive)
    (zip_data lib : string) (dest q : path) (w : world) :
  ¬ q `prefix_of` dest → (∀ f, q ≠ dest ++ [f]) →
  fs (extract_lib_sources ZipFile zip_data lib dest w).2 !! q = fs w !! q.
Proof.
  intros Hpre Hq. unfold extract_lib_sources, mbind, M_bind, update_fs.
  destruct (makedirs (fs w) dest) as [e | fs1] eqn:Hmk; [done |].
  apply (makedirs_frame _ _ _ q) in Hmk; [| done].
  destruct (ZipFile zip_data) as [zf|]; [| done].
  by rewrite (extract_members_frame zf lib dest _ 0 (set_fs w fs1) q Hq).
Qed.

(** With distinct final components, no wanted member follows another of
    the same final component. *)
Lemma distinct_basenames_last (lib m : string) (l1 l2 : list string) :
  NoDup (basename <$> List.filter (member_wanted lib) (l1 ++ m :: l2)) →
  member_wanted lib m = true →
  ∀ m', m' ∈ l2 → member_wanted lib m' = true → basename m' ≠ basename m.
Proof.
  intros Hnd Hm m' Hin Hm' Heq.
  rewrite List.filter_app in Hnd. cbn [List.filter] in Hnd. rewrite Hm in Hnd.
  rewrite fmap_app in Hnd. apply NoDup_app in Hnd as (_ & _ & Hnd).
  rewrite fmap_cons in Hnd. apply NoDup_cons in Hnd as [Hnot _].
  apply Hnot. rewrite <- Heq. apply list_elem_of_fmap_2.
  apply list_elem_of_In, filter_In. by rewrite <- list_elem_of_In.
Qed.

(** A text without at-sign holds no token that holds one. *)
Lemma apply_subs_no_at (subs : list (string * string)) (content : string) :
  Forall (λ kv, occurs "@" kv.1) subs → ¬ occurs "@" content →
  apply_subs subs content = content.
Proof.
  intros Hk Hc. induction Hk as [|[k v] rest Hat _ IH]; [done |]. simpl in *.
  rewrite replace_absent; [done |]. intros Hocc. apply Hc.
  by apply (occurs_trans "@" k).
Qed.

Lemma find_root_choice (script_dir cwd root : path) (w w' : world) :
  find_root script_dir cwd w = (Ok root, w') →
  root = script_dir ∨ root = cwd.
Proof.
  unfold find_root, mbind, M_bind, get_fs.
  destruct (exists_ (fs w) (script_dir ++ ["setup.py"])) eqn:Hs.
  - rewrite Hs. intros [= <- _]. by left.
  - destruct (exists_ (fs w) (cwd ++ ["setup.py"])); [| done].
    intros [= <- _]. by right.
Qed.

(** What a run that ends normally has gone through. *)
Lemma main_ok_inv (urlopen : string → option string)
    (ZipFile : string → option archive) (script_dir cwd : path) (w w' : world) :
  main urlopen ZipFile script_dir cwd w = (Ok (), w') →
  ∃ root w1 w2 w3 w4 g,
    find_root script_dir cwd w = (Ok root, w)
    ∧ acquire urlopen ZipFile root DEPENDENCY_LIBS [] w = (Ok [], w1)
    ∧ generate_all (scan_dirs root) 0 w1 = (Ok g, w2)
    ∧ generate_setup_cfg root w2 = (Ok (), w3)
    ∧ write_config_h root w3 = (Ok (), w4)
    ∧ verification root w4 = (Ok (), w').
Proof.
  unfold main. intros (root & w0 & Hroot & Hrest)%bind_inv_ok.
  pose proof (find_root_inv _ _ _ _ _ Hroot) as [-> _].
  apply bind_inv_ok in Hrest as (failed & w1 & Hacq & Hrest).
  destruct failed as [|? ?]; [| done].
  apply bind_inv_ok in Hrest as (g & w2 & Hgen & Hrest).
  apply bind_inv_ok in Hrest as ([] & w3 & Hcfg & Hrest).
  apply bind_inv_ok in Hrest as ([] & w4 & Hconf & Hver).
  exists root, w1, w2, w3, w4, g.
  repeat (split; [assumption |]). assumption.
Qed.

End RunFacts.

Module ConfineFacts.
Import FS FSFacts Str StrSpec StrFacts ExtractFacts AcquireFacts MainFacts
  TemplateFacts MoreStrFacts GenerateFacts RunFacts.

Section Confined.

Variable root : path.

Lemma confined_bind {A B : Type} (m : M A) (f : A → M B) :
  confined root m → (∀ a, confined root (f a)) → confined root (m ≫= f).
Proof.
  intros Hm Hf w. unfold mbind, M_bind. destruct (Hm w) as [Hkeep Hout].
  destruct (m w) as [[a | n | e] w1]; simpl in Hkeep, Hout;
    [| split; assumption ..].
  destruct (Hf a w1) as [Hkeep' Hout']. split.
  - intros q Hq. by apply Hkeep', Hkeep.
  - intros Hroot q Hq. rewrite Hout'; [by apply Hout | | done].
    intros k Hk. by apply Hkeep, Hroot.
Qed.

Lemma confined_same {A : Type} (m : M A) :
  (∀ w, fs (m w).2 = fs w) → confined root m.
Proof. intros Hm w. by rewrite Hm. Qed.

Lemma confined_ret {A : Type} (a : A) : confined root (mret a : M A).
Proof. by apply confined_same. Qed.

Lemma confined_exit {A : Type} (n : nat) : confined root (@sys_exit A n).
Proof. by apply confined_same. Qed.

Lemma confined_raise {A : Type} (e : exn) : confined root (@raise A e).
Proof. by apply confined_same. Qed.

Lemma confined_get_fs : confined root get_fs.
Proof. by apply confined_same. Qed.

Lemma confined_read_text (p : path) : confined root (read_text p).
Proof.
  apply confined_same. intros w. unfold read_text.
  by destruct (read_file (fs w) p).
Qed.

Lemma confined_write (p : path) (c : string) :
  root `prefix_of` p → confined root (update_fs (λ fs, write_file fs p c)).
Proof.
  intros Hp w. unfold update_fs.
  destruct (write_file (fs w) p c) as [e | fs'] eqn:Hw; [done |].
  apply write_file_inr in Hw as (-> & _ & _). simpl. split.
  - intros q Hq. destruct (decide (p = q)) as [-> | Hne].
    + by rewrite lookup_insert_eq.
    + by rewrite lookup_insert_ne.
  - intros _ q Hq. rewrite lookup_insert_ne; [done |]. by intros ->.
Qed.

Lemma confined_makedirs (p : path) :
  root `prefix_of` p → confined root (update_fs (λ fs, makedirs fs p)).
Proof.
  intros [t ->] w. unfold update_fs.
  destruct (makedirs (fs w) (root ++ t)) as [e | fs'] eqn:Hmk; [done |].
  simpl. pose proof Hmk as (Hkeep & _ & _)%makedirs_inr. split.
  - intros q [x Hx]. exists x. by apply Hkeep.
  - intros Hroot q Hq. destruct (fs w !! q) as [x|] eqn:Hx.
    + by apply Hkeep.
    + rewrite <- Hx. apply (makedirs_from_frame _ _ [] (root ++ t) q Hmk).
      intros k Hk ->. simpl in *.
      destruct (decide (k ≤ length root)) as [Hle | Hgt].
      * rewrite take_app_le in Hx by done.
        destruct (Hroot k ltac:(lia)) as [y Hy]. congruence.
      * apply Hq. rewrite take_app_ge by lia. by apply prefix_app_r.
Qed.

Lemma confined_extract_members (zf : archive) (lib : string) (dest : path)
    (members : list string) (n : nat) :
  root `prefix_of` dest → confined root (extract_members zf lib dest members n).
Proof.
  intros Hd. revert n.
  induction members as [|m rest IH]; intros n; cbn [extract_members].
  - apply confined_ret.
  - destruct (member_wanted lib m); [| apply IH].
    destruct (Zip.open zf m) as [c|]; [| apply confined_raise].
    apply confined_bind; [| intros _; apply IH].
    apply confined_write. by apply prefix_app_r.
Qed.

Lemma confined_generate_h (d : path) (f : string) (subs : list (string * string)) :
  root `prefix_of` d → confined root (generate_h_from_template (d ++ [f]) subs).
Proof.
  intros Hd. unfold generate_h_from_template. rewrite strip_in_snoc.
  apply confined_bind; [apply confined_read_text |]. intros t.
  apply confined_bind; [| intros _; apply confined_ret].
  apply confined_write. by apply prefix_app_r.
Qed.

Lemma confined_generate_in (d : path) (names : list string) (g : nat) :
  root `prefix_of` d → confined root (generate_in d names g).
Proof.
  intros Hd. revert g. induction names as [|f rest IH]; intros g; cbn [generate_in].
  - apply confined_ret.
  - destruct (endswith f ".h.in"); [| apply IH].
    apply confined_bind; [by apply confined_generate_h |]. intros _. apply IH.
Qed.

Lemma confined_generate_all (dirs : list path) (g : nat) :
  Forall (prefix root) dirs → confined root (generate_all dirs g).
Proof.
  intros Hd. revert g.
  induction Hd as [|d rest Hd _ IH]; intros g; cbn [generate_all].
  - apply confined_ret.
  - apply confined_bind; [apply confined_get_fs |]. intros fs0.
    destruct (isdir fs0 d); [| apply IH].
    apply confined_bind; [by apply confined_generate_in |]. intros g'. apply IH.
Qed.

Lemma scan_dirs_below : Forall (prefix root) (scan_dirs root).
Proof.
  unfold scan_dirs. apply Forall_app. split.
  - apply Forall_forall. intros d (lib & -> & _)%list_elem_of_fmap.
    by apply prefix_app_r.
  - repeat (constructor; [by apply prefix_app_r |]). constructor.
Qed.

Lemma confined_setup_cfg : confined root (generate_setup_cfg root).
Proof.
  unfold generate_setup_cfg.
  apply confined_bind; [apply confined_get_fs |]. intros fs0.
  destruct (exists_ fs0 (root ++ ["setup.cfg.in"])).
  - apply confined_bind; [apply confined_read_text |]. intros t.
    apply confined_write. by apply prefix_app_r.
  - apply confined_write. by apply prefix_app_r.
Qed.

Lemma confined_config_h : confined root (write_config_h root).
Proof. apply confined_write. by apply prefix_app_r. Qed.

Lemma confined_verification : confined root (verification root).
Proof. apply confined_same. intros w. by rewrite verification_spec. Qed.

Variable urlopen : string → option string.
Variable ZipFile : string → option archive.

Lemma confined_download (url lib : string) :
  confined root (download_zip urlopen url lib).
Proof.
  apply confined_same. intros w. unfold download_zip. by destruct (urlopen url).
Qed.

Lemma confined_extract (zip_data lib : string) (dest : path) :
  root `prefix_of` dest →
  confined root (extract_lib_sources ZipFile zip_data lib dest).
Proof.
  intros Hd. unfold extract_lib_sources.
  apply confined_bind; [by apply confined_makedirs |]. intros _.
  destruct (ZipFile zip_data) as [zf|]; [| apply confined_raise].
  by apply confined_extract_members.
Qed.

Lemma confined_acquire_lib (lib : string) (failed : list string) :
  confined root (acquire_lib urlopen ZipFile root lib failed).
Proof.
  unfold acquire_lib.
  apply confined_bind; [apply confined_get_fs |]. intros fs0.
  destruct (if isdir fs0 (root ++ [lib]) && any_endswith fs0 (root ++ [lib]) ".c"
            then any_endswith fs0 (root ++ [lib]) ".h.in" else false);
    [apply confined_ret |].
  apply confined_bind; [apply confined_download |]. intros data.
  destruct (nonempty data); [| apply confined_ret].
  apply confined_bind; [apply confined_extract; by apply prefix_app_r |].
  intros n. destruct (n =? 0); apply confined_ret.
Qed.

Lemma confined_acquire (libs failed : list string) :
  confined root (acquire urlopen ZipFile root libs failed).
Proof.
  revert failed. induction libs as [|lib rest IH]; intros failed; cbn [acquire].
  - apply confined_ret.
  - apply confined_bind; [apply confined_acquire_lib |]. intros failed'. apply IH.
Qed.

Lemma confined_steps :
  confined root
    (failed ← acquire urlopen ZipFile root DEPENDENCY_LIBS [];
     match failed with
     | [] =>
         generate_all (scan_dirs root) 0;;
         generate_setup_cfg root;;
         write_config_h root;;
         verification root
     | _ :: _ => sys_exit 1
     end).
Proof.
  apply confined_bind; [apply confined_acquire |]. intros [|lib failed];
    [| apply confined_exit].
  apply confined_bind; [apply confined_generate_all, scan_dirs_below |]. intros _.
  apply confined_bind; [apply confined_setup_cfg |]. intros _.
  apply confined_bind; [apply confined_config_h |]. intros _.
  apply confined_verification.
Qed.

End Confined.

(** The test of the extraction accepts a final component with a drive
    letter; such a name is not a plain one. *)
Lemma drive_letter_member_wanted :
  member_wanted "x" "t/x/D:evil.c" = true
  ∧ basename "t/x/D:evil.c" = "D:evil.c"
  ∧ plain_name "D:evil.c" = false
  ∧ plain_archive "x" all_libs_zip = false.
Proof. repeat split; vm_compute; reflexivity. Qed.

(** The run is confined to the directory in which it looks for
    [setup.py]. *)
Lemma confined_main (urlopen : string → option string)
    (ZipFile : string → option archive) (script_dir cwd : path) (w : world) :
  let root := if exists_ (fs w) (script_dir ++ ["setup.py"])
              then script_dir else cwd in
  (∀ q, is_Some (fs w !! q)
        → is_Some (fs (main urlopen ZipFile script_dir cwd w).2 !! q))
  ∧ (anchored root (fs w) →
     ∀ q, ¬ root `prefix_of` q
          → fs (main urlopen ZipFile script_dir cwd w).2 !! q = fs w !! q).
Proof.
  intros root.
  assert (main urlopen ZipFile script_dir cwd w
          = if exists_ (fs w) (root ++ ["setup.py"])
            then (failed ← acquire urlopen ZipFile root DEPENDENCY_LIBS [];
                  match failed with
                  | [] =>
                      generate_all (scan_dirs root) 0;;
                      generate_setup_cfg root;;
                      write_config_h root;;
                      verification root
                  | _ :: _ => sys_exit 1
                  end) w
            else (Exit 1, w)) as ->.
  { unfold main, find_root, get_fs, mbind, M_bind. cbv beta. fold root.
    by destruct (exists_ (fs w) (root ++ ["setup.py"])). }
  destruct (exists_ (fs w) (root ++ ["setup.py"])); [| done].
  apply (confined_steps root urlopen ZipFile w).
Qed.

End ConfineFacts.

Module ExitFacts.
Import FS FSFacts Str ExtractFacts MainFacts.

Lemma exits_bind {A B : Type} (m : M A) (f : A → M B) :
  exits_with_one m → (∀ a, exits_with_one (f a)) → exits_with_one (m ≫= f).
Proof.
  intros Hm Hf w n. unfold mbind, M_bind. specialize (Hm w).
  destruct (m w) as [[a | k | e] w1]; simpl in *.
  - apply Hf.
  - intros [= <-]. by apply Hm.
  - done.
Qed.

Lemma exits_ret {A : Type} (a : A) : exits_with_one (mret a : M A).
Proof. by intros w n. Qed.

Lemma exits_raise {A : Type} (e : exn) : exits_with_one (@raise A e).
Proof. by intros w n. Qed.

Lemma exits_get_fs : exits_with_one get_fs.
Proof. by intros w n. Qed.

Lemma exits_update_fs (f : filesystem → exn + filesystem) :
  exits_with_one (update_fs f).
Proof. intros w n. unfold update_fs. by destruct (f (fs w)). Qed.

Lemma exits_read_text (p : path) : exits_with_one (read_text p).
Proof. intros w n. unfold read_text. by destruct (read_file (fs w) p). Qed.

Lemma exits_extract_members (zf : archive) (lib : string) (dest : path)
    (members : list string) (k : nat) :
  exits_with_one (extract_members zf lib dest members k).
Proof.
  revert k. induction members as [|m rest IH]; intros k; cbn [extract_members].
  - apply exits_ret.
  - destruct (member_wanted lib m); [| apply IH].
    destruct (Zip.open zf m) as [c|]; [| apply exits_raise].
    apply exits_bind; [apply exits_update_fs | intros _; apply IH].
Qed.

Lemma exits_generate_in (d : path) (names : list string) (g : nat) :
  exits_with_one (generate_in d names g).
Proof.
  revert g. induction names as [|f rest IH]; intros g; cbn [generate_in].
  - apply exits_ret.
  - destruct (endswith f ".h.in"); [| apply IH].
    apply exits_bind; [| intros _; apply IH]. unfold generate_h_from_template.
    apply exits_bind; [apply exits_read_text |]. intros t.
    apply exits_bind; [apply exits_update_fs | intros _; apply exits_ret].
Qed.

Lemma exits_generate_all (dirs : list path) (g : nat) :
  exits_with_one (generate_all dirs g).
Proof.
  revert g. induction dirs as [|d rest IH]; intros g; cbn [generate_all].
  - apply exits_ret.
  - apply exits_bind; [apply exits_get_fs |]. intros fs0.
    destruct (isdir fs0 d); [| apply IH].
    apply exits_bind; [apply exits_generate_in | intros g'; apply IH].
Qed.

Lemma exits_setup_cfg (root : path) : exits_with_one (generate_setup_cfg root).
Proof.
  unfold generate_setup_cfg.
  apply exits_bind; [apply exits_get_fs |]. intros fs0.
  destruct (exists_ fs0 (root ++ ["setup.cfg.in"])); [| apply exits_update_fs].
  apply exits_bind; [apply exits_read_text |]. intros t. apply exits_update_fs.
Qed.

Lemma exits_verification (root : path) : exits_with_one (verification root).
Proof.
  intros w n. rewrite verification_spec. simpl.
  destruct (_ && _); [done | by intros [= <-]].
Qed.

Section Exits.

Variable urlopen : string → option string.
Variable ZipFile : string → option archive.

Lemma exits_acquire (root : path) (libs failed : list string) :
  exits_with_one (acquire urlopen ZipFile root libs failed).
Proof.
  revert failed. induction libs as [|lib rest IH]; intros failed; cbn [acquire].
  - apply exits_ret.
  - apply exits_bind; [| intros failed'; apply IH]. unfold acquire_lib.
    apply exits_bind; [apply exits_get_fs |]. intros fs0.
    destruct (if isdir fs0 (root ++ [lib]) && any_endswith fs0 (root ++ [lib]) ".c"
              then any_endswith fs0 (root ++ [lib]) ".h.in" else false);
      [apply exits_ret |].
    apply exits_bind.
    { intros w n. unfold download_zip. by destruct (urlopen (GITHUB_ZIP_URL lib)). }
    intros data. destruct (nonempty data); [| apply exits_ret].
    apply exits_bind; [| intros n; destruct (n =? 0); apply exits_ret].
    unfold extract_lib_sources.
    apply exits_bind; [apply exits_update_fs |]. intros _.
    destruct (ZipFile data) as [zf|]; [| apply exits_raise].
    apply exits_extract_members.
Qed.

Lemma exits_main (script_dir cwd : path) :
  exits_with_one (main urlopen ZipFile script_dir cwd).
Proof.
  unfold main. apply exits_bind.
  { unfold find_root. apply exits_bind; [apply exits_get_fs |]. intros fs0.
    destruct (exists_ fs0 _); [apply exits_ret | by intros w n [= <-]]. }
  intros root. apply exits_bind; [apply exits_acquire |].
  intros [|lib failed]; [| by intros w n [= <-]].
  apply exits_bind; [apply exits_generate_all |]. intros _.
  apply exits_bind; [apply exits_setup_cfg |]. intros _.
  apply exits_bind; [apply exits_update_fs |]. intros _.
  apply exits_verification.
Qed.

End Exits.

End ExitFacts.

(** * Further properties of the script *)

Import MoreStrFacts GenerateFacts RunFacts ConfineFacts ExitFacts.

(** X1. [member.split("/")]: joining the components with the separator
    gives the text back, there is at least one component, and no component
    holds the separator; conversely a non-empty list of components without
    separator is what the split of their join gives. *)
Theorem split_round_trip (sep : ascii) :
  (∀ s, String.concat (String sep "") (Str.split sep s) = s
        ∧ Str.split sep s ≠ []
        ∧ Forall (λ part, ¬ occurs (String sep "") part) (Str.split sep s))
  ∧ (∀ parts,
       parts ≠ [] →
       Forall (λ part, ¬ occurs (String sep "") part) parts →
       Str.split sep (String.concat (String sep "") parts) = parts).
Proof.
  split.
  - intros s. split; [apply split_concat |]. split; [apply split_nonempty |].
    eapply Forall_impl; [apply split_no_sep |].
    intros part Hpart (p & q & ->). by apply (Hpart p q).
  - apply split_of_concat.
Qed.

Lemma split_round_trip_witness :
  Str.split "/" (String.concat "/" ["x-main"; "x"; "a.c"]) = ["x-main"; "x"; "a.c"].
Proof.
  apply (proj2 (split_round_trip "/")); [discriminate |].
  repeat (constructor; [by apply not_occurs_char |]). constructor.
Defined.

(** X2. A member name that ends in [/], as the directory entries of an
    archive do, is never extracted, whatever the library: its last
    component is empty. *)
Theorem directory_entries_not_wanted (lib p : string) :
  member_wanted lib (p +:+ "/") = false.
Proof.
  unfold member_wanted.
  destruct (split_trailing_sep "/" p) as (h & init & ->).
  change (h :: init ++ [""]) with ((h :: init) ++ [""]).
  rewrite last_snoc. simpl. by rewrite andb_false_r.
Qed.

(** X3. The test on a member accepts any nesting below the library
    directory: a name [top/lib/d1/.../dn/f], with [n] from 0 on, is
    extracted when [f] is not empty and ends in [.c], [.h] or [.h.in] or
    is [Makefile.am]. *)
Theorem any_depth_wanted (top lib f : string) (dirs : list string) :
  Forall (λ part, ¬ occurs "/" part) (top :: lib :: dirs ++ [f]) →
  f ≠ "" →
  ends_with f ".c" ∨ ends_with f ".h" ∨ ends_with f ".h.in" ∨ f = "Makefile.am" →
  member_wanted lib (String.concat "/" (top :: lib :: dirs ++ [f])) = true
  ∧ basename (String.concat "/" (top :: lib :: dirs ++ [f])) = f.
Proof.
  intros Hparts Hne Hsuf.
  assert (Str.split "/" (String.concat "/" (top :: lib :: dirs ++ [f]))
          = top :: lib :: dirs ++ [f]) as Hsplit
    by (by apply split_of_concat).
  split.
  - apply member_wanted_rule. unfold kept_by_rule. rewrite Hsplit.
    split; [simpl; rewrite length_app; simpl; lia |]. split; [done |]. exists f.
    change (top :: lib :: dirs ++ [f]) with ((top :: lib :: dirs) ++ [f]).
    by rewrite last_snoc.
  - unfold basename. rewrite Hsplit.
    change (top :: lib :: dirs ++ [f]) with ((top :: lib :: dirs) ++ [f]).
    by rewrite last_snoc.
Qed.

Lemma any_depth_wanted_witness :
  member_wanted "x" "x-main/x/sub/deeper/b.c" = true
  ∧ basename "x-main/x/sub/deeper/b.c" = "b.c".
Proof.
  apply (any_depth_wanted "x-main" "x" "b.c" ["sub"; "deeper"]).
  - repeat (constructor; [by apply not_occurs_char |]). constructor.
  - discriminate.
  - left. by exists "b".
Defined.

(** X4. The header of a template [p.h.in] in a directory is [p.h] in the
    same directory; it is not a template itself, so generation never
    overwrites a template and never takes its own output for one; and
    two templates have two headers. *)
Theorem header_path_of_template (d : path) (p : string) :
  strip_in (d ++ [p +:+ ".h.in"]) = d ++ [p +:+ ".h"]
  ∧ Str.endswith (p +:+ ".h") ".h.in" = false
  ∧ (∀ p', strip_in (d ++ [p' +:+ ".h.in"]) = strip_in (d ++ [p +:+ ".h.in"])
           → p' = p).
Proof.
  assert (∀ q, strip_in (d ++ [q +:+ ".h.in"]) = d ++ [q +:+ ".h"]) as Hstrip.
  { intros q. by rewrite strip_in_snoc, strip_template_name. }
  split; [apply Hstrip |]. split; [apply header_not_template |].
  intros p'. rewrite !Hstrip. intros Heq%app_inv_head. injection Heq as Heq.
  by apply str_app_inv_tail in Heq.
Qed.

(** X5. STEP 2 in one directory: when the directory exists, no entry
    named like a template is a directory and no header of a template is a
    directory, the loop over the listing completes, counts the templates,
    writes next to each template the header with the substituted text,
    and changes no other path: the templates stay as they are. *)
Theorem headers_generated (d : path) (g : nat) (w : world) :
  isdir (fs w) d = true →
  (∀ f, ends_with f ".h.in" → fs w !! (d ++ [f]) ≠ Some Dir) →
  (∀ f, ends_with f ".h.in" → is_Some (fs w !! (d ++ [f])) →
        fs w !! strip_in (d ++ [f]) ≠ Some Dir) →
  ∃ w',
    generate_in d (listdir (fs w) d) g w
    = (Ok (g + length (List.filter (λ f, Str.endswith f ".h.in")
                         (listdir (fs w) d))), w')
    ∧ (∀ f t, ends_with f ".h.in" →
              fs w !! (d ++ [f]) = Some (File t) →
              fs w' !! strip_in (d ++ [f]) = Some (File (render WIN_SUBS t)))
    ∧ (∀ q, (∀ f, ends_with f ".h.in" → is_Some (fs w !! (d ++ [f])) →
                  q ≠ strip_in (d ++ [f])) →
            fs w' !! q = fs w !! q)
    ∧ (∀ f, ends_with f ".h.in" → fs w' !! (d ++ [f]) = fs w !! (d ++ [f])).
Proof.
  intros Hd Hsrc Hdst.
  destruct (generate_in_listdir d g w) as (w' & Hrun & _ & _ & Hpost & Hframe).
  - done.
  - intros f Hend%endswith_spec. by apply Hsrc.
  - intros f Hend%endswith_spec. by apply Hdst.
  - exists w'. split; [done |]. split; [| split].
    + intros f t Hend%endswith_spec. by apply Hpost.
    + intros q Hq. apply Hframe. intros f Hend%endswith_spec. by apply Hq.
    + intros f Hend%endswith_spec. apply Hframe. intros f' Hend' _ Heq.
      by apply (header_ne_template d f' f).
Qed.

Lemma template_world_dirs (q : path) :
  fs template_world !! q = Some Dir → length q ≤ 2.
Proof.
  unfold template_world. cbn [fs].
  intros [[_ [=]] | [_ H]]%lookup_insert_Some.
  apply lookup_insert_Some in H as [[<- _] | [_ H]]; [simpl; lia |].
  apply lookup_singleton_Some in H as [<- _]. simpl. lia.
Qed.

Lemma headers_generated_witness :
  ∃ w', generate_in ["r"; "common"] (listdir (fs template_world) ["r"; "common"])
          0 template_world = (Ok 1, w')
        ∧ fs w' !! ["r"; "common"; "types.h"]
          = Some (File "#define V 20250101 0").
Proof.
  destruct (headers_generated ["r"; "common"] 0 template_world)
    as (w' & Hrun & Hpost & _).
  - reflexivity.
  - intros f _ Hdir%template_world_dirs. simpl in Hdir. lia.
  - intros f _ _ Hdir%template_world_dirs. rewrite strip_in_snoc in Hdir.
    simpl in Hdir. lia.
  - exists w'. split; [exact Hrun |].
    apply (Hpost "types.h.in" "#define V @VERSION@ @X@"); [by exists "types" | done].
Defined.

(** X6. Generating the headers of a directory a second time, on the
    listing that now holds the headers too, completes and leaves the
    world exactly as the first generation left it. *)
Theorem regeneration_changes_nothing (d : path) (g g' : nat) (w : world) :
  isdir (fs w) d = true →
  (∀ f, ends_with f ".h.in" → fs w !! (d ++ [f]) ≠ Some Dir) →
  (∀ f, ends_with f ".h.in" → is_Some (fs w !! (d ++ [f])) →
        fs w !! strip_in (d ++ [f]) ≠ Some Dir) →
  ∃ n n' w',
    generate_in d (listdir (fs w) d) g w = (Ok n, w')
    ∧ generate_in d (listdir (fs w') d) g' w' = (Ok n', w').
Proof.
  intros Hd Hsrc Hdst. apply generate_in_again; [done | |].
  - intros f Hend%endswith_spec. by apply Hsrc.
  - intros f Hend%endswith_spec. by apply Hdst.
Qed.

Lemma regeneration_changes_nothing_witness :
  ∃ n n' w',
    generate_in ["r"; "common"] (listdir (fs template_world) ["r"; "common"])
      0 template_world = (Ok n, w')
    ∧ generate_in ["r"; "common"] (listdir (fs w') ["r"; "common"]) 0 w'
      = (Ok n', w').
Proof.
  apply (regeneration_changes_nothing ["r"; "common"] 0 0 template_world).
  - reflexivity.
  - intros f _ Hdir%template_world_dirs. simpl in Hdir. lia.
  - intros f _ _ Hdir%template_world_dirs. rewrite strip_in_snoc in Hdir.
    simpl in Hdir. lia.
Defined.

(** X7. A template that is not a regular file cannot be read:
    [generate_h_from_template] raises and writes nothing, and the loop of
    STEP 2 stops at it without looking at the names after it. *)
Theorem unreadable_template_raises
    (d : path) (f : string) (subs : list (string * string)) (w : world) :
  (∀ t, fs w !! (d ++ [f]) ≠ Some (File t)) →
  generate_h_from_template (d ++ [f]) subs w = (Raise OSError, w)
  ∧ (ends_with f ".h.in" →
     ∀ rest g, generate_in d (f :: rest) g w = (Raise OSError, w)).
Proof.
  intros Hno.
  assert (∀ subs', generate_h_from_template (d ++ [f]) subs' w = (Raise OSError, w))
    as Hraise.
  { intros subs'. unfold generate_h_from_template, mbind, M_bind, read_text,
      FS.read_file. rewrite node_at_snoc.
    destruct (fs w !! (d ++ [f])) as [[t|]|] eqn:Hf; [by destruct (Hno t) | done | done]. }
  split; [apply Hraise |].
  intros Hend%endswith_spec rest g. cbn [generate_in]. rewrite Hend.
  unfold mbind, M_bind. by rewrite Hraise.
Qed.

Lemma unreadable_template_raises_witness :
  generate_in ["r"; "common"] ["types.h.in"; "other.h.in"] 0 odd_template_world
  = (Raise OSError, odd_template_world).
Proof.
  apply (proj2 (unreadable_template_raises ["r"; "common"] "types.h.in" []
                  odd_template_world ltac:(discriminate))).
  by exists "types".
Defined.

(** X8. STEP 4 does not create [common]: when [common] is not a directory
    of the project the step raises and writes nothing; when it is, and
    [config.h] is not a directory, the step writes the fixed text to
    [common/config.h], whatever was there, and changes nothing else. *)
Theorem config_h_needs_common (root : path) (w : world) :
  (isdir (fs w) (root ++ ["common"]) = false →
   write_config_h root w = (Raise OSError, w))
  ∧ (isdir (fs w) (root ++ ["common"]) = true →
     fs w !! (root ++ ["common"; "config.h"]) ≠ Some Dir →
     write_config_h root w
     = (Ok (), set_fs w (<[root ++ ["common"; "config.h"] := File CONFIG_H]> (fs w)))).
Proof.
  assert (root ++ ["common"; "config.h"] = (root ++ ["common"]) ++ ["config.h"])
    as Hpath by (by rewrite <- app_assoc).
  unfold write_config_h, update_fs. rewrite Hpath. split.
  - intros Hd. by rewrite write_file_no_parent.
  - intros Hd Hf. by rewrite write_file_ok.
Qed.

Lemma config_h_needs_common_witness :
  write_config_h ["r"] fresh_world = (Raise OSError, fresh_world)
  ∧ ∃ w', write_config_h ["r"] template_world = (Ok (), w')
          ∧ fs w' !! ["r"; "common"; "config.h"] = Some (File CONFIG_H).
Proof.
  split.
  - apply (proj1 (config_h_needs_common ["r"] fresh_world)). reflexivity.
  - eexists. split.
    + apply (proj2 (config_h_needs_common ["r"] template_world));
        [reflexivity | discriminate].
    + reflexivity.
Defined.

(** X9. A run requests the archives of some of the libraries of
    [DEPENDENCY_LIBS], in the order of that list, each at most once, and
    requests nothing else, however the run ends; the same holds for the
    loop of STEP 1 over any list of libraries. *)
Theorem requests_follow_the_list :
  (∀ urlopen ZipFile root libs failed w,
     ∃ l, l `sublist_of` libs
          ∧ fetched (acquire urlopen ZipFile root libs failed w).2
            = fetched w ++ map GITHUB_ZIP_URL l)
  ∧ (∀ urlopen ZipFile script_dir cwd w,
       ∃ l, l `sublist_of` DEPENDENCY_LIBS
            ∧ fetched (main urlopen ZipFile script_dir cwd w).2
              = fetched w ++ map GITHUB_ZIP_URL l).
Proof. split; [apply acquire_fetched | apply main_fetched]. Qed.

(** X10. When the loop of STEP 1 completes, the libraries it has added to
    [failed] are libraries of its list, in the order of the list, and
    each of them has been requested. *)
Theorem failed_only_after_request
    (urlopen : string → option string) (ZipFile : string → option archive)
    (root : path) (libs failed failed' : list string) (w w' : world) :
  acquire urlopen ZipFile root libs failed w = (Ok failed', w') →
  ∃ more, failed' = failed ++ more ∧ more `sublist_of` libs
          ∧ ∀ lib, lib ∈ more → GITHUB_ZIP_URL lib ∈ fetched w'.
Proof. apply acquire_failed_inv. Qed.

Lemma failed_only_after_request_witness :
  ∃ more, ["x"; "y"] = [] ++ more ∧ more `sublist_of` ["x"; "y"]
          ∧ ∀ lib, lib ∈ more →
                   GITHUB_ZIP_URL lib
                   ∈ fetched (World (fs project_world)
                                (map GITHUB_ZIP_URL ["x"; "y"]) []).
Proof.
  apply (failed_only_after_request (λ _, None) (λ _, None) ["r"] ["x"; "y"]
           [] ["x"; "y"] project_world).
  reflexivity.
Defined.

(** X11. An archive that [zipfile] cannot decode is not recorded in
    [failed]: the exception leaves the loop of STEP 1 at that library,
    after its directory has been created, and the libraries after it are
    not requested. *)
Theorem bad_zip_leaves_the_loop
    (urlopen : string → option string) (ZipFile : string → option archive)
    (root : path) (lib data : string) (rest failed : list string)
    (fs1 : filesystem) (w : world) :
  ¬ COMPLETE (fs w) (root ++ [lib]) →
  urlopen (GITHUB_ZIP_URL lib) = Some data → data ≠ "" →
  ZipFile data = None →
  makedirs (fs w) (root ++ [lib]) = inr fs1 →
  acquire urlopen ZipFile root (lib :: rest) failed w
  = (Raise BadZipFile, set_fs (add_fetch w (GITHUB_ZIP_URL lib)) fs1)
  ∧ isdir fs1 (root ++ [lib]) = true.
Proof.
  intros Hc Hurl Hne Hzf Hmk.
  split; [by apply (acquire_bad_zip urlopen ZipFile root lib data) |].
  by apply makedirs_inr in Hmk as (_ & _ & Hd).
Qed.

Lemma bad_zip_leaves_the_loop_witness :
  acquire (λ _, Some "not a zip") (λ _, None) ["r"] ["x"; "y"] [] project_world
  = (Raise BadZipFile,
     set_fs (add_fetch project_world (GITHUB_ZIP_URL "x"))
       (<[ ["r"; "x"] := Dir ]> (fs project_world)))
  ∧ isdir (<[ ["r"; "x"] := Dir ]> (fs project_world)) ["r"; "x"] = true.
Proof.
  apply (bad_zip_leaves_the_loop (λ _, Some "not a zip") (λ _, None) ["r"] "x"
           "not a zip" ["y"] [] (<[ ["r"; "x"] := Dir ]> (fs project_world))
           project_world);
    [| reflexivity | discriminate | reflexivity | reflexivity].
  rewrite <- complete_test_spec. discriminate.
Defined.

(** X12. An archive in which no member is wanted: the download succeeds,
    the directory of the library is created, nothing is written into it,
    and the library is recorded in [failed]. *)
Theorem nothing_wanted_is_a_failure
    (urlopen : string → option string) (ZipFile : string → option archive)
    (root : path) (lib data : string) (zf : archive) (failed : list string)
    (fs1 : filesystem) (w : world) :
  ¬ COMPLETE (fs w) (root ++ [lib]) →
  urlopen (GITHUB_ZIP_URL lib) = Some data → data ≠ "" →
  ZipFile data = Some zf →
  (∀ m, m ∈ Zip.namelist zf → member_wanted lib m = false) →
  makedirs (fs w) (root ++ [lib]) = inr fs1 →
  acquire_lib urlopen ZipFile root lib failed w
  = (Ok (failed ++ [lib]), set_fs (add_fetch w (GITHUB_ZIP_URL lib)) fs1).
Proof.
  intros Hc Hurl Hne Hzf Hall Hmk.
  apply (acquire_lib_nothing_extracted urlopen ZipFile root lib data);
    [done | done | done |].
  unfold extract_lib_sources. erewrite bind_ok; last first.
  { unfold update_fs. cbn [fs add_fetch]. by rewrite Hmk. }
  rewrite Hzf. by apply extract_members_none_wanted.
Qed.

Lemma nothing_wanted_is_a_failure_witness :
  acquire_lib (λ _, Some "zip") (λ _, Some unwanted_zip) ["r"] "x" [] project_world
  = (Ok ["x"],
     set_fs (add_fetch project_world (GITHUB_ZIP_URL "x"))
       (<[ ["r"; "x"] := Dir ]> (fs project_world))).
Proof.
  apply (nothing_wanted_is_a_failure (λ _, Some "zip") (λ _, Some unwanted_zip)
           ["r"] "x" "zip" unwanted_zip [] (<[ ["r"; "x"] := Dir ]> (fs project_world))
           project_world);
    [| reflexivity | discriminate | reflexivity | | reflexivity].
  - rewrite <- complete_test_spec. discriminate.
  - intros m Hm. unfold unwanted_zip in Hm. simpl in Hm.
    rewrite !elem_of_cons in Hm.
    destruct Hm as [-> | [-> | [-> | Hm]]]; [reflexivity .. |].
    by apply elem_of_nil in Hm.
Defined.

(** X13. The extraction touches only the destination: for an archive
    whose wanted members have a final component without colon and
    without backslash, however the extraction ends, it requests nothing,
    prints nothing of the report, and every path that is neither the
    destination or one of its ancestors nor an entry of the destination
    keeps its node.  The condition on the archive is where [os.path.join]
    appends the final component to the destination as one name; a
    member such as [top/lib/D:evil.c] is wanted too, and on Windows
    [os.path.join] gives for it a path on the drive [D:], which the
    paths of the embedding do not describe.  The file system holds
    files and directories and no links. *)
Theorem extraction_stays_in_destination
    (ZipFile : string → option archive) (zip_data lib : string) (dest : path)
    (w : world) :
  (∀ zf, ZipFile zip_data = Some zf → plain_archive lib zf = true) →
  fetched (extract_lib_sources ZipFile zip_data lib dest w).2 = fetched w
  ∧ report (extract_lib_sources ZipFile zip_data lib dest w).2 = report w
  ∧ ∀ q, ¬ q `prefix_of` dest → (∀ f, q ≠ dest ++ [f]) →
         fs (extract_lib_sources ZipFile zip_data lib dest w).2 !! q = fs w !! q.
Proof.
  intros _.
  split; [apply extract_lib_sources_fetched |].
  split; [apply extract_lib_sources_report |].
  intros q. apply extract_lib_sources_frame.
Qed.

Lemma extraction_stays_in_destination_witness :
  (extract_lib_sources (λ _, Some all_libs_zip) "zip" "libbfio"
     ["r"; "libbfio"] unfetched_world).1 = Ok 2
  ∧ fs (extract_lib_sources (λ _, Some all_libs_zip) "zip" "libbfio"
          ["r"; "libbfio"] unfetched_world).2 !! ["c"; "notes"]
    = Some (File "keep").
Proof.
  split; [vm_compute; reflexivity |].
  assert (fs unfetched_world !! ["c"; "notes"] = Some (File "keep")) as <-
    by (vm_compute; reflexivity).
  apply (extraction_stays_in_destination (λ _, Some all_libs_zip) "zip"
           "libbfio" ["r"; "libbfio"] unfetched_world).
  - intros zf [= <-]. vm_compute. reflexivity.
  - intros [t Ht]. discriminate Ht.
  - intros f Hf. discriminate Hf.
Defined.

(** X14. When the wanted members of an archive have distinct final
    components, and the destination can be created and holds no
    directory, the extraction completes and every wanted member is found
    in the destination under its final component with its content. *)
Theorem extraction_stores_every_member
    (ZipFile : string → option archive) (zip_data lib : string) (dest : path)
    (zf : archive) (fs1 : filesystem) (w : world) :
  ZipFile zip_data = Some zf →
  NoDup (basename <$> List.filter (member_wanted lib) (Zip.namelist zf)) →
  makedirs (fs w) dest = inr fs1 →
  (∀ f, fs w !! (dest ++ [f]) ≠ Some Dir) →
  ∃ n w',
    extract_lib_sources ZipFile zip_data lib dest w = (Ok n, w')
    ∧ ∀ m c, m ∈ Zip.namelist zf → member_wanted lib m = true →
             Zip.open zf m = Some c →
             fs w' !! (dest ++ [basename m]) = Some (File c).
Proof.
  intros Hzf Hnd Hmk Hfiles.
  destruct (extract_lib_sources_total ZipFile zip_data lib dest zf fs1 w)
    as (n & w' & Hrun); [done | done | done |].
  exists n, w'. split; [done |]. intros m c Hin Hm Hc.
  apply extract_lib_sources_inv in Hrun as (fs2 & zf' & _ & Hzf' & Hrun).
  assert (zf' = zf) as -> by congruence.
  apply list_elem_of_split in Hin as (l1 & l2 & Hnames).
  rewrite Hnames in Hrun, Hnd.
  apply (extract_members_last zf lib dest _ _ _ _ _ _ _ _ Hrun); [done | done |].
  by apply (distinct_basenames_last lib m l1 l2).
Qed.

Lemma extraction_stores_every_member_witness :
  ∃ n w',
    extract_lib_sources (λ _, Some example_zip) "zip" "x" ["r"; "x"] bare_world
    = (Ok n, w')
    ∧ ∀ m c, m ∈ Zip.namelist example_zip → member_wanted "x" m = true →
             Zip.open example_zip m = Some c →
             fs w' !! (["r"; "x"] ++ [basename m]) = Some (File c).
Proof.
  apply (extraction_stores_every_member (λ _, Some example_zip) "zip" "x"
           ["r"; "x"] example_zip (<[ ["r"; "x"] := Dir ]> (fs bare_world))
           bare_world).
  - reflexivity.
  - by apply (bool_decide_unpack _).
  - reflexivity.
  - intros f. destruct (decide (["r"; "x"] ++ [f] = ["r"])) as [Heq | Hne].
    + discriminate Heq.
    + unfold bare_world. cbn [fs]. by rewrite lookup_singleton_ne.
Defined.

(** X15. A completed extraction of an archive with a wanted member that
    ends in [.c] and a wanted member that ends in [.h.in] leaves the
    directory of the library complete, so that the next iteration for
    that library, in any later run, requests nothing and changes
    nothing. *)
Theorem complete_after_extraction
    (ZipFile : string → option archive) (zip_data lib : string) (root : path)
    (zf : archive) (mc mh : string) (n : nat) (w w' : world) :
  ZipFile zip_data = Some zf →
  mc ∈ Zip.namelist zf → member_wanted lib mc = true →
  ends_with (basename mc) ".c" →
  mh ∈ Zip.namelist zf → member_wanted lib mh = true →
  ends_with (basename mh) ".h.in" →
  extract_lib_sources ZipFile zip_data lib (root ++ [lib]) w = (Ok n, w') →
  COMPLETE (fs w') (root ++ [lib])
  ∧ ∀ urlopen2 ZipFile2 failed,
      acquire_lib urlopen2 ZipFile2 root lib failed w' = (Ok failed, w').
Proof.
  intros Hzf Hmc Hwc Hc Hmh Hwh Hh Hrun.
  assert (COMPLETE (fs w') (root ++ [lib])) as Hcomplete.
  { destruct (extract_lib_sources_listdir _ _ _ _ _ _ _ _ Hzf Hrun) as [_ Hlist].
    apply extract_lib_sources_inv in Hrun as (fs1 & zf' & Hmk & _ & Hrun).
    apply makedirs_inr in Hmk as (_ & _ & Hd).
    apply extract_members_inv in Hrun as (_ & _ & _ & Hisdir & _ & _).
    split; [by rewrite Hisdir |]. split.
    - exists (basename mc). split; [| done]. apply Hlist. right. by exists mc.
    - exists (basename mh). split; [| done]. apply Hlist. right. by exists mh. }
  split; [done |]. intros urlopen2 ZipFile2 failed.
  by apply acquire_lib_complete.
Qed.

Lemma complete_after_extraction_witness :
  ∃ n w', extract_lib_sources (λ _, Some example_zip) "zip" "x" (["r"] ++ ["x"])
            bare_world = (Ok n, w')
          ∧ COMPLETE (fs w') (["r"] ++ ["x"])
          ∧ acquire_lib (λ _, None) (λ _, None) ["r"] "x" [] w' = (Ok [], w').
Proof.
  destruct (extract_lib_sources_total (λ _, Some example_zip) "zip" "x"
              (["r"] ++ ["x"]) example_zip
              (<[ ["r"; "x"] := Dir ]> (fs bare_world)) bare_world)
    as (n & w' & Hrun); [reflexivity | reflexivity | |].
  { intros f. destruct (decide ((["r"] ++ ["x"]) ++ [f] = ["r"])) as [Heq | Hne].
    - discriminate Heq.
    - unfold bare_world. cbn [fs]. by rewrite lookup_singleton_ne. }
  exists n, w'. split; [exact Hrun |].
  destruct (complete_after_extraction (λ _, Some example_zip) "zip" "x" ["r"]
              example_zip "x-main/x/a.c" "x-main/x/d.h.in" n bare_world w')
    as [Hc Hskip].
  - reflexivity.
  - simpl. rewrite !elem_of_cons. tauto.
  - reflexivity.
  - by exists "a".
  - simpl. rewrite !elem_of_cons. tauto.
  - reflexivity.
  - by exists "d".
  - exact Hrun.
  - split; [exact Hc | apply Hskip].
Defined.

(** X16. A run ends normally, that is with exit status 0, only if a
    project root with [setup.py] was found and, in the state the run
    leaves, every library directory and [libpff] hold a [.c] file, the
    six expected paths exist, [common/config.h] holds the fixed text and
    [setup.cfg] is a file. *)
Theorem exit_zero_means_ready
    (urlopen : string → option string) (ZipFile : string → option archive)
    (script_dir cwd : path) (w w' : world) :
  main urlopen ZipFile script_dir cwd w = (Ok (), w') →
  ∃ root,
    (root = script_dir ∨ root = cwd)
    ∧ exists_ (fs w) (root ++ ["setup.py"]) = true
    ∧ ready (fs w') root
    ∧ fs w' !! (root ++ ["common"; "config.h"]) = Some (File CONFIG_H)
    ∧ ∃ c, fs w' !! (root ++ ["setup.cfg"]) = Some (File c).
Proof.
  intros (root & w1 & w2 & w3 & w4 & g & Hroot & _ & _ & Hcfg & Hconf & Hver)%main_ok_inv.
  exists root. split; [by apply find_root_choice in Hroot |].
  split; [by apply find_root_inv in Hroot as [_ ?] |].
  rewrite verification_spec in Hver.
  pose proof (ready_spec (fs w4) root) as Hready.
  destruct (forallb _ _ && forallb _ _); [| done].
  injection Hver as <-. cbn [add_reports fs].
  split; [by apply Hready |].
  apply generate_setup_cfg_inv in Hcfg as [_ ->].
  unfold write_config_h in Hconf.
  apply update_fs_inv in Hconf as (fs4 & (-> & _)%write_file_inr & ->).
  cbn [set_fs fs]. split; [by rewrite lookup_insert_eq |].
  eexists. rewrite lookup_insert_ne; [by rewrite lookup_insert_eq |].
  intros Heq%app_inv_head. discriminate Heq.
Qed.

Lemma exit_zero_means_ready_witness :
  ∃ root,
    (root = ["r"] ∨ root = ["c"])
    ∧ exists_ (fs ready_world) (root ++ ["setup.py"]) = true
    ∧ ready (fs (main (λ _, None) (λ _, None) ["r"] ["c"] ready_world).2) root
    ∧ fs (main (λ _, None) (λ _, None) ["r"] ["c"] ready_world).2
        !! (root ++ ["common"; "config.h"]) = Some (File CONFIG_H)
    ∧ ∃ c, fs (main (λ _, None) (λ _, None) ["r"] ["c"] ready_world).2
             !! (root ++ ["setup.cfg"]) = Some (File c).
Proof.
  apply (exit_zero_means_ready (λ _, None) (λ _, None) ["r"] ["c"] ready_world).
  pose proof (surjective_pairing
                (main (λ _, None) (λ _, None) ["r"] ["c"] ready_world)) as Hrun.
  assert ((main (λ _, None) (λ _, None) ["r"] ["c"] ready_world).1 = Ok ())
    as Hok by (vm_compute; reflexivity).
  rewrite Hok in Hrun. exact Hrun.
Defined.

(** X17. A template without at-sign is written out as it is, for every
    table whose tokens hold an at-sign, as those of the script's table do. *)
Theorem text_without_at_unchanged
    (subs : list (string * string)) (content : string) :
  Forall (λ kv, occurs "@" kv.1) subs →
  ¬ occurs "@" content →
  render subs content = content.
Proof.
  intros Hk Hc. unfold render. rewrite apply_subs_no_at by done.
  apply re_sub_no_match. intros (p & m & q & -> & Hm%placeholder_has_at).
  apply Hc. apply (occurs_trans "@" m); [done |]. by exists p, q.
Qed.

Lemma text_without_at_unchanged_witness :
  render WIN_SUBS "#define HAVE_STRING_H 1" = "#define HAVE_STRING_H 1".
Proof.
  apply (text_without_at_unchanged WIN_SUBS "#define HAVE_STRING_H 1").
  - unfold WIN_SUBS. repeat (constructor; [by apply has_at_spec |]). constructor.
  - by apply not_occurs_at.
Defined.

(** X18. A name that ends in [.h.in] ends neither in [.c] nor in [.h]:
    a template is not counted as a source file by STEP 1 and STEP 5, and
    of the three suffix tests of the extraction only the one for [.h.in]
    accepts it. *)
Theorem template_is_no_source (f : string) :
  ends_with f ".h.in" →
  Str.endswith f ".c" = false ∧ Str.endswith f ".h" = false.
Proof. apply template_suffix_only. Qed.

Lemma template_is_no_source_witness :
  Str.endswith "libcerror_definitions.h.in" ".c" = false
  ∧ Str.endswith "libcerror_definitions.h.in" ".h" = false.
Proof.
  apply (template_is_no_source "libcerror_definitions.h.in").
  by exists "libcerror_definitions".
Defined.

(** X19. STEP 5 reports a library as present exactly when its directory
    exists and lists a name that ends in [.c]; a path that is not a
    directory counts as zero files, and a complete directory is always
    reported as present. *)
Theorem library_present_iff (fs : filesystem) (d : path) :
  (0 < c_count fs d
   ↔ isdir fs d = true ∧ ∃ f, f ∈ listdir fs d ∧ ends_with f ".c")
  ∧ (isdir fs d = false → c_count fs d = 0)
  ∧ (COMPLETE fs d → 0 < c_count fs d).
Proof.
  split; [apply c_count_positive |]. split.
  - intros Hd. unfold c_count. by rewrite Hd.
  - intros (Hd & Hc & _). by apply c_count_positive.
Qed.

(** X20. The run stays inside the project root: when the directory in
    which [main] settles on looking for [setup.py] and the directories
    above it exist, and every archive that the run can receive for a
    library of the list has, for its wanted members, final components
    without colon and without backslash, then however the run ends no
    node of the file system is removed and every path outside that
    directory holds after the run what it held before.  The condition
    on the archives is where [os.path.join] appends the final component
    to the library directory as one name; a wanted member such as
    [top/lib/D:evil.c] is written by the script, on Windows, to the
    drive [D:], outside the project.  The file system holds files and
    directories and no links. *)
Theorem run_stays_in_root (urlopen : string → option string)
    (ZipFile : string → option archive) (script_dir cwd : path) (w : world)
    (q : path) :
  let root := if FS.exists_ (fs w) (script_dir ++ ["setup.py"])
              then script_dir else cwd in
  anchored root (fs w) →
  (∀ lib data zf,
     lib ∈ DEPENDENCY_LIBS →
     urlopen (GITHUB_ZIP_URL lib) = Some data → ZipFile data = Some zf →
     plain_archive lib zf = true) →
  (is_Some (fs w !! q)
   → is_Some (fs (main urlopen ZipFile script_dir cwd w).2 !! q))
  ∧ (¬ root `prefix_of` q
     → fs (main urlopen ZipFile script_dir cwd w).2 !! q = fs w !! q).
Proof.
  intros root Hroot _.
  destruct (confined_main urlopen ZipFile script_dir cwd w) as [Hkeep Hout].
  split; [apply Hkeep | by apply Hout].
Qed.

Lemma run_stays_in_root_witness :
  fs (main (λ _, Some "zip") (λ _, Some all_libs_zip) ["r"] ["c"]
        unfetched_world).2 !! ["r"; "libbfio"; "libbfio.c"]
  = Some (File "int x;")
  ∧ fs (main (λ _, Some "zip") (λ _, Some all_libs_zip) ["r"] ["c"]
          unfetched_world).2 !! ["c"; "notes"]
    = Some (File "keep").
Proof.
  split; [vm_compute; reflexivity |].
  assert (fs unfetched_world !! ["c"; "notes"] = Some (File "keep")) as <-
    by (vm_compute; reflexivity).
  assert (FS.exists_ (fs unfetched_world) (["r"] ++ ["setup.py"]) = true)
    as Hsetup by (vm_compute; reflexivity).
  apply (run_stays_in_root (λ _, Some "zip") (λ _, Some all_libs_zip)
           ["r"] ["c"] unfetched_world ["c"; "notes"]).
  - rewrite Hsetup. intros [|[|k]] Hk; simpl in Hk; [lia | | lia].
    vm_compute. eexists. reflexivity.
  - intros lib data zf Hlib _ [= <-]. revert lib Hlib.
    apply Forall_forall. unfold DEPENDENCY_LIBS.
    repeat (apply Forall_cons; split; [vm_compute; reflexivity |]).
    apply Forall_nil_2.
  - rewrite Hsetup. intros [t Ht]. discriminate Ht.
Defined.

(** X21. The status of the process is 0 or 1 and no other: every
    [sys.exit] of the script has status 1, an exception that escapes ends
    the interpreter with status 1, and status 0 means that [main]
    returned. *)
Theorem status_zero_or_one (urlopen : string → option string)
    (ZipFile : string → option archive) (script_dir cwd : path) (w : world) :
  (exit_status (main urlopen ZipFile script_dir cwd w).1 = 0
   ∧ (main urlopen ZipFile script_dir cwd w).1 = Ok ())
  ∨ exit_status (main urlopen ZipFile script_dir cwd w).1 = 1.
Proof.
  pose proof (exits_main urlopen ZipFile script_dir cwd w) as Hexit.
  destruct (main urlopen ZipFile script_dir cwd w) as [[[] | n | e] w'];
    simpl in *.
  - by left.
  - right. by apply Hexit.
  - by right.
Qed.
